(** * OCI MCP server: analyzer, provisioner and router

    A shallow embedding of [src/core/analyzer.py], [src/core/provisioner.py]
    and the analysis and provisioning routes of [src/api/router.py], followed
    by the properties of the requirement pipeline and of the provisioning
    engine.

    Conventions of the embedding.
    - Python [str] values are [string]s of ASCII characters; [re] patterns are
      compiled with [re.IGNORECASE], which on ASCII text is comparison of the
      lower-cased characters.
    - Python [int] is [Z]; Python [float] values (progress percentages, cost
      estimates) are represented by the rationals they denote, in [Q].
      [int] of a captured run of digits is the number it denotes; the
      interpreters that limit this conversion refuse runs of more than
      [int_max_str_digits] digits, so for longer conversations the embedding
      describes the interpreters without the limit.
    - Dictionaries whose iteration order the code relies on are association
      lists in insertion order; the request store, which is only read by key,
      is a [gmap].
    - [uuid.uuid4()], [datetime.now()], the iteration order of a [set] of
      strings and the configured OCI region come from the run-time
      environment and are fields of [Env]; every call that consumes entropy
      or reads the clock advances a counter that is threaded through.
    - The recursion of [visit] is as deep as the longest chain of
      dependencies; Python's recursion limit, which a chain of several
      hundred resources would reach, is not part of the model.
    - Logging and [time.sleep] do not touch the modelled state and are left
      out. [src/services/oci_client.py], [src/utils] and [src/main.py] wrap
      the OCI SDK, the configuration file, the log files and the web server;
      of them only the region of the client is used here, as a field of
      [Env]. *)

From Stdlib Require Import String Ascii List ZArith QArith Lia Bool.
From stdpp Require Import base option list sorting gmap strings pretty.

Local Open Scope string_scope.
Local Open Scope list_scope.

(** ** A backtracking matcher for the fragment of [re] the analyzer uses *)

Module PyRe.

Definition ascii_lower (c : ascii) : ascii :=
  let n := N_of_ascii c in
  if ((65 <=? n) && (n <=? 90))%N then ascii_of_N (n + 32) else c.

Definition lower (s : string) : string :=
  string_of_list_ascii (map ascii_lower (list_ascii_of_string s)).

(** [\s] on ASCII text: TAB, LF, VT, FF, CR, the separators FS..US, SPACE. *)
Definition is_space (c : ascii) : bool :=
  let n := N_of_ascii c in
  (((9 <=? n) && (n <=? 13)) || ((28 <=? n) && (n <=? 32)))%N.

Definition is_digit (c : ascii) : bool :=
  let n := N_of_ascii c in ((48 <=? n) && (n <=? 57))%N.

Inductive atom : Type :=
| Chr (c : ascii)      (* a literal character, compared case-insensitively *)
| Space                (* \s *)
| Digit.               (* \d *)

Definition atom_ok (a : atom) (x : ascii) : bool :=
  match a with
  | Chr c => bool_decide (ascii_lower x = ascii_lower c)
  | Space => is_space x
  | Digit => is_digit x
  end.

Inductive regex : Type :=
| Eps
| One (a : atom)
| Many (a : atom)                 (* a*  greedy *)
| Many1 (a : atom)                (* a+  greedy *)
| Opt (r : regex)                 (* r?  greedy *)
| Seq (r1 r2 : regex)
| Alt (r1 r2 : regex)             (* r1|r2, left alternative first *)
| Group (n : nat) (r : regex).    (* the n-th capturing parenthesis *)

Fixpoint word (s : string) : regex :=
  match s with
  | EmptyString => Eps
  | String c s' => Seq (One (Chr c)) (word s')
  end.

Fixpoint seqs (r : regex) (rs : list regex) : regex :=
  match rs with
  | [] => r
  | r' :: rs' => Seq r (seqs r' rs')
  end.

Fixpoint alts (r : regex) (rs : list regex) : regex :=
  match rs with
  | [] => r
  | r' :: rs' => Alt r (alts r' rs')
  end.

(** Captured groups, most recent first. *)
Definition captures : Type := list (nat * list ascii).

Definition kont : Type := list ascii -> captures -> option captures.

Fixpoint many (a : atom) (s : list ascii) (cs : captures) (k : kont)
  : option captures :=
  match s with
  | c :: s' =>
      if atom_ok a c then
        match many a s' cs k with
        | Some res => Some res
        | None => k s cs
        end
      else k s cs
  | [] => k [] cs
  end.

Fixpoint rmatch (r : regex) (s : list ascii) (cs : captures) (k : kont)
  : option captures :=
  match r with
  | Eps => k s cs
  | One a =>
      match s with
      | c :: s' => if atom_ok a c then k s' cs else None
      | [] => None
      end
  | Many a => many a s cs k
  | Many1 a =>
      match s with
      | c :: s' => if atom_ok a c then many a s' cs k else None
      | [] => None
      end
  | Opt r1 =>
      match rmatch r1 s cs k with
      | Some res => Some res
      | None => k s cs
      end
  | Seq r1 r2 => rmatch r1 s cs (fun s' cs' => rmatch r2 s' cs' k)
  | Alt r1 r2 =>
      match rmatch r1 s cs k with
      | Some res => Some res
      | None => rmatch r2 s cs k
      end
  | Group n r1 =>
      rmatch r1 s cs
        (fun s' cs' => k s' ((n, take (length s - length s') s) :: cs'))
  end.

(** [re.search]: the leftmost position at which the pattern matches. *)
Fixpoint search_chars (r : regex) (s : list ascii) : option captures :=
  match rmatch r s [] (fun _ cs => Some cs) with
  | Some cs => Some cs
  | None =>
      match s with
      | [] => None
      | _ :: s' => search_chars r s'
      end
  end.

Definition search (r : regex) (text : string) : option captures :=
  search_chars r (list_ascii_of_string text).

(** [m.group(n)] for a group that took part in the match. *)
Fixpoint group (n : nat) (cs : captures) : string :=
  match cs with
  | [] => ""
  | (i, g) :: cs' =>
      if Nat.eqb i n then string_of_list_ascii g else group n cs'
  end.

(** [int(s)] for a string of ASCII digits. *)
Definition int_of_digits (s : string) : Z :=
  fold_left
    (fun acc c => (10 * acc + (Z.of_N (N_of_ascii c) - 48))%Z)
    (list_ascii_of_string s) 0%Z.

(** The language of a pattern, independently of the search strategy. *)
Inductive Matches : regex -> list ascii -> Prop :=
| MEps : Matches Eps []
| MOne a c : atom_ok a c = true -> Matches (One a) [c]
| MManyNil a : Matches (Many a) []
| MManyCons a c s :
    atom_ok a c = true -> Matches (Many a) s -> Matches (Many a) (c :: s)
| MMany1 a c s :
    atom_ok a c = true -> Matches (Many a) s -> Matches (Many1 a) (c :: s)
| MOptNone r : Matches (Opt r) []
| MOptSome r s : Matches r s -> Matches (Opt r) s
| MSeq r1 r2 s1 s2 :
    Matches r1 s1 -> Matches r2 s2 -> Matches (Seq r1 r2) (s1 ++ s2)
| MAltL r1 r2 s : Matches r1 s -> Matches (Alt r1 r2) s
| MAltR r1 r2 s : Matches r2 s -> Matches (Alt r1 r2) s
| MGroup n r s : Matches r s -> Matches (Group n r) s.

(** The text contains a substring in the language of the pattern. *)
Definition Occurs (r : regex) (text : string) : Prop :=
exists pre m post,
  list_ascii_of_string text = pre ++ m ++ post /\ Matches r m.

(** [l] spells [w], up to the case of its letters. *)
Definition spells (w : string) (l : list ascii) : Prop :=
map ascii_lower l = map ascii_lower (list_ascii_of_string w).

(** [l] is a non-empty run of whitespace. *)
Definition blank (l : list ascii) : Prop :=
l <> [] /\ Forall (fun c => is_space c = true) l.

(** [int(s)] refuses a string of more than 4300 digits on the interpreters
    that limit the conversion (3.11 and later, by default); shorter strings
    are converted by every version. *)
Definition int_max_str_digits : nat := 4300.

(** [w] occurs in [text], whatever the case of the letters. *)
Definition mentions (w text : string) : Prop :=
exists pre m post, list_ascii_of_string text = pre ++ m ++ post /\ spells w m.

(** The captures of a match, in lower case. *)
Definition lower_captures (cs : captures) : captures :=
map (fun c => (fst c, map ascii_lower (snd c))) cs.

(** Every captured group satisfies [P]. *)
Definition captures_ok (P : nat -> list ascii -> Prop) (cs : captures) : Prop :=
Forall (fun c => P (fst c) (snd c)) cs.

(** Whatever a capturing parenthesis of [r] matches satisfies [P]. *)
Fixpoint groups_ok (P : nat -> list ascii -> Prop) (r : regex) : Prop :=
match r with
| Eps | One _ | Many _ | Many1 _ => True
| Opt r1 => groups_ok P r1
| Seq r1 r2 | Alt r1 r2 => groups_ok P r1 /\ groups_ok P r2
| Group n r1 => (forall m, Matches r1 m -> P n m) /\ groups_ok P r1
end.

(** The first group holds a run of digits. *)
Definition digits_first (n : nat) (g : list ascii) : Prop :=
n = 1 -> Forall (fun c => is_digit c = true) g.

(** An ASCII letter or digit. *)
Definition is_alnum (c : ascii) : bool :=
let n := N_of_ascii (ascii_lower c) in
(((48 <=? n) && (n <=? 57)) || ((97 <=? n) && (n <=? 122)))%N.

(** A sufficient check that every match of [r] contains a letter or a
    digit. *)
Fixpoint needs_alnum (r : regex) : bool :=
match r with
| Eps | Many _ | Opt _ => false
| One (Chr c) | Many1 (Chr c) => is_alnum c
| One Digit | Many1 Digit => true
| One Space | Many1 Space => false
| Seq r1 r2 => needs_alnum r1 || needs_alnum r2
| Alt r1 r2 => needs_alnum r1 && needs_alnum r2
| Group _ r1 => needs_alnum r1
end.

End PyRe.

(** ** Data shared by the modules: [src/api/schemas.py] *)

Module Schemas.

Inductive ResourceType : Type :=
| COMPUTE | NETWORK | DATABASE | STORAGE | LOAD_BALANCER | KUBERNETES.

(** The [str] value of a member. *)
Definition ResourceType_value (t : ResourceType) : string :=
  match t with
  | COMPUTE => "compute"
  | NETWORK => "network"
  | DATABASE => "database"
  | STORAGE => "storage"
  | LOAD_BALANCER => "load_balancer"
  | KUBERNETES => "kubernetes"
  end.

(** The qualified name of a member, which is what an f-string prints for it
    from Python 3.11 on; earlier versions print [ResourceType_value]. *)
Definition ResourceType_qualified (t : ResourceType) : string :=
  match t with
  | COMPUTE => "ResourceType.COMPUTE"
  | NETWORK => "ResourceType.NETWORK"
  | DATABASE => "ResourceType.DATABASE"
  | STORAGE => "ResourceType.STORAGE"
  | LOAD_BALANCER => "ResourceType.LOAD_BALANCER"
  | KUBERNETES => "ResourceType.KUBERNETES"
  end.

Inductive ResourceStatus : Type :=
| PENDING | CREATING | ACTIVE | FAILED | DELETING | DELETED.

(** Values of type [Any] held in specification and detail maps. *)
#[warnings="-register-all"] Inductive pyval : Type :=
| PNone
| PBool (b : bool)
| PInt (z : Z)
| PFloat (q : Q)
| PStr (s : string)
| PList (l : list pyval)
| PDict (d : list (string * pyval)).

(** A [dict] with string keys, in insertion order. *)
Definition pydict (V : Type) : Type := list (string * V).

Fixpoint dict_get {V} (k : string) (d : pydict V) : option V :=
  match d with
  | [] => None
  | (k', v) :: d' => if String.eqb k' k then Some v else dict_get k d'
  end.

(** [d[k] = v]: an existing key keeps its position. *)
Fixpoint dict_set {V} (k : string) (v : V) (d : pydict V) : pydict V :=
  match d with
  | [] => [(k, v)]
  | (k', v') :: d' =>
      if String.eqb k' k then (k', v) :: d' else (k', v') :: dict_set k v d'
  end.

Definition dict_keys {V} (d : pydict V) : list string := map fst d.

Definition dict_mem {V} (k : string) (d : pydict V) : bool :=
  match dict_get k d with Some _ => true | None => false end.

(** [d.get(k, default)] *)
Definition dict_get_default {V} (k : string) (default : V) (d : pydict V) : V :=
  match dict_get k d with Some v => v | None => default end.

Record ConversationMessage : Type := {
  role : string;
  content : string;
  timestamp : option string
}.

Record OCIResource : Type := {
  resource_type : ResourceType;
  name : string;
  description : option string;
  specifications : pydict pyval;
  estimated_cost : option (pydict pyval);
  dependencies : option (list string)
}.

Record ProvisionedResource : Type := {
  p_resource_type : ResourceType;
  p_name : string;
  ocid : string;
  p_status : ResourceStatus;
  details : pydict pyval;
  access_info : option (pydict pyval)
}.

Inductive Exception : Type :=
| ValueError (msg : string)
| KeyError (key : string).

(** The outcome of a call: a returned value or a raised exception. *)
Inductive result (A : Type) : Type :=
| Ok (a : A)
| Raise (e : Exception).
Arguments Ok {A} a.
Arguments Raise {A} e.

(** [str(e)] *)
Definition Exception_str (e : Exception) : string :=
  match e with
  | ValueError msg => msg
  | KeyError key => "'" +:+ key +:+ "'"
  end.

End Schemas.

(** ** [src/core/analyzer.py] *)

Module Analyzer.
Import PyRe Schemas.

Record ExtractedInfo : Type := {
  website_type : option string;
  expected_traffic : option string;
  database_needs : option string;
  storage_requirements : option Z;
  performance_requirements : option string;
  budget_constraints : option Z;
  security_requirements : option string;
  availability_requirements : option string;
  scaling_needs : option string;
  region_preferences : option string
}.

(** [" ".join(parts)] *)
Fixpoint join (sep : string) (parts : list string) : string :=
  match parts with
  | [] => ""
  | [p] => p
  | p :: rest => p +:+ sep +:+ join sep rest
  end.

Definition ws1 : regex := Many1 Space.

(* (static|simple)\s+(website|site|web\s+page) *)
Definition static_pattern : regex :=
seqs (Group 1 (alts (word "static") [word "simple"]))
  [ws1;
   Group 2 (alts (word "website")
              [word "site"; seqs (word "web") [ws1; word "page"]])].

(* (dynamic|interactive)\s+(website|site|web\s+application) *)
Definition dynamic_pattern : regex :=
seqs (Group 1 (alts (word "dynamic") [word "interactive"]))
  [ws1;
   Group 2 (alts (word "website")
              [word "site"; seqs (word "web") [ws1; word "application"]])].

(* (e-commerce|ecommerce|online\s+store|shop) *)
Definition ecommerce_pattern : regex :=
Group 1 (alts (word "e-commerce")
           [word "ecommerce"; seqs (word "online") [ws1; word "store"];
            word "shop"]).

(* (blog|content\s+management|cms) *)
Definition blog_pattern : regex :=
Group 1 (alts (word "blog")
           [seqs (word "content") [ws1; word "management"]; word "cms"]).

(* (api|backend|service) *)
Definition api_pattern : regex :=
Group 1 (alts (word "api") [word "backend"; word "service"]).

(** The texts of the second group of [static_pattern]. *)
Definition site_noun (l : list ascii) : Prop :=
spells "website" l \/ spells "site" l \/
exists web sp page,
  l = web ++ sp ++ page /\ spells "web" web /\ blank sp /\ spells "page" page.

Definition website_patterns : list (regex * string) :=
[ (static_pattern, "static");
  (dynamic_pattern, "dynamic");
  (ecommerce_pattern, "ecommerce");
  (blog_pattern, "blog");
  (api_pattern, "api") ].

Definition traffic_nouns : regex :=
  Group 2 (alts (word "traffic") [word "visitors"; word "users"]).

Definition traffic_patterns : list (regex * string) :=
  [ (seqs (Group 1 (alts (word "low") [word "small"; word "minimal"]))
       [ws1; traffic_nouns], "low");
    (seqs (Group 1 (alts (word "medium") [word "moderate"]))
       [ws1; traffic_nouns], "medium");
    (seqs (Group 1 (alts (word "high")
                      [word "large"; word "heavy"; word "substantial"]))
       [ws1; traffic_nouns], "high") ].

Definition database_pattern : regex :=
  Group 1 (alts (word "database")
             [word "db"; seqs (word "data") [ws1; word "storage"]]).

Definition relational_pattern : regex :=
  Group 1 (alts (word "sql")
             [word "relational"; word "mysql"; word "postgresql"]).

Definition nosql_pattern : regex :=
  Group 1 (alts (word "nosql")
             [word "mongodb"; word "document"; word "key-value"]).

Definition storage_pattern : regex :=
  seqs (Group 1 (Many1 Digit))
    [Many Space;
     Group 2 (alts (word "gb")
                [word "tb"; word "gigabytes"; word "terabytes"])].

Definition budget_pattern : regex :=
  seqs (word "budget")
    [ws1; word "of"; ws1; Opt (One (Chr "$")); Group 1 (Many1 Digit)].

Definition availability_pattern : regex :=
  Group 1 (alts (seqs (word "high") [ws1; word "availability"])
             [word "ha"; seqs (word "always") [ws1; word "available"];
              word "99.9"]).

Definition scaling_pattern : regex :=
  Group 1 (alts (seqs (word "scal")
                   [Group 2 (alts (word "e") [word "ing"; word "able"])])
             [word "grow"; word "expand"]).

Definition region_patterns : list (regex * string) :=
  [ (Group 1 (alts (word "us")
                [seqs (word "united") [ws1; word "states"]; word "america"]),
     "us");
    (Group 1 (alts (word "europe") [word "eu"; word "european"]), "eu");
    (Group 1 (alts (word "asia")
                [word "apac"; seqs (word "asia") [ws1; word "pacific"]]),
     "asia") ].

(** [for pattern, value in patterns: if re.search(...): field = value; break] *)
Fixpoint first_match (patterns : list (regex * string)) (text : string)
  : option string :=
  match patterns with
  | [] => None
  | (pattern, value) :: rest =>
      match search pattern text with
      | Some _ => Some value
      | None => first_match rest text
      end
  end.

Definition found (r : regex) (text : string) : bool :=
  match search r text with Some _ => true | None => false end.

Definition extract_database_needs (full_text : string) : option string :=
  if found database_pattern full_text then
    if found relational_pattern full_text then Some "relational"
    else if found nosql_pattern full_text then Some "nosql"
    else Some "general"
  else None.

Definition extract_storage_requirements (full_text : string) : option Z :=
  match search storage_pattern full_text with
  | Some storage_match =>
      let amount := int_of_digits (group 1 storage_match) in
      let unit := lower (group 2 storage_match) in
      if String.eqb unit "tb" || String.eqb unit "terabytes"
      then Some (amount * 1024)%Z
      else Some amount
  | None => None
  end.

Definition extract_budget_constraints (full_text : string) : option Z :=
  match search budget_pattern full_text with
  | Some budget_match => Some (int_of_digits (group 1 budget_match))
  | None => None
  end.

(** Combine all messages into a single text for analysis *)
Definition combined_text (conversation_context : list ConversationMessage)
  : string :=
join " " (map content conversation_context).

Definition _extract_information (conversation_context : list ConversationMessage)
  : ExtractedInfo :=
  let full_text := combined_text conversation_context in
  {| website_type := first_match website_patterns full_text;
     expected_traffic := first_match traffic_patterns full_text;
     database_needs := extract_database_needs full_text;
     storage_requirements := extract_storage_requirements full_text;
     performance_requirements := None;
     budget_constraints := extract_budget_constraints full_text;
     security_requirements := None;
     availability_requirements :=
       if found availability_pattern full_text then Some "high" else None;
     scaling_needs :=
       if found scaling_pattern full_text then Some "required" else None;
     region_preferences := first_match region_patterns full_text |}.

(** [field == value] for a field that may be [None]. *)
Definition is_value (field : option string) (value : string) : bool :=
match field with
| Some s => String.eqb s value
| None => false
end.

Record ComputeReq : Type := {
  instance_count : Z;
  shape : string;
  ocpus : Z;
  memory_in_gbs : Z;
  autoscaling : option bool;
  min_instances : option Z;
  max_instances : option Z
}.

Definition _determine_compute_requirements (extracted_info : ExtractedInfo)
  : ComputeReq :=
(* Adjust based on website type *)
let '(shape0, ocpus0, memory0) :=
  if is_value (website_type extracted_info) "static"
  then ("VM.Standard.E2.1.Micro", 1%Z, 1%Z)
  else if is_value (website_type extracted_info) "ecommerce"
  then ("VM.Standard.E4.Flex", 2%Z, 16%Z)
  else ("VM.Standard.E4.Flex", 1%Z, 8%Z) in
(* Adjust based on expected traffic *)
let '(count1, ocpus1, memory1) :=
  if is_value (expected_traffic extracted_info) "high"
  then (2%Z, Z.max ocpus0 4, Z.max memory0 32)
  else (1%Z, ocpus0, memory0) in
(* Adjust for scaling needs *)
if is_value (scaling_needs extracted_info) "required"
then {| instance_count := count1; shape := shape0; ocpus := ocpus1;
        memory_in_gbs := memory1; autoscaling := Some true;
        min_instances := Some count1; max_instances := Some (count1 * 3)%Z |}
else {| instance_count := count1; shape := shape0; ocpus := ocpus1;
        memory_in_gbs := memory1; autoscaling := None;
        min_instances := None; max_instances := None |}.

Record NetworkReq : Type := {
  vcn_cidr : string;
  subnet_cidr : string;
  load_balancer : bool;
  load_balancer_shape : option string;
  load_balancer_min_shape : option Z;
  load_balancer_max_shape : option Z;
  security_list_rules : list (pydict pyval)
}.

Definition security_rule (port : Z) : pydict pyval :=
[("protocol", PStr "6"); ("port", PInt port); ("source", PStr "0.0.0.0/0")].

Definition _determine_network_requirements (extracted_info : ExtractedInfo)
  : NetworkReq :=
let compute_req := _determine_compute_requirements extracted_info in
let rules := [security_rule 80; security_rule 443] ++ [security_rule 22] in
if is_value (expected_traffic extracted_info) "high"
   || (1 <? instance_count compute_req)%Z
then {| vcn_cidr := "10.0.0.0/16"; subnet_cidr := "10.0.0.0/24";
        load_balancer := true; load_balancer_shape := Some "flexible";
        load_balancer_min_shape := Some 10%Z;
        load_balancer_max_shape := Some 100%Z;
        security_list_rules := rules |}
else {| vcn_cidr := "10.0.0.0/16"; subnet_cidr := "10.0.0.0/24";
        load_balancer := false; load_balancer_shape := None;
        load_balancer_min_shape := None; load_balancer_max_shape := None;
        security_list_rules := rules |}.

Record DatabaseReq : Type := {
  db_type : string;              (* key "type" *)
  workload_type : string;
  storage_in_tbs : Z;
  cpu_core_count : Z;
  db_name : option string;
  table_name : option string
}.

(** Truth value of an optional string: [None] and [""] are false. *)
Definition truthy_str (field : option string) : bool :=
match field with
| Some s => negb (String.eqb s "")
| None => false
end.

Definition _determine_database_requirements (extracted_info : ExtractedInfo)
  : option DatabaseReq :=
if negb (truthy_str (database_needs extracted_info)) then None
else
  (* Adjust based on database type *)
  let '(type1, db_name1, table_name1) :=
    if is_value (database_needs extracted_info) "relational"
    then ("autonomous", Some "OCIDB", None)
    else if is_value (database_needs extracted_info) "nosql"
    then ("nosql", None, Some "OCITable")
    else ("autonomous", None, None) in
  (* Adjust based on expected traffic *)
  let '(cpu1, storage1) :=
    if is_value (expected_traffic extracted_info) "high"
    then (2%Z, 2%Z)
    else (1%Z, 1%Z) in
  Some {| db_type := type1; workload_type := "OLTP";
          storage_in_tbs := storage1; cpu_core_count := cpu1;
          db_name := db_name1; table_name := table_name1 |}.

Record StorageReq : Type := {
  block_volume_size_in_gbs : Z;
  object_storage : bool
}.

(** Truth value of an optional integer: [None] and [0] are false. *)
Definition truthy_int (field : option Z) : option Z :=
match field with
| Some z => if (z =? 0)%Z then None else Some z
| None => None
end.

Definition _determine_storage_requirements (extracted_info : ExtractedInfo)
  : StorageReq :=
(* Adjust based on storage requirements *)
let size0 :=
  match truthy_int (storage_requirements extracted_info) with
  | Some amount => Z.max 50 amount
  | None => 50%Z
  end in
(* Adjust based on website type *)
let size1 :=
  if is_value (website_type extracted_info) "static" then 50%Z
  else if is_value (website_type extracted_info) "ecommerce"
          || is_value (website_type extracted_info) "dynamic"
  then Z.max size0 100
  else size0 in
{| block_volume_size_in_gbs := size1; object_storage := true |}.

Record Requirements : Type := {
  compute : ComputeReq;
  network : NetworkReq;
  database : option DatabaseReq;
  storage : StorageReq
}.

Definition _determine_requirements (extracted_info : ExtractedInfo)
  : Requirements :=
{| compute := _determine_compute_requirements extracted_info;
   network := _determine_network_requirements extracted_info;
   database := _determine_database_requirements extracted_info;
   storage := _determine_storage_requirements extracted_info |}.

Definition usd (monthly : Q) : option (pydict pyval) :=
Some [("monthly", PFloat monthly); ("currency", PStr "USD")].

Definition compute_resource (compute_req : ComputeReq) : OCIResource :=
{| resource_type := COMPUTE;
   name := "WebServer";
   description := Some "Compute instance for hosting the website";
   specifications :=
     [("shape", PStr (shape compute_req));
      ("ocpus", PInt (ocpus compute_req));
      ("memory_in_gbs", PInt (memory_in_gbs compute_req));
      ("instance_count", PInt (instance_count compute_req));
      ("image_id", PStr "Oracle-Linux-8.6-2022.05.31-0")];
   estimated_cost :=
     usd (50 * inject_Z (ocpus compute_req)
             * inject_Z (instance_count compute_req));
   dependencies := None |}.

Definition network_resource (network_req : NetworkReq) : OCIResource :=
{| resource_type := NETWORK;
   name := "WebsiteVCN";
   description := Some "Virtual Cloud Network for the website";
   specifications :=
     [("vcn_cidr", PStr (vcn_cidr network_req));
      ("subnet_cidr", PStr (subnet_cidr network_req));
      ("security_list_rules",
       PList (map PDict (security_list_rules network_req)))];
   estimated_cost := usd 0;
   dependencies := None |}.

(** The load-balancer keys are read only under [network_req["load_balancer"]];
    a requirement that sets the flag without them raises [KeyError]. *)
Definition lb_resource (network_req : NetworkReq) : result OCIResource :=
match load_balancer_shape network_req with
| None => Raise (KeyError "load_balancer_shape")
| Some lb_shape =>
  match load_balancer_min_shape network_req with
  | None => Raise (KeyError "load_balancer_min_shape")
  | Some lb_min =>
    match load_balancer_max_shape network_req with
    | None => Raise (KeyError "load_balancer_max_shape")
    | Some lb_max =>
        Ok {| resource_type := LOAD_BALANCER;
              name := "WebsiteLoadBalancer";
              description := Some "Load balancer for distributing traffic";
              specifications :=
                [("shape", PStr lb_shape);
                 ("min_bandwidth_mbps", PInt lb_min);
                 ("max_bandwidth_mbps", PInt lb_max)];
              estimated_cost :=
                usd (10 + ((17 # 10000) * 730 * inject_Z lb_min));
              dependencies := Some ["WebsiteVCN"] |}
    end
  end
end.

Definition db_resource (db_req : DatabaseReq) : OCIResource :=
{| resource_type := DATABASE;
   name := "WebsiteDB";
   description := Some "Database for the website";
   specifications :=
     [("type", PStr (db_type db_req));
      ("workload_type", PStr (workload_type db_req));
      ("storage_in_tbs", PInt (storage_in_tbs db_req));
      ("cpu_core_count", PInt (cpu_core_count db_req))];
   estimated_cost := usd (900 * inject_Z (cpu_core_count db_req));
   dependencies := Some ["WebsiteVCN"] |}.

Definition storage_resource (storage_req : StorageReq) : OCIResource :=
{| resource_type := STORAGE;
   name := "WebsiteStorage";
   description := Some "Block volume for the website";
   specifications :=
     [("size_in_gbs", PInt (block_volume_size_in_gbs storage_req));
      ("vpus_per_gb", PInt 10)];
   estimated_cost :=
     usd ((255 # 10000) * inject_Z (block_volume_size_in_gbs storage_req));
   dependencies := Some ["WebServer"] |}.

Definition bucket_resource : OCIResource :=
{| resource_type := STORAGE;
   name := "WebsiteBucket";
   description := Some "Object storage bucket for static assets";
   specifications :=
     [("storage_tier", PStr "Standard"); ("auto_tiering", PBool true)];
   estimated_cost := usd ((255 # 10000) * 100);
   dependencies := None |}.

Definition _generate_recommendations (requirements : Requirements)
  : result (list OCIResource) :=
let recommendations :=
  [compute_resource (compute requirements);
   network_resource (network requirements)] in
(* Load balancer recommendation (if needed) *)
match (if load_balancer (network requirements)
       then match lb_resource (network requirements) with
            | Ok lb => Ok [lb]
            | Raise e => Raise e
            end
       else Ok []) with
| Raise e => Raise e
| Ok lb =>
    let recommendations := recommendations ++ lb in
    (* Database recommendation (if needed) *)
    let recommendations :=
      match database requirements with
      | Some db_req => recommendations ++ [db_resource db_req]
      | None => recommendations
      end in
    (* Storage recommendation *)
    let recommendations :=
      recommendations ++ [storage_resource (storage requirements)] in
    (* Object storage bucket (if needed) *)
    Ok (if object_storage (storage requirements)
        then recommendations ++ [bucket_resource]
        else recommendations)
end.

Definition analyze_requirements (conversation_context : list ConversationMessage)
  : result (list OCIResource) :=
let extracted_info := _extract_information conversation_context in
let requirements := _determine_requirements extracted_info in
_generate_recommendations requirements.

(** The alternatives of the second group of [storage_pattern]. *)
Definition storage_units : regex :=
alts (word "gb") [word "tb"; word "gigabytes"; word "terabytes"].

(** The signals of a conversation in which nothing was recognised. *)
Definition no_signals : ExtractedInfo :=
{| website_type := None; expected_traffic := None; database_needs := None;
   storage_requirements := None; performance_requirements := None;
   budget_constraints := None; security_requirements := None;
   availability_requirements := None; scaling_needs := None;
   region_preferences := None |}.

End Analyzer.

(** ** [src/core/provisioner.py] *)

Module Provisioner.
Import PyRe Schemas.

(** What the run-time environment decides: the values of the successive
    [uuid.uuid4()] calls and clock readings (indexed by the number of such
    calls made so far), the region of the OCI client, how the interpreter
    formats a [ResourceType] member in an f-string, and the order in which
    a [set] of strings built by the given insertions is iterated. Python's
    recursion limit is not part of the model. *)
Record Env : Type := {
  uuid4_hex : nat -> string;
  uuid4_int : nat -> Z;
  now_isoformat : nat -> Z -> string;   (* clock reading, shifted by minutes *)
  region : string;
  ResourceType_format : ResourceType -> string;
  set_iter : list string -> list string;
  set_iter_perm : forall elements, set_iter elements ≡ₚ elements
}.

(** *** Dependency ordering *)

(** [s.add(x)] on the duplicate-free list of the elements of [s]. *)
Definition set_add (x : string) (s : list string) : list string :=
if bool_decide (x ∈ s) then s else s ++ [x].

(** [d[k].add(x)], for a key of [d] (the names it is used with are keys of
    the graph). *)
Fixpoint dict_add {V} (k : string) (f : V -> V) (d : pydict V) : pydict V :=
match d with
| [] => []
| (k', v) :: d' =>
    if String.eqb k' k then (k', f v) :: d' else (k', v) :: dict_add k f d'
end.

Definition resource_map (resources : list OCIResource) : pydict OCIResource :=
fold_left (fun d resource => dict_set (name resource) resource d) resources [].

Definition add_dependencies (rmap : pydict OCIResource)
  (graph : pydict (list string)) (resource : OCIResource)
  : pydict (list string) :=
match dependencies resource with
| Some deps =>
    fold_left
      (fun g dependency =>
         if dict_mem dependency rmap
         then dict_add (name resource) (set_add dependency) g
         else g)
      deps graph
| None => graph
end.

Definition dependency_graph (resources : list OCIResource)
  : pydict (list string) :=
fold_left (add_dependencies (resource_map resources)) resources
  (fold_left (fun d resource => dict_set (name resource) [] d) resources []).

Record Dfs : Type := {
  visited : list string;
  temp_visited : list string;
  order : list string
}.

Definition circular (name : string) : Exception :=
ValueError ("Circular dependency detected for " +:+ name).

(** [for x in xs: body(x)], where an exception raised by the body ends the
    loop. [None] stands for a body that ran out of fuel. *)
Fixpoint for_each (body : string -> Dfs -> option (result Dfs))
  (xs : list string) (st : Dfs) : option (result Dfs) :=
match xs with
| [] => Some (Ok st)
| x :: xs' =>
    match body x st with
    | Some (Ok st') => for_each body xs' st'
    | other => other
    end
end.

(** The nested function [visit]. [None] is returned when the recursion is
    deeper than [fuel]. *)
Fixpoint visit (iter : list string -> list string)
  (graph : pydict (list string)) (fuel : nat) (name : string) (st : Dfs)
  : option (result Dfs) :=
match fuel with
| O => None
| S fuel' =>
    if bool_decide (name ∈ temp_visited st) then Some (Raise (circular name))
    else if bool_decide (name ∈ visited st) then Some (Ok st)
    else
      let st1 := {| visited := visited st;
                    temp_visited := name :: temp_visited st;
                    order := order st |} in
      match dict_get name graph with
      | None => Some (Raise (KeyError name))
      | Some deps =>
          match for_each (visit iter graph fuel') (iter deps) st1 with
          | Some (Ok st2) =>
              Some (Ok {| visited := name :: visited st2;
                          temp_visited :=
                            filter (fun x => x <> name) (temp_visited st2);
                          order := order st2 ++ [name] |})
          | other => other
          end
      end
end.

(** [if name not in visited: visit(name)] *)
Definition visit_root (iter : list string -> list string)
  (graph : pydict (list string)) (fuel : nat) (name : string) (st : Dfs)
  : option (result Dfs) :=
if bool_decide (name ∈ visited st) then Some (Ok st)
else visit iter graph fuel name st.

(** [for name in dependency_graph: if name not in visited: visit(name)] *)
Definition visit_all (iter : list string -> list string)
  (graph : pydict (list string)) (fuel : nat) (names : list string) (st : Dfs)
  : option (result Dfs) :=
for_each (visit_root iter graph fuel) names st.

(** [visited = set(); temp_visited = set(); order = []] *)
Definition dfs_start : Dfs :=
{| visited := []; temp_visited := []; order := [] |}.

(** [[resource_map[name] for name in names]] *)
Fixpoint lookup_all (rmap : pydict OCIResource) (names : list string)
  : result (list OCIResource) :=
match names with
| [] => Ok []
| name :: rest =>
    match dict_get name rmap with
    | None => Raise (KeyError name)
    | Some resource =>
        match lookup_all rmap rest with
        | Ok resources => Ok (resource :: resources)
        | Raise e => Raise e
        end
    end
end.

(** The body of [_sort_resources_by_dependencies], for a given iteration
    order of the dependency sets. The recursion of [visit] is never deeper
    than the number of names, so that much fuel, plus one for the outermost
    call, is all it can use. *)
Definition sort_with (iter : list string -> list string)
  (resources : list OCIResource) : option (result (list OCIResource)) :=
let rmap := resource_map resources in
let graph := dependency_graph resources in
match visit_all iter graph (S (length graph)) (dict_keys graph) dfs_start with
| Some (Ok st) => Some (lookup_all rmap (rev (order st)))
| Some (Raise e) => Some (Raise e)
| None => None
end.

Definition _sort_resources_by_dependencies (env : Env)
  (resources : list OCIResource) : option (result (list OCIResource)) :=
sort_with (set_iter env) resources.

(** The dependency edges of a batch that take part in the ordering: [a]
    names [b] among its dependencies and [b] is the name of a resource of
    the batch. *)
Definition depends_on (batch : list OCIResource) (a b : string) : Prop :=
exists r deps,
  r ∈ batch /\ name r = a /\ dependencies r = Some deps /\ b ∈ deps /\
  b ∈ map name batch.

Definition cyclic (batch : list OCIResource) : Prop :=
exists x, tc (depends_on batch) x x.

(** The edges of a dependency graph. *)
Definition edge (graph : pydict (list string)) (a b : string) : Prop :=
exists deps, dict_get a graph = Some deps /\ b ∈ deps.

(** In [l] every name comes after all the names it has an edge to. *)
Definition topo (graph : pydict (list string)) (l : list string) : Prop :=
forall l1 a l2 b, l = l1 ++ a :: l2 -> edge graph a b -> b ∈ l1.

(** What the traversal maintains: the visited names are those of [order],
    [order] respects the edges, no name on the recursion stack has been
    finished, and no name is finished twice. *)
Definition dfs_inv (graph : pydict (list string)) (st : Dfs) : Prop :=
(forall x, x ∈ visited st <-> x ∈ order st) /\
topo graph (order st) /\
(forall x, x ∈ temp_visited st -> x ∉ visited st) /\
NoDup (order st).

(** No dependency set of the batch has more than one element, so the sets
    can be iterated in one order only. *)
Definition small_sets (batch : list OCIResource) : bool :=
forallb (fun kv => Nat.leb (length (snd kv)) 1) (dependency_graph batch).

(** *** Provisioning of one resource *)

Definition remove_char (c : ascii) (s : string) : string :=
string_of_list_ascii
  (filter (fun x => x ≠ c) (list_ascii_of_string s)).

Definition _provision_compute_instance (env : Env) (resource : OCIResource)
  (ocid : string) (tick : nat) : ProvisionedResource * nat :=
let shape := dict_get_default "shape" (PStr "VM.Standard.E4.Flex")
               (specifications resource) in
let ocpus := dict_get_default "ocpus" (PInt 1) (specifications resource) in
let memory_in_gbs :=
  dict_get_default "memory_in_gbs" (PInt 8) (specifications resource) in
({| p_resource_type := resource_type resource;
    p_name := name resource;
    ocid := ocid;
    p_status := ACTIVE;
    details :=
      [("shape", shape); ("ocpus", ocpus); ("memory_in_gbs", memory_in_gbs);
       ("availability_domain", PStr "AD-1");
       ("fault_domain", PStr "FAULT-DOMAIN-1");
       ("time_created", PStr (now_isoformat env tick 0))];
    access_info :=
      Some [("public_ip",
             PStr ("10.0.0." +:+ pretty (uuid4_int env (tick + 1) `mod` 255)%Z));
            ("private_ip",
             PStr ("192.168.0."
                   +:+ pretty (uuid4_int env (tick + 2) `mod` 255)%Z));
            ("hostname", PStr (lower (name resource) +:+ ".example.com"))] |},
 tick + 3).

Definition _provision_network (env : Env) (resource : OCIResource)
  (ocid : string) (tick : nat) : ProvisionedResource * nat :=
let vcn_cidr := dict_get_default "vcn_cidr" (PStr "10.0.0.0/16")
                  (specifications resource) in
let subnet_cidr := dict_get_default "subnet_cidr" (PStr "10.0.0.0/24")
                     (specifications resource) in
({| p_resource_type := resource_type resource;
    p_name := name resource;
    ocid := ocid;
    p_status := ACTIVE;
    details :=
      [("vcn_cidr", vcn_cidr); ("subnet_cidr", subnet_cidr);
       ("dns_label", PStr (remove_char "-" (lower (name resource))));
       ("time_created", PStr (now_isoformat env tick 0))];
    access_info :=
      Some [("vcn_domain_name",
             PStr (remove_char "-" (lower (name resource))
                   +:+ ".oraclevcn.com"))] |},
 tick + 1).

Definition _provision_database (env : Env) (resource : OCIResource)
  (ocid : string) (tick : nat) : ProvisionedResource * nat :=
let db_type := dict_get_default "type" (PStr "autonomous")
                 (specifications resource) in
let workload_type := dict_get_default "workload_type" (PStr "OLTP")
                       (specifications resource) in
let storage_in_tbs := dict_get_default "storage_in_tbs" (PInt 1)
                        (specifications resource) in
({| p_resource_type := resource_type resource;
    p_name := name resource;
    ocid := ocid;
    p_status := ACTIVE;
    details :=
      [("db_type", db_type); ("workload_type", workload_type);
       ("storage_in_tbs", storage_in_tbs);
       ("time_created", PStr (now_isoformat env tick 0))];
    access_info :=
      Some [("connection_string",
             PStr (lower (name resource) +:+ ".adb." +:+ region env
                   +:+ ".oraclecloudapps.com"));
            ("admin_username", PStr "ADMIN")] |},
 tick + 1).

Definition _provision_storage (env : Env) (resource : OCIResource)
  (ocid : string) (tick : nat) : ProvisionedResource * nat :=
let size_in_gbs := dict_get_default "size_in_gbs" (PInt 50)
                     (specifications resource) in
({| p_resource_type := resource_type resource;
    p_name := name resource;
    ocid := ocid;
    p_status := ACTIVE;
    details :=
      [("size_in_gbs", size_in_gbs);
       ("vpus_per_gb",
        dict_get_default "vpus_per_gb" (PInt 10) (specifications resource));
       ("time_created", PStr (now_isoformat env tick 0))];
    access_info :=
      Some [("iqn",
             PStr ("iqn.2015-12.com.oracleiaas:" +:+ uuid4_hex env (tick + 1)));
            ("attachment_type", PStr "paravirtualized")] |},
 tick + 2).

Definition _provision_load_balancer (env : Env) (resource : OCIResource)
  (ocid : string) (tick : nat) : ProvisionedResource * nat :=
let shape := dict_get_default "shape" (PStr "flexible")
               (specifications resource) in
let min_bandwidth_mbps := dict_get_default "min_bandwidth_mbps" (PInt 10)
                            (specifications resource) in
let max_bandwidth_mbps := dict_get_default "max_bandwidth_mbps" (PInt 100)
                            (specifications resource) in
({| p_resource_type := resource_type resource;
    p_name := name resource;
    ocid := ocid;
    p_status := ACTIVE;
    details :=
      [("shape", shape); ("min_bandwidth_mbps", min_bandwidth_mbps);
       ("max_bandwidth_mbps", max_bandwidth_mbps);
       ("time_created", PStr (now_isoformat env tick 0))];
    access_info :=
      Some [("ip_address",
             PStr ("10.0.0." +:+ pretty (uuid4_int env (tick + 1) `mod` 255)%Z));
            ("hostname", PStr (lower (name resource) +:+ ".example.com"))] |},
 tick + 2).

Definition _provision_resource (env : Env) (resource : OCIResource)
  (tick : nat) : result ProvisionedResource * nat :=
(* Generate a mock OCID *)
let ocid := "ocid1." +:+ lower (ResourceType_value (resource_type resource))
            +:+ ".oc1..aaaaaaaa" +:+ uuid4_hex env tick in
let tick := tick + 1 in
let done (r : ProvisionedResource * nat) := (Ok (fst r), snd r) in
(* Provision based on resource type *)
match resource_type resource with
| COMPUTE => done (_provision_compute_instance env resource ocid tick)
| NETWORK => done (_provision_network env resource ocid tick)
| DATABASE => done (_provision_database env resource ocid tick)
| STORAGE => done (_provision_storage env resource ocid tick)
| LOAD_BALANCER => done (_provision_load_balancer env resource ocid tick)
| KUBERNETES =>
    (Raise (ValueError ("Unsupported resource type: "
                        +:+ ResourceType_format env (resource_type resource))),
     tick)
end.

(** *** Requests *)

(** An entry of a request's ["resources"] list: the keys [name], [type],
    [status], and [ocid] after a success or [error] after a failure. *)
Record Outcome : Type := {
  o_name : string;
  o_type : ResourceType;
  o_status : ResourceStatus;
  o_ocid : option string;
  o_error : option string
}.

Record RequestState : Type := {
  status : string;
  started_at : string;
  estimated_completion : string;
  resources : list Outcome;
  progress : Q
}.

Definition set_progress (p : Q) (st : RequestState) : RequestState :=
{| status := status st; started_at := started_at st;
   estimated_completion := estimated_completion st;
   resources := resources st; progress := p |}.

Definition set_status (s : string) (st : RequestState) : RequestState :=
{| status := s; started_at := started_at st;
   estimated_completion := estimated_completion st;
   resources := resources st; progress := progress st |}.

Definition append_outcome (o : Outcome) (st : RequestState) : RequestState :=
{| status := status st; started_at := started_at st;
   estimated_completion := estimated_completion st;
   resources := resources st ++ [o]; progress := progress st |}.

Definition success_outcome (provisioned : ProvisionedResource) : Outcome :=
{| o_name := p_name provisioned; o_type := p_resource_type provisioned;
   o_status := p_status provisioned; o_ocid := Some (ocid provisioned);
   o_error := None |}.

Definition failure_outcome (resource : OCIResource) (e : Exception) : Outcome :=
{| o_name := name resource; o_type := resource_type resource;
   o_status := FAILED; o_ocid := None; o_error := Some (Exception_str e) |}.

(** The variables of the loop of [provision_resources]. *)
Record Loop : Type := {
  requests : gmap string RequestState;      (* self.provisioning_requests *)
  provisioned_resources : list ProvisionedResource;
  clock : nat
}.

Definition progress_percentage (i total_resources : nat) : Q :=
(inject_Z (Z.of_nat i) / inject_Z (Z.of_nat total_resources)) * 100.

(** One iteration. The entry of [request_id] exists from the start of
    [provision_resources] on, so the subscripts below find it. *)
Definition loop_body (env : Env) (request_id : string) (total_resources : nat)
  (l : Loop) (item : nat * OCIResource) : Loop :=
let '(i, resource) := item in
(* Update progress *)
let requests1 :=
  alter (set_progress (progress_percentage i total_resources)) request_id
    (requests l) in
(* Provision resource based on type *)
match _provision_resource env resource (clock l) with
| (Ok provisioned, clock') =>
    {| requests := alter (append_outcome (success_outcome provisioned))
                     request_id requests1;
       provisioned_resources := provisioned_resources l ++ [provisioned];
       clock := clock' |}
| (Raise e, clock') =>
    {| requests := alter (append_outcome (failure_outcome resource e))
                     request_id requests1;
       provisioned_resources := provisioned_resources l;
       clock := clock' |}
end.

(** [enumerate(l)] *)
Definition enumerate {A} (l : list A) : list (nat * A) :=
zip (seq 0 (length l)) l.

(** The entry of a request that is seen for the first time. *)
Definition new_request (env : Env) (tick : nat) : RequestState :=
{| status := "in_progress";
   started_at := now_isoformat env tick 0;
   estimated_completion := now_isoformat env (tick + 1) 15;
   resources := [];
   progress := 0 |}.

(** Initialize provisioning request *)
Definition init_request (env : Env) (request_id : string)
  (reqs : gmap string RequestState) (tick : nat)
  : gmap string RequestState * nat :=
match reqs !! request_id with
| Some _ => (reqs, tick)
| None => (<[request_id := new_request env tick]> reqs, tick + 2)
end.

Definition run_loop (env : Env) (request_id : string)
  (sorted_resources : list OCIResource) (reqs : gmap string RequestState)
  (tick : nat) : Loop :=
fold_left (loop_body env request_id (length sorted_resources))
  (enumerate sorted_resources)
  {| requests := reqs; provisioned_resources := []; clock := tick |}.

(** Update final status *)
Definition finish (request_id : string) (reqs : gmap string RequestState)
  : gmap string RequestState :=
alter (set_progress 100) request_id
  (alter (set_status "completed") request_id reqs).

(** [provision_resources] returns its result together with the store and the
    clock it leaves behind. *)
Definition provision_resources (env : Env) (reqs : gmap string RequestState)
  (request_id : string) (batch : list OCIResource) (tick : nat)
  : option (result (list ProvisionedResource)
            * gmap string RequestState * nat) :=
let '(reqs0, tick0) := init_request env request_id reqs tick in
match _sort_resources_by_dependencies env batch with
| None => None
| Some (Raise e) => Some (Raise e, reqs0, tick0)
| Some (Ok sorted_resources) =>
    let l := run_loop env request_id sorted_resources reqs0 tick0 in
    Some (Ok (provisioned_resources l), finish request_id (requests l), clock l)
end.

(** The attempts of a call, in the order of the sorted batch: each resource
    with what [_provision_resource] returned or raised for it. *)
Fixpoint attempts (env : Env) (sorted_resources : list OCIResource)
  (tick : nat) : list (OCIResource * result ProvisionedResource) :=
match sorted_resources with
| [] => []
| resource :: rest =>
    let '(res, tick') := _provision_resource env resource tick in
    (resource, res) :: attempts env rest tick'
end.

Fixpoint clock_after (env : Env) (sorted_resources : list OCIResource)
  (tick : nat) : nat :=
match sorted_resources with
| [] => tick
| resource :: rest =>
    clock_after env rest (snd (_provision_resource env resource tick))
end.

Definition outcome_of (attempt : OCIResource * result ProvisionedResource)
  : Outcome :=
match snd attempt with
| Ok provisioned => success_outcome provisioned
| Raise e => failure_outcome (fst attempt) e
end.

Definition succeeded (attempt : OCIResource * result ProvisionedResource)
  : option ProvisionedResource :=
match snd attempt with
| Ok provisioned => Some provisioned
| Raise _ => None
end.

(** The kinds [_provision_resource] has a handler for. *)
Definition supported (resource : OCIResource) : bool :=
match resource_type resource with
| KUBERNETES => false
| _ => true
end.

(** The entry [st] after [extra] was appended to its outcomes and its
    progress set to [p]. *)
Definition with_outcomes (st : RequestState) (extra : list Outcome) (p : Q)
  : RequestState :=
{| status := status st; started_at := started_at st;
   estimated_completion := estimated_completion st;
   resources := resources st ++ extra; progress := p |}.

(** The entry [st] at the end of a call that appended [extra]. *)
Definition completed (st : RequestState) (extra : list Outcome)
  : RequestState :=
{| status := "completed"; started_at := started_at st;
   estimated_completion := estimated_completion st;
   resources := resources st ++ extra; progress := 100 |}.

(** What the stored outcome of a resource has to look like. *)
Definition records (env : Env) (resource : OCIResource) (o : Outcome) : Prop :=
o_name o = name resource /\ o_type o = resource_type resource /\
if supported resource
then o_status o = ACTIVE /\ is_Some (o_ocid o) /\ o_error o = None
else o_status o = FAILED /\ o_ocid o = None /\
     o_error o = Some ("Unsupported resource type: "
                       +:+ ResourceType_format env (resource_type resource)).

(** The states of a loop after each of its iterations. *)
Fixpoint scan_left {A B} (f : A -> B -> A) (l : list B) (a : A) : list A :=
match l with
| [] => []
| b :: l' => f a b :: scan_left f l' (f a b)
end.

(** The values assigned to the progress field of [request_id] during the
    call [provision_resources env reqs request_id batch tick], in the order
    of the assignments: 0.0 if the call creates the entry; then, if the
    batch can be ordered, one value per iteration (an iteration assigns the
    field once, so this is the field of the store the iteration leaves) and
    100.0 at the end. *)
Definition progress_writes (env : Env) (reqs : gmap string RequestState)
  (request_id : string) (batch : list OCIResource) (tick : nat) : list Q :=
let '(reqs0, tick0) := init_request env request_id reqs tick in
let created :=
  match reqs !! request_id with
  | None => option_list (progress <$> reqs0 !! request_id)
  | Some _ => []
  end in
match _sort_resources_by_dependencies env batch with
| Some (Ok sorted_resources) =>
    let stores :=
      map requests
        (scan_left (loop_body env request_id (length sorted_resources))
           (enumerate sorted_resources)
           {| requests := reqs0; provisioned_resources := [];
              clock := tick0 |})
      ++ [finish request_id
            (requests
               (run_loop env request_id sorted_resources reqs0 tick0))] in
    created ++ omap (fun store => progress <$> store !! request_id) stores
| _ => created
end.

Record StatusResponse : Type := {
  s_request_id : string;
  s_status : string;
  s_message : option string;
  s_progress : Q;
  s_resources : list Outcome;
  s_started_at : option string;
  s_estimated_completion : option string
}.

Definition not_found (request_id : string) : StatusResponse :=
{| s_request_id := request_id;
   s_status := "not_found";
   s_message :=
     Some ("No provisioning request found with ID " +:+ request_id);
   s_progress := 0;
   s_resources := [];
   s_started_at := None;
   s_estimated_completion := None |}.

Definition get_provisioning_status (reqs : gmap string RequestState)
  (request_id : string) : StatusResponse :=
match reqs !! request_id with
| None => not_found request_id
| Some st =>
    {| s_request_id := request_id;
       s_status := status st;
       s_message := None;
       s_progress := progress st;
       s_resources := resources st;
       s_started_at := Some (started_at st);
       s_estimated_completion := Some (estimated_completion st) |}
end.

(** The outcome carries an identifier. *)
Definition has_ocid (o : Outcome) : bool :=
match o_ocid o with Some _ => true | None => false end.

End Provisioner.

(** ** The provisioning routes of [src/api/router.py]

    The construction of the OCI client inside [ResourceProvisioner()] is
    taken to succeed. *)

Module Router.
Import Schemas.

Record ProvisioningConfirmation : Type := {
  request_id : string;
  confirmed_resources : list OCIResource;
  user_id : option string;
  priority : option string
}.

Record ProvisioningResponse : Type := {
  r_request_id : string;
  r_status : string;
  r_provisioned_resources : list ProvisionedResource;
  r_message : string
}.

(** A handler returns its response or raises [HTTPException]. *)
Inductive http (A : Type) : Type :=
| Respond (a : A)
| HTTPException (status_code : Z) (detail : string).
Arguments Respond {A} a.
Arguments HTTPException {A} status_code detail.

(** [ResourceProvisioner()]: every call of the constructor starts from an
    empty [provisioning_requests]. *)
Definition ResourceProvisioner : gmap string Provisioner.RequestState := ∅.

(** POST /provision *)
Definition provision_resources (env : Provisioner.Env)
  (confirmation : ProvisioningConfirmation) (tick : nat)
  : option (http ProvisioningResponse * nat) :=
let provisioner := ResourceProvisioner in
match Provisioner.provision_resources env provisioner
        (request_id confirmation) (confirmed_resources confirmation) tick with
| None => None
| Some (Ok result, _, tick') =>
    Some (Respond {| r_request_id := request_id confirmation;
                     r_status := "success";
                     r_provisioned_resources := result;
                     r_message := "Resources provisioned successfully" |},
          tick')
| Some (Raise e, _, tick') =>
    Some (HTTPException 500
            ("Error provisioning resources: " +:+ Exception_str e),
          tick')
end.

(** GET /status/{request_id} *)
Definition get_provisioning_status (request_id : string)
  : http Provisioner.StatusResponse :=
let provisioner := ResourceProvisioner in
Respond (Provisioner.get_provisioning_status provisioner request_id).

Record ChatbotRequest : Type := {
  c_request_id : string;
  conversation_context : list ConversationMessage;
  user_preferences : option (pydict pyval);
  existing_resources : option (pydict pyval)
}.

Record ResourceRecommendation : Type := {
  rr_request_id : string;
  recommendations : list OCIResource;
  reasoning : option string;
  rr_message : string
}.

(** POST /analyze *)
Definition analyze_requirements (request : ChatbotRequest)
  : http ResourceRecommendation :=
match Analyzer.analyze_requirements (conversation_context request) with
| Ok recommended =>
    Respond {| rr_request_id := c_request_id request;
               recommendations := recommended;
               reasoning := None;
               rr_message := "Resource analysis completed successfully" |}
| Raise e =>
    HTTPException 500 ("Error analyzing requirements: " +:+ Exception_str e)
end.

End Router.

(** ** Inputs of the concrete scenarios *)

Module Scenarios.
Import Schemas.

Definition user_says (text : string) : ConversationMessage :=
{| role := "user"; content := text; timestamp := None |}.

Definition assistant_says (text : string) : ConversationMessage :=
{| role := "assistant"; content := text; timestamp := None |}.

(** The conversation of [test_extract_information_ecommerce]. *)
Definition ecommerce_conversation : list ConversationMessage :=
[ user_says "I want to set up an e-commerce store with a database. I expect moderate traffic.";
  assistant_says "I can help you with that. What kind of products will you be selling?";
  user_says "Clothing and accessories. I'll need about 500GB of storage." ].

Definition simple_blog_conversation : list ConversationMessage :=
[ user_says "I want a simple blog" ].

Definition simple_site_conversation : list ConversationMessage :=
[ user_says "We need a Simple  SITE for the club" ].

Definition ecommerce_high_traffic : Analyzer.ExtractedInfo :=
{| Analyzer.website_type := Some "ecommerce";
   Analyzer.expected_traffic := Some "high";
   Analyzer.database_needs := Some "relational";
   Analyzer.storage_requirements := None;
   Analyzer.performance_requirements := None;
   Analyzer.budget_constraints := None;
   Analyzer.security_requirements := None;
   Analyzer.availability_requirements := None;
   Analyzer.scaling_needs := None;
   Analyzer.region_preferences := None |}.

Definition resource (kind : ResourceType) (n : string)
  (deps : option (list string)) : OCIResource :=
{| resource_type := kind; name := n; description := None;
   specifications := []; estimated_cost := None; dependencies := deps |}.

(** A, B depending on A, C depending on B, D depending on C. *)
Definition chain_batch : list OCIResource :=
[ resource COMPUTE "A" None;
  resource COMPUTE "B" (Some ["A"]);
  resource COMPUTE "C" (Some ["B"]);
  resource COMPUTE "D" (Some ["C"]) ].

(** X depending on Y and Y depending on X. *)
Definition cycle_batch : list OCIResource :=
[ resource COMPUTE "X" (Some ["Y"]);
  resource COMPUTE "Y" (Some ["X"]) ].

(** Three independent resources, the second of a kind without handler. *)
Definition mixed_batch : list OCIResource :=
[ resource COMPUTE "web" None;
  resource KUBERNETES "cluster" None;
  resource STORAGE "disk" None ].

Definition single_batch : list OCIResource :=
[ resource COMPUTE "web" None ].

(** An environment with a fixed clock and fixed identifiers. *)
Definition fixed_env : Provisioner.Env :=
{| Provisioner.uuid4_hex := fun _ => "0123456789abcdef0123456789abcdef";
   Provisioner.uuid4_int := fun k => Z.of_nat k;
   Provisioner.now_isoformat := fun _ _ => "2023-10-25T12:34:56";
   Provisioner.region := "us-ashburn-1";
   Provisioner.ResourceType_format := ResourceType_qualified;
   Provisioner.set_iter := fun elements => elements;
   Provisioner.set_iter_perm := fun elements => Permutation_refl elements |}.

(** The same request in two spellings. *)
Definition shouted_conversation : list ConversationMessage :=
[ user_says "I need a STATIC Website with 2 TB of storage and a budget of $500" ].

Definition quiet_conversation : list ConversationMessage :=
[ user_says "i need a static website with 2 tb of storage and a budget of $500" ].

Definition nosql_conversation : list ConversationMessage :=
[ user_says "We want a NoSQL database for the catalogue" ].

Definition europe_conversation : list ConversationMessage :=
[ user_says "Most of our users are in Europe and that is where it should run" ].

(** A number and its unit, one message after the other. *)
Definition terabyte_conversation : list ConversationMessage :=
[ user_says "The archive holds about ";
  user_says "12  TB of scans" ].

(** Messages without a letter or a digit. *)
Definition silent_conversation : list ConversationMessage :=
[ user_says ""; assistant_says "..."; user_says "?!" ].

Definition static_high_traffic : Analyzer.ExtractedInfo :=
{| Analyzer.website_type := Some "static";
   Analyzer.expected_traffic := Some "high";
   Analyzer.database_needs := None;
   Analyzer.storage_requirements := Some 500%Z;
   Analyzer.performance_requirements := None;
   Analyzer.budget_constraints := None;
   Analyzer.security_requirements := None;
   Analyzer.availability_requirements := None;
   Analyzer.scaling_needs := None;
   Analyzer.region_preferences := None |}.

(** The same signals with a budget, high availability, scaling and a region
    on top. *)
Definition static_high_traffic_on_budget : Analyzer.ExtractedInfo :=
{| Analyzer.website_type := Some "static";
   Analyzer.expected_traffic := Some "high";
   Analyzer.database_needs := None;
   Analyzer.storage_requirements := Some 500%Z;
   Analyzer.performance_requirements := None;
   Analyzer.budget_constraints := Some 20%Z;
   Analyzer.security_requirements := None;
   Analyzer.availability_requirements := Some "high";
   Analyzer.scaling_needs := Some "required";
   Analyzer.region_preferences := Some "eu" |}.

(** Two resources without a dependency on each other; the first names a
    dependency that is not in the batch. *)
Definition dangling_batch : list OCIResource :=
[ resource COMPUTE "web" (Some ["vcn"]);
  resource STORAGE "disk" None ].

(** Two resources with the same name, and a third. *)
Definition twin_batch : list OCIResource :=
[ resource COMPUTE "web" None;
  resource STORAGE "web" None;
  resource NETWORK "vcn" None ].


(** Two resources of the kind without handler, one depending on the other. *)
Definition cluster_batch : list OCIResource :=
[ resource KUBERNETES "blue" None;
  resource KUBERNETES "green" (Some ["blue"]) ].


(** An environment that iterates every set in the opposite order. *)
Definition reversing_env : Provisioner.Env :=
{| Provisioner.uuid4_hex := fun _ => "0123456789abcdef0123456789abcdef";
   Provisioner.uuid4_int := fun k => Z.of_nat k;
   Provisioner.now_isoformat := fun _ _ => "2023-10-25T12:34:56";
   Provisioner.region := "us-ashburn-1";
   Provisioner.ResourceType_format := ResourceType_qualified;
   Provisioner.set_iter := @rev string;
   Provisioner.set_iter_perm :=
     fun elements => Permutation_sym (Permutation_rev elements) |}.

(** A store in which "req-1" was started and has one outcome. *)
Definition started_store : gmap string Provisioner.RequestState :=
<["req-1" :=
    Provisioner.append_outcome
      {| Provisioner.o_name := "vcn"; Provisioner.o_type := NETWORK;
         Provisioner.o_status := ACTIVE;
         Provisioner.o_ocid := Some "ocid1.network.oc1..aaaaaaaa0";
         Provisioner.o_error := None |}
      (Provisioner.new_request fixed_env 0)]> ∅.


Definition cluster_confirmation : Router.ProvisioningConfirmation :=
{| Router.request_id := "req-8";
   Router.confirmed_resources := cluster_batch;
   Router.user_id := None; Router.priority := None |}.

End Scenarios.

(** * Properties *)

(** ** The matcher finds exactly the occurrences of a pattern *)

Module PyReFacts.
Import PyRe.

Lemma many_fallback a s cs (k : kont) :
  is_Some (k s cs) -> is_Some (many a s cs k).
Proof.
  intros Hk. destruct s as [|c s]; simpl; [exact Hk|].
  destruct (atom_ok a c); [|exact Hk].
  destruct (many a s cs k); [eauto|exact Hk].
Qed.

Lemma rmatch_complete r s1 :
  Matches r s1 ->
  forall s2 cs (k : kont),
    (forall cs', is_Some (k s2 cs')) -> is_Some (rmatch r (s1 ++ s2) cs k).
Proof.
  induction 1 as [ | a c Hc | a | a c s Hc _ IH | a c s Hc _ IH | r
                 | r s _ IH | r1 r2 s1 s2' _ IH1 _ IH2 | r1 r2 s _ IH
                 | r1 r2 s _ IH | n r s _ IH ];
    intros s2 cs k Hk; simpl.
  - apply Hk.
  - rewrite Hc. apply Hk.
  - apply many_fallback, Hk.
  - rewrite Hc. specialize (IH s2 cs k Hk). simpl in IH.
    destruct IH as [res ->]. eauto.
  - rewrite Hc. apply (IH s2 cs k Hk).
  - destruct (rmatch r s2 cs k); [eauto|apply Hk].
  - destruct (IH s2 cs k Hk) as [res ->]. eauto.
  - rewrite <- app_assoc. apply IH1. intros cs'. apply IH2, Hk.
  - destruct (IH s2 cs k Hk) as [res ->]. eauto.
  - destruct (rmatch r1 (s ++ s2) cs k); [eauto|apply IH, Hk].
  - apply IH. intros cs'. apply Hk.
Qed.

Lemma search_chars_complete r pre m post :
  Matches r m -> is_Some (search_chars r (pre ++ m ++ post)).
Proof.
  intros Hm. induction pre as [|c pre IH]; simpl.
  - destruct (rmatch_complete r m Hm post [] (fun _ cs => Some cs)) as [res Hres];
      [eauto|].
    destruct (m ++ post); simpl in *; rewrite Hres; eauto.
  - destruct (rmatch r (c :: pre ++ m ++ post) [] _); [eauto|exact IH].
Qed.

Lemma many_sound a s cs (k : kont) res :
  many a s cs k = Some res ->
  exists s1 s2, s = s1 ++ s2 /\ Matches (Many a) s1 /\ k s2 cs = Some res.
Proof.
  induction s as [|c s IH]; simpl; intros H.
  - exists [], []. repeat split; [constructor|exact H].
  - destruct (atom_ok a c) eqn:Hc.
    + destruct (many a s cs k) as [res'|] eqn:Hm.
      * destruct (IH H) as (s1 & s2 & -> & Hs1 & Hk).
        exists (c :: s1), s2. repeat split; [by constructor|exact Hk].
      * exists [], (c :: s). repeat split; [constructor|exact H].
    + exists [], (c :: s). repeat split; [constructor|exact H].
Qed.

Lemma rmatch_sound r :
  forall s cs (k : kont) res,
    rmatch r s cs k = Some res ->
    exists s1 s2 cs', s = s1 ++ s2 /\ Matches r s1 /\ k s2 cs' = Some res.
Proof.
  induction r as [ | a | a | a | r IH | r1 IH1 r2 IH2 | r1 IH1 r2 IH2 | n r IH ];
    intros s cs k res H; simpl in H.
  - exists [], s, cs. repeat split; [constructor|exact H].
  - destruct s as [|c s]; [discriminate|].
    destruct (atom_ok a c) eqn:Hc; [|discriminate].
    exists [c], s, cs. repeat split; [by constructor|exact H].
  - destruct (many_sound _ _ _ _ _ H) as (s1 & s2 & -> & Hs1 & Hk). eauto 6.
  - destruct s as [|c s]; [discriminate|].
    destruct (atom_ok a c) eqn:Hc; [|discriminate].
    destruct (many_sound _ _ _ _ _ H) as (s1 & s2 & -> & Hs1 & Hk).
    exists (c :: s1), s2, cs. repeat split; [by constructor|exact Hk].
  - destruct (rmatch r s cs k) as [res'|] eqn:Hr.
    + destruct (IH _ _ _ _ Hr) as (s1 & s2 & cs' & -> & Hs1 & Hk).
      exists s1, s2, cs'. repeat split; [by constructor|congruence].
    + exists [], s, cs. repeat split; [constructor|exact H].
  - destruct (IH1 _ _ _ _ H) as (s1 & s2 & cs' & -> & Hs1 & Hk).
    destruct (IH2 _ _ _ _ Hk) as (s3 & s4 & cs'' & -> & Hs3 & Hk').
    exists (s1 ++ s3), s4, cs''.
    repeat split; [by rewrite app_assoc|by constructor|exact Hk'].
  - destruct (rmatch r1 s cs k) as [res'|] eqn:Hr.
    + destruct (IH1 _ _ _ _ Hr) as (s1 & s2 & cs' & -> & Hs1 & Hk).
      exists s1, s2, cs'. repeat split; [by apply MAltL|congruence].
    + destruct (IH2 _ _ _ _ H) as (s1 & s2 & cs' & -> & Hs1 & Hk).
      exists s1, s2, cs'. repeat split; [by apply MAltR|exact Hk].
  - destruct (IH _ _ _ _ H) as (s1 & s2 & cs' & -> & Hs1 & Hk).
    eexists s1, s2, _. repeat split; [by constructor|exact Hk].
Qed.

Lemma search_chars_sound r s res :
  search_chars r s = Some res ->
  exists pre m post, s = pre ++ m ++ post /\ Matches r m.
Proof.
  induction s as [|c s IH]; simpl.
  - destruct (rmatch r [] [] _) as [res'|] eqn:Hr; [|discriminate].
    intros _. destruct (rmatch_sound _ _ _ _ _ Hr) as (s1 & s2 & _ & E & Hs1 & _).
    exists [], s1, s2. eauto.
  - destruct (rmatch r (c :: s) [] _) as [res'|] eqn:Hr.
    + intros _.
      destruct (rmatch_sound _ _ _ _ _ Hr) as (s1 & s2 & _ & E & Hs1 & _).
      exists [], s1, s2. eauto.
    + intros H. destruct (IH H) as (pre & m & post & -> & Hm).
      exists (c :: pre), m, post. eauto.
Qed.

(** [re.search] succeeds exactly on the texts in which the pattern occurs. *)
Lemma search_iff r text : is_Some (search r text) <-> Occurs r text.
Proof.
  unfold search, Occurs. split.
  - intros [res H]. exact (search_chars_sound _ _ _ H).
  - intros (pre & m & post & -> & Hm). by apply search_chars_complete.
Qed.

Lemma search_None r text : search r text = None <-> ~ Occurs r text.
Proof.
  rewrite <- search_iff. split.
  - intros -> [? ?]. discriminate.
  - intros H. destruct (search r text); [destruct H; eauto|done].
Qed.

End PyReFacts.

(** ** The analyzer *)

Module AnalyzerFacts.
Import PyRe Schemas Analyzer Scenarios PyReFacts.

Lemma spells_word w : forall l, spells w l -> Matches (word w) l.
Proof.
  unfold spells. induction w as [|c w IH]; intros l H; simpl in *.
  - destruct l; [constructor|discriminate].
  - destruct l as [|x l]; [discriminate|]. injection H as Hx Hl.
    change (x :: l) with ([x] ++ l). constructor; [|by apply IH].
    constructor. simpl. by apply bool_decide_eq_true.
Qed.

Lemma blank_ws1 l : blank l -> Matches ws1 l.
Proof.
  intros [Hne Hall]. destruct l as [|c l]; [done|].
  inversion Hall as [|? ? Hc Hl]; subst. constructor; [exact Hc|].
  clear Hne Hall Hc. induction Hl; constructor; auto.
Qed.

Lemma first_match_hit r v rest text :
  Occurs r text -> first_match ((r, v) :: rest) text = Some v.
Proof.
  intros H. apply search_iff in H as [res H]. simpl. by rewrite H.
Qed.

Lemma first_match_miss r v rest text :
  ~ Occurs r text -> first_match ((r, v) :: rest) text = first_match rest text.
Proof. intros H. apply search_None in H. simpl. by rewrite H. Qed.

Lemma static_pattern_occurs text pre kw sp noun post :
  list_ascii_of_string text = pre ++ kw ++ sp ++ noun ++ post ->
  spells "static" kw \/ spells "simple" kw ->
  blank sp -> site_noun noun ->
  Occurs static_pattern text.
Proof.
  intros E Hkw Hsp Hnoun. exists pre, (kw ++ sp ++ noun), post. split.
  - rewrite E. by rewrite <- !app_assoc.
  - unfold static_pattern. cbn [seqs alts].
    constructor; [|constructor; [by apply blank_ws1|]].
    + constructor. destruct Hkw as [H|H].
      * apply MAltL. by apply spells_word.
      * apply MAltR. by apply spells_word.
    + constructor. destruct Hnoun as [H|[H|(web & sp' & page & -> & Hw & Hs & Hp)]].
      * apply MAltL. by apply spells_word.
      * apply MAltR, MAltL. by apply spells_word.
      * apply MAltR, MAltR.
        constructor; [by apply spells_word|].
        constructor; [by apply blank_ws1|by apply spells_word].
Qed.

(** C8 (amended). The website type is the value of the first of the five
    patterns, in the order static, dynamic, ecommerce, blog, api, that occurs
    in the combined text; the static pattern is "static" or "simple" followed
    by whitespace and "website", "site" or "web page", so every text with such
    an occurrence (whatever the case of the letters) is classified "static";
    a text in which none of the five patterns occurs leaves the field unset. *)
Theorem website_type_first_match conversation :
  let text := combined_text conversation in
  let w := website_type (_extract_information conversation) in
  (Occurs static_pattern text -> w = Some "static") /\
  (~ Occurs static_pattern text -> Occurs dynamic_pattern text ->
   w = Some "dynamic") /\
  (~ Occurs static_pattern text -> ~ Occurs dynamic_pattern text ->
   Occurs ecommerce_pattern text -> w = Some "ecommerce") /\
  (~ Occurs static_pattern text -> ~ Occurs dynamic_pattern text ->
   ~ Occurs ecommerce_pattern text -> Occurs blog_pattern text ->
   w = Some "blog") /\
  (~ Occurs static_pattern text -> ~ Occurs dynamic_pattern text ->
   ~ Occurs ecommerce_pattern text -> ~ Occurs blog_pattern text ->
   Occurs api_pattern text -> w = Some "api") /\
  (~ Occurs static_pattern text -> ~ Occurs dynamic_pattern text ->
   ~ Occurs ecommerce_pattern text -> ~ Occurs blog_pattern text ->
   ~ Occurs api_pattern text -> w = None) /\
  (forall pre kw sp noun post,
     list_ascii_of_string text = pre ++ kw ++ sp ++ noun ++ post ->
     spells "static" kw \/ spells "simple" kw ->
     blank sp -> site_noun noun ->
     w = Some "static").
Proof.
  intros text w. subst w. unfold _extract_information. cbn [website_type].
  fold text. unfold website_patterns.
  assert (Hstatic : Occurs static_pattern text ->
                    first_match
                      [(static_pattern, "static"); (dynamic_pattern, "dynamic");
                       (ecommerce_pattern, "ecommerce"); (blog_pattern, "blog");
                       (api_pattern, "api")] text = Some "static")
    by apply first_match_hit.
  repeat split.
  - exact Hstatic.
  - intros N1 H. rewrite first_match_miss by done. by apply first_match_hit.
  - intros N1 N2 H. rewrite !first_match_miss by done. by apply first_match_hit.
  - intros N1 N2 N3 H. rewrite !first_match_miss by done.
    by apply first_match_hit.
  - intros N1 N2 N3 N4 H. rewrite !first_match_miss by done.
    by apply first_match_hit.
  - intros N1 N2 N3 N4 N5. by rewrite !first_match_miss by done.
  - intros pre kw sp noun post E Hkw Hsp Hnoun. apply Hstatic.
    by eapply static_pattern_occurs.
Qed.

(** The amended rule at "We need a Simple  SITE for the club". *)
Lemma website_type_first_match_witness :
  website_type (_extract_information simple_site_conversation) = Some "static".
Proof.
  destruct (website_type_first_match simple_site_conversation)
    as (_ & _ & _ & _ & _ & _ & H).
  apply (H (list_ascii_of_string "We need a ")
           (list_ascii_of_string "Simple")
           (list_ascii_of_string "  ")
           (list_ascii_of_string "SITE")
           (list_ascii_of_string " for the club")).
  - reflexivity.
  - right. reflexivity.
  - split; [discriminate|]. repeat constructor.
  - right. left. reflexivity.
Defined.

(** C8 as stated fails: "I want a simple blog" contains "simple" and is
    classified "blog". *)
Lemma simple_blog_is_not_static :
  ~ (forall conversation,
       Occurs (word "static") (combined_text conversation) \/
       Occurs (word "simple") (combined_text conversation) ->
       website_type (_extract_information conversation) = Some "static").
Proof.
  intros H. specialize (H simple_blog_conversation).
  assert (Hocc : Occurs (word "simple") (combined_text simple_blog_conversation)).
  { apply search_iff. vm_compute. eauto. }
  specialize (H (or_intror Hocc)). vm_compute in H. discriminate.
Qed.

Lemma is_value_true field value :
  is_value field value = true <-> field = Some value.
Proof.
  destruct field as [s|]; simpl; [|split; discriminate].
  rewrite String.eqb_eq. split; congruence.
Qed.

Lemma is_value_Some value : is_value (Some value) value = true.
Proof. by apply is_value_true. Qed.

Lemma is_value_false field value :
  field <> Some value -> is_value field value = false.
Proof.
  intros H. destruct (is_value field value) eqn:E; [|done].
  by apply is_value_true in E.
Qed.

Local Open Scope Z_scope.

(** C6. With website_type "ecommerce" and traffic "high" the compute
    requirement has max(2,4) = 4 cores and max(16,32) = 32 GB, which is at
    least what a request with only one of the two signals gets, while the
    database requirement of any high-traffic request that asks for a database
    is set to exactly 2 cores and 2 TB. *)
Theorem compute_floor_database_overwrite info :
  website_type info = Some "ecommerce" ->
  expected_traffic info = Some "high" ->
  let c := _determine_compute_requirements info in
  (ocpus c = Z.max 2 4 /\ ocpus c = 4) /\
  (memory_in_gbs c = Z.max 16 32 /\ memory_in_gbs c = 32) /\
  (forall alone,
     (website_type alone = Some "ecommerce" /\
      expected_traffic alone <> Some "high") \/
     (expected_traffic alone = Some "high" /\
      website_type alone <> Some "ecommerce") ->
     ocpus (_determine_compute_requirements alone) <= ocpus c /\
     memory_in_gbs (_determine_compute_requirements alone)
     <= memory_in_gbs c) /\
  (forall any,
     expected_traffic any = Some "high" ->
     truthy_str (database_needs any) = true ->
     exists d, _determine_database_requirements any = Some d /\
               cpu_core_count d = 2 /\ storage_in_tbs d = 2).
Proof.
  intros Hw Ht c.
  assert (Hc : ocpus c = 4 /\ memory_in_gbs c = 32).
  { subst c. unfold _determine_compute_requirements. rewrite Hw, Ht.
    cbn. by destruct (is_value (scaling_needs info) "required"). }
  destruct Hc as [Ho Hm]. rewrite Ho, Hm.
  split; [done|]. split; [done|]. split.
  - intros alone [[Hw' Ht']|[Ht' Hw']]; unfold _determine_compute_requirements.
    + rewrite Hw'. cbn. rewrite (is_value_false _ _ Ht').
      destruct (is_value (scaling_needs alone) "required"); cbn; lia.
    + rewrite Ht', (is_value_false _ _ Hw'), is_value_Some.
      destruct (is_value (website_type alone) "static");
        destruct (is_value (scaling_needs alone) "required"); cbn; lia.
  - intros any Ht' Hdb. unfold _determine_database_requirements.
    rewrite Hdb, Ht', is_value_Some. cbn.
    destruct (is_value (database_needs any) "relational");
      [|destruct (is_value (database_needs any) "nosql")]; eauto.
Qed.

(** The sizing rules at an e-commerce site with high traffic and a
    relational database. *)
Lemma compute_floor_database_overwrite_witness :
  ocpus (_determine_compute_requirements ecommerce_high_traffic) = 4 /\
  memory_in_gbs (_determine_compute_requirements ecommerce_high_traffic) = 32 /\
  exists d, _determine_database_requirements ecommerce_high_traffic = Some d /\
            cpu_core_count d = 2 /\ storage_in_tbs d = 2.
Proof.
  destruct (compute_floor_database_overwrite ecommerce_high_traffic
              eq_refl eq_refl) as ([_ Ho] & [_ Hm] & _ & Hdb).
  split; [exact Ho|]. split; [exact Hm|].
  apply Hdb; reflexivity.
Defined.

(** C9. For the conversation about an e-commerce store with a database,
    moderate traffic and 500GB, extraction yields website_type "ecommerce",
    database kind "general", 500 GB and traffic "medium"; and every request
    with these four signals is recommended a "WebsiteDB" that depends on
    "WebsiteVCN" and a block volume of max(50,500) = 500 GB, which the
    e-commerce floor of 100 leaves as it is. *)
Theorem ecommerce_store_scenario :
  let info := _extract_information ecommerce_conversation in
  (website_type info = Some "ecommerce" /\
   database_needs info = Some "general" /\
   storage_requirements info = Some 500 /\
   expected_traffic info = Some "medium") /\
  (forall signals,
     website_type signals = Some "ecommerce" ->
     database_needs signals = Some "general" ->
     storage_requirements signals = Some 500 ->
     expected_traffic signals = Some "medium" ->
     exists batch db vol,
       _generate_recommendations (_determine_requirements signals) = Ok batch /\
       db ∈ batch /\ name db = "WebsiteDB" /\
       resource_type db = DATABASE /\
       (exists deps, dependencies db = Some deps /\ "WebsiteVCN" ∈ deps) /\
       vol ∈ batch /\ name vol = "WebsiteStorage" /\
       resource_type vol = STORAGE /\
       dict_get "size_in_gbs" (specifications vol)
       = Some (PInt (Z.max (Z.max 50 500) 100)) /\
       Z.max (Z.max 50 500) 100 = 500) /\
  (exists batch,
     analyze_requirements ecommerce_conversation = Ok batch /\
     map name batch
     = ["WebServer"; "WebsiteVCN"; "WebsiteDB"; "WebsiteStorage";
        "WebsiteBucket"]).
Proof.
  intros info. split; [|split].
  - subst info. vm_compute. done.
  - intros signals Hw Hd Hs Ht.
    unfold _determine_requirements, _generate_recommendations.
    cbn [compute network database storage].
    unfold _determine_network_requirements, _determine_compute_requirements,
      _determine_database_requirements, _determine_storage_requirements.
    rewrite Hw, Hd, Hs, Ht. cbn.
    destruct (is_value (scaling_needs signals) "required"); cbn;
      (eexists _, (db_resource _), (storage_resource _);
       split; [reflexivity|];
       repeat match goal with |- _ /\ _ => split end;
       first [ reflexivity
             | by repeat first [apply list_elem_of_here
                               |apply list_elem_of_further]
             | eexists; split; [reflexivity|apply list_elem_of_here] ]).
  - eexists. split; [vm_compute; reflexivity|reflexivity].
Qed.

(** The second part of the theorem at the signals of the conversation. *)
Lemma ecommerce_store_scenario_witness :
  exists batch db vol,
    analyze_requirements ecommerce_conversation = Ok batch /\
    db ∈ batch /\ name db = "WebsiteDB" /\ resource_type db = DATABASE /\
    (exists deps, dependencies db = Some deps /\ "WebsiteVCN" ∈ deps) /\
    vol ∈ batch /\ name vol = "WebsiteStorage" /\
    resource_type vol = STORAGE /\
    dict_get "size_in_gbs" (specifications vol) = Some (PInt 500).
Proof.
  destruct ecommerce_store_scenario as (_ & Hbatch & _).
  destruct (Hbatch (_extract_information ecommerce_conversation)
              eq_refl eq_refl eq_refl eq_refl)
    as (batch & db & vol & H1 & H2 & H3 & H4 & H5 & H6 & H7 & H8 & H9 & _).
  exists batch, db, vol. repeat split; assumption.
Defined.

Local Close Scope Z_scope.

End AnalyzerFacts.

(** ** Dictionaries in insertion order *)

Module DictFacts.
Import Schemas.

Section Dict.
Context {V : Type}.
Implicit Types (d : pydict V) (k : string).

Lemma dict_get_dict_set k k' v d :
  dict_get k (dict_set k' v d) = if decide (k = k') then Some v else dict_get k d.
Proof.
  induction d as [|[k0 v0] d IH]; simpl.
  - destruct (String.eqb_spec k' k); case_decide; congruence.
  - destruct (String.eqb_spec k0 k'); simpl.
    + destruct (String.eqb_spec k0 k); case_decide; congruence.
    + destruct (String.eqb_spec k0 k); [case_decide; congruence|apply IH].
Qed.

Lemma dict_get_dict_add k k' (f : V -> V) d :
  dict_get k (Provisioner.dict_add k' f d)
  = if decide (k = k') then f <$> dict_get k d else dict_get k d.
Proof.
  induction d as [|[k0 v0] d IH]; simpl.
  - by case_decide.
  - destruct (String.eqb_spec k0 k'); simpl.
    + destruct (String.eqb_spec k0 k); case_decide; simpl; congruence.
    + destruct (String.eqb_spec k0 k); [case_decide; congruence|apply IH].
Qed.

Lemma dict_keys_dict_add k (f : V -> V) d :
  dict_keys (Provisioner.dict_add k f d) = dict_keys d.
Proof.
  induction d as [|[k0 v0] d IH]; simpl; [done|].
  destruct (String.eqb k0 k); simpl; [done|]. f_equal. apply IH.
Qed.

Lemma dict_get_is_Some k d : is_Some (dict_get k d) <-> k ∈ dict_keys d.
Proof.
  induction d as [|[k0 v0] d IH]; simpl.
  - split; [intros [? ?]; discriminate|]. by intros ?%elem_of_nil.
  - rewrite elem_of_cons. destruct (String.eqb_spec k0 k).
    + split; [by left|eauto].
    + rewrite IH. split; [auto|]. intros [?|?]; [congruence|done].
Qed.

Lemma dict_mem_true k d : dict_mem k d = true <-> k ∈ dict_keys d.
Proof.
  rewrite <- dict_get_is_Some. unfold dict_mem.
  destruct (dict_get k d); split; eauto; try discriminate.
  intros [? ?]. discriminate.
Qed.

Lemma dict_keys_dict_set k v d :
  dict_keys (dict_set k v d)
  = if dict_mem k d then dict_keys d else dict_keys d ++ [k].
Proof.
  unfold dict_mem. induction d as [|[k0 v0] d IH]; simpl; [done|].
  destruct (String.eqb_spec k0 k); simpl; [done|].
  rewrite IH. by destruct (dict_get k d).
Qed.

Lemma elem_of_dict_keys_dict_set k k' v d :
  k ∈ dict_keys (dict_set k' v d) <-> k = k' \/ k ∈ dict_keys d.
Proof.
  rewrite dict_keys_dict_set. destruct (dict_mem k' d) eqn:E.
  - apply dict_mem_true in E. split; [auto|]. intros [->|?]; done.
  - rewrite elem_of_app, list_elem_of_singleton. tauto.
Qed.

Lemma NoDup_dict_keys_dict_set k v d :
  NoDup (dict_keys d) -> NoDup (dict_keys (dict_set k v d)).
Proof.
  intros H. rewrite dict_keys_dict_set. destruct (dict_mem k d) eqn:E; [done|].
  apply NoDup_app. split; [done|]. split; [|apply NoDup_singleton].
  intros x Hx ->%list_elem_of_singleton.
  apply dict_mem_true in Hx. congruence.
Qed.

(** A dictionary filled by one assignment per resource. *)
Lemma elem_of_keys_fold (f : OCIResource -> V) rs d k :
  k ∈ dict_keys (fold_left (fun d r => dict_set (name r) (f r) d) rs d)
  <-> k ∈ dict_keys d \/ k ∈ map name rs.
Proof.
  revert d. induction rs as [|r rs IH]; intros d; simpl.
  - rewrite elem_of_nil. tauto.
  - rewrite IH, elem_of_dict_keys_dict_set, elem_of_cons. tauto.
Qed.

Lemma NoDup_keys_fold (f : OCIResource -> V) rs d :
  NoDup (dict_keys d) ->
  NoDup (dict_keys (fold_left (fun d r => dict_set (name r) (f r) d) rs d)).
Proof.
  revert d. induction rs as [|r rs IH]; intros d H; simpl; [done|].
  by apply IH, NoDup_dict_keys_dict_set.
Qed.

Lemma dict_get_Forall (P : V -> Prop) k d v :
  Forall (fun kv => P (snd kv)) d -> dict_get k d = Some v -> P v.
Proof.
  induction 1 as [|[k0 v0] d H _ IH]; simpl; [discriminate|].
  destruct (String.eqb k0 k); [|exact IH]. by intros [= <-].
Qed.

End Dict.

End DictFacts.

(** ** The dependency graph of a batch *)

Module GraphFacts.
Import Schemas Provisioner DictFacts.

Lemma elem_of_set_add b d deps : b ∈ set_add d deps <-> b ∈ deps \/ b = d.
Proof.
  unfold set_add. case_bool_decide.
  - split; [auto|]. by intros [?| ->].
  - by rewrite elem_of_app, list_elem_of_singleton.
Qed.

Lemma edge_dict_add g k d a b :
  edge (dict_add k (set_add d) g) a b
  <-> edge g a b \/ (a = k /\ b = d /\ k ∈ dict_keys g).
Proof.
  unfold edge. split.
  - intros (deps & Hget & Hb). rewrite dict_get_dict_add in Hget.
    case_decide as E; [|left; eauto]. subst a.
    destruct (dict_get k g) as [deps0|] eqn:Hk; simpl in Hget; [|discriminate].
    injection Hget as <-. apply elem_of_set_add in Hb as [Hb| ->].
    + left. eauto.
    + right. repeat split. apply dict_get_is_Some. eauto.
  - intros [(deps & Hget & Hb)|(-> & -> & Hk)].
    + rewrite dict_get_dict_add. case_decide as E.
      * rewrite Hget. simpl. eexists. split; [done|].
        apply elem_of_set_add. auto.
      * eauto.
    + apply dict_get_is_Some in Hk as [deps Hk].
      rewrite dict_get_dict_add, decide_True, Hk by done. simpl.
      eexists. split; [done|]. apply elem_of_set_add. auto.
Qed.

Lemma keys_add_dependencies rmap g r :
  dict_keys (add_dependencies rmap g r) = dict_keys g.
Proof.
  unfold add_dependencies. destruct (dependencies r) as [deps|]; [|done].
  revert g. induction deps as [|d deps IH]; intros g; simpl; [done|].
  rewrite IH. destruct (dict_mem d rmap); [|done]. apply dict_keys_dict_add.
Qed.

Lemma edge_add_dependencies rmap g r a b :
  edge (add_dependencies rmap g r) a b
  <-> edge g a b \/
      (a = name r /\ name r ∈ dict_keys g /\
       exists deps, dependencies r = Some deps /\ b ∈ deps /\
                    dict_mem b rmap = true).
Proof.
  unfold add_dependencies. destruct (dependencies r) as [deps|].
  2:{ split; [auto|]. intros [?|(_ & _ & ? & ? & _)]; [done|discriminate]. }
  transitivity (edge g a b \/
                (a = name r /\ name r ∈ dict_keys g /\ b ∈ deps /\
                 dict_mem b rmap = true)).
  2:{ split; (intros [?|(? & ? & H)]; [by left|right]).
      - destruct H. eauto 6.
      - destruct H as (? & [= <-] & ? & ?). eauto. }
  revert g. induction deps as [|d deps IH]; intros g; simpl.
  - split; [auto|]. intros [?|(_ & _ & ?%elem_of_nil & _)]; done.
  - rewrite IH. destruct (dict_mem d rmap) eqn:Hd.
    + rewrite edge_dict_add, dict_keys_dict_add, elem_of_cons.
      split.
      * intros [[?|(-> & -> & ?)]|(? & ? & ? & ?)]; eauto 8.
      * intros [?|(-> & ? & [->|?] & ?)]; eauto 8.
    + rewrite elem_of_cons. split.
      * intros [?|(? & ? & ? & ?)]; eauto 8.
      * intros [?|(-> & ? & [->|?] & ?)]; eauto 8. congruence.
Qed.

Lemma keys_fold_add_dependencies rmap rs g :
  dict_keys (fold_left (add_dependencies rmap) rs g) = dict_keys g.
Proof.
  revert g. induction rs as [|r rs IH]; intros g; simpl; [done|].
  by rewrite IH, keys_add_dependencies.
Qed.

Lemma edge_fold_add_dependencies rmap rs g a b :
  edge (fold_left (add_dependencies rmap) rs g) a b
  <-> edge g a b \/
      exists r deps,
        r ∈ rs /\ name r = a /\ a ∈ dict_keys g /\
        dependencies r = Some deps /\ b ∈ deps /\ dict_mem b rmap = true.
Proof.
  revert g. induction rs as [|r rs IH]; intros g; simpl.
  - split; [auto|]. intros [?|(? & ? & ?%elem_of_nil & _)]; done.
  - rewrite IH, edge_add_dependencies, keys_add_dependencies. split.
    + intros [[?|(-> & ? & deps & ? & ? & ?)]|(r' & deps & ? & ? & ? & ?)].
      * by left.
      * right. exists r, deps. rewrite elem_of_cons. eauto 8.
      * right. exists r', deps. rewrite elem_of_cons. eauto 8.
    + intros [?|(r' & deps & [->|?]%elem_of_cons & <- & ? & ? & ? & ?)].
      * by do 2 left.
      * left. right. eauto 8.
      * right. eauto 10.
Qed.

Lemma dict_get_fold_nil (rs : list OCIResource) (d : pydict (list string)) k deps :
  (forall k v, dict_get k d = Some v -> v = []) ->
  dict_get k (fold_left (fun d r => dict_set (name r) [] d) rs d) = Some deps ->
  deps = [].
Proof.
  revert d. induction rs as [|r rs IH]; intros d Hd; simpl; [apply Hd|].
  apply IH. intros k' v. rewrite dict_get_dict_set.
  case_decide; [congruence|apply Hd].
Qed.

Lemma rmap_keys rs k : k ∈ dict_keys (resource_map rs) <-> k ∈ map name rs.
Proof.
  unfold resource_map.
  rewrite (elem_of_keys_fold (fun r => r)). simpl. rewrite elem_of_nil. tauto.
Qed.

Lemma graph_keys rs k : k ∈ dict_keys (dependency_graph rs) <-> k ∈ map name rs.
Proof.
  unfold dependency_graph. rewrite keys_fold_add_dependencies.
  rewrite (elem_of_keys_fold (fun _ => [])). simpl. rewrite elem_of_nil. tauto.
Qed.

Lemma graph_NoDup rs : NoDup (dict_keys (dependency_graph rs)).
Proof.
  unfold dependency_graph. rewrite keys_fold_add_dependencies.
  apply (NoDup_keys_fold (fun _ => [])). constructor.
Qed.

(** The edges of the graph the code builds are the in-batch dependencies. *)
Lemma graph_edge rs a b : edge (dependency_graph rs) a b <-> depends_on rs a b.
Proof.
  unfold dependency_graph. rewrite edge_fold_add_dependencies. split.
  - intros [(deps & Hget & Hb)|(r & deps & ? & ? & ? & ? & ? & Hm)].
    + apply dict_get_fold_nil in Hget as ->; [|discriminate].
      by apply elem_of_nil in Hb.
    + exists r, deps. repeat split; try done.
      by apply rmap_keys, dict_mem_true.
  - intros (r & deps & Hr & <- & Hd & Hb & Hn). right. exists r, deps.
    repeat split; try done.
    + apply (elem_of_keys_fold (fun _ => [])). right.
      apply list_elem_of_fmap. eauto.
    + by apply dict_mem_true, rmap_keys.
Qed.

Lemma graph_closed rs a deps b :
  dict_get a (dependency_graph rs) = Some deps -> b ∈ deps ->
  b ∈ dict_keys (dependency_graph rs).
Proof.
  intros Hget Hb. apply graph_keys.
  assert (He : edge (dependency_graph rs) a b) by (unfold edge; eauto).
  apply graph_edge in He as (_ & _ & _ & _ & _ & _ & H). exact H.
Qed.

End GraphFacts.

(** ** The depth-first traversal *)

Module DfsFacts.
Import Schemas Provisioner DictFacts.

Lemma filter_ne_notin (name : string) (l : list string) :
  name ∉ l -> filter (fun x => x <> name) l = l.
Proof.
  induction l as [|y l IH]; intros H; [done|].
  apply not_elem_of_cons in H as [Hne Hl].
  rewrite filter_cons_True by done. f_equal. by apply IH.
Qed.

(** *** Loops that stop at the first exception *)

Section ForEach.
Variable body : string -> Dfs -> option (result Dfs).
Variable I : Dfs -> Prop.
Variable xs : list string.
Hypothesis body_keeps :
  forall x st st', x ∈ xs -> I st -> body x st = Some (Ok st') -> I st'.

Lemma for_each_keeps st st' :
  for_each body xs st = Some (Ok st') -> I st -> I st'.
Proof using body_keeps.
  revert st body_keeps. induction xs as [|x l IH]; intros st Hb H HI; simpl in H.
  - by injection H as <-.
  - destruct (body x st) as [[st1|e]|] eqn:E; try discriminate.
    eapply (IH st1); [|exact H|].
    + intros; eapply Hb; eauto using list_elem_of_further.
    + eapply Hb; eauto using list_elem_of_here.
Qed.

Lemma for_each_raises (P : Exception -> Prop) st e :
  for_each body xs st = Some (Raise e) ->
  (forall x st e, x ∈ xs -> I st -> body x st = Some (Raise e) -> P e) ->
  I st -> P e.
Proof using body_keeps.
  revert st body_keeps. induction xs as [|x l IH]; intros st Hb H Hr HI;
    simpl in H; [discriminate|].
  destruct (body x st) as [[st1|e1]|] eqn:E; try discriminate.
  - eapply (IH st1); [|exact H| |].
    + intros; eapply Hb; eauto using list_elem_of_further.
    + intros; eapply Hr; eauto using list_elem_of_further.
    + eapply Hb; eauto using list_elem_of_here.
  - injection H as <-. eapply Hr; eauto using list_elem_of_here.
Qed.

Lemma for_each_returns st :
  (forall x st, x ∈ xs -> I st -> is_Some (body x st)) ->
  I st -> is_Some (for_each body xs st).
Proof using body_keeps.
  revert st body_keeps. induction xs as [|x l IH]; intros st Hb Hs HI; simpl;
    [eauto|].
  destruct (Hs x st) as [[st1|e] E]; [apply list_elem_of_here|done|..];
    rewrite E; [|eauto].
  apply IH.
  - intros; eapply Hb; eauto using list_elem_of_further.
  - intros; eapply Hs; eauto using list_elem_of_further.
  - eapply Hb; eauto using list_elem_of_here.
Qed.

End ForEach.

Section Traversal.
Variable iter : list string -> list string.
Variable graph : pydict (list string).
Hypothesis iter_perm : forall l, iter l ≡ₚ l.
Hypothesis closed :
  forall a deps b,
    dict_get a graph = Some deps -> b ∈ deps -> b ∈ dict_keys graph.

(** A call that returns leaves the recursion stack as it found it. *)
Lemma visit_temp fuel :
  forall name st st',
    visit iter graph fuel name st = Some (Ok st') ->
    temp_visited st' = temp_visited st.
Proof.
  induction fuel as [|fuel IH]; intros name st st' H; simpl in H;
    [discriminate|].
  case_bool_decide as Ht; [discriminate|].
  case_bool_decide as Hv; [by injection H as <-|].
  destruct (dict_get name graph) as [deps|]; [|discriminate].
  destruct (for_each _ _ _) as [[st2|e]|] eqn:E; try discriminate.
  injection H as <-. simpl.
  assert (temp_visited st2 = name :: temp_visited st) as ->.
  { eapply (for_each_keeps _ (fun s => temp_visited s = name :: temp_visited st));
      [|exact E|reflexivity].
    intros x s s' _ Hs Hx. by rewrite (IH _ _ _ Hx). }
  rewrite filter_cons_False by (by intros ?). by apply filter_ne_notin.
Qed.

Lemma for_each_visited body xs :
  (forall x st st',
     dfs_inv graph st -> body x st = Some (Ok st') ->
     dfs_inv graph st' /\ x ∈ visited st' /\
     (forall y, y ∈ visited st -> y ∈ visited st')) ->
  forall st st',
    dfs_inv graph st -> for_each body xs st = Some (Ok st') ->
    dfs_inv graph st' /\ (forall x, x ∈ xs -> x ∈ visited st') /\
    (forall y, y ∈ visited st -> y ∈ visited st').
Proof.
  intros Hb. induction xs as [|x l IH]; intros st st' Hinv H; simpl in H.
  - injection H as <-. split; [exact Hinv|]. split; [|done].
    by intros ? ?%elem_of_nil.
  - destruct (body x st) as [[st1|e]|] eqn:E; try discriminate.
    destruct (Hb _ _ _ Hinv E) as (Hinv1 & Hx & Hmono1).
    destruct (IH _ _ Hinv1 H) as (Hinv' & Hl & Hmono).
    split; [done|]. split; [|by auto].
    intros y [->|Hy]%elem_of_cons; auto.
Qed.

Lemma topo_snoc l name :
  topo graph l ->
  (forall b, edge graph name b -> b ∈ l) ->
  topo graph (l ++ [name]).
Proof.
  intros Ht Hdeps l1 a l2 b E Hab.
  destruct l2 as [|z l2 _] using rev_ind.
  - apply app_inj_tail in E as [-> ->]. by apply Hdeps.
  - rewrite app_comm_cons, app_assoc in E.
    apply app_inj_tail in E as [-> _]. by eapply Ht.
Qed.

(** A call that returns has finished [name], keeps what was finished, and
    maintains the invariant. *)
Lemma visit_inv fuel :
  forall name st st',
    dfs_inv graph st ->
    visit iter graph fuel name st = Some (Ok st') ->
    dfs_inv graph st' /\ name ∈ visited st' /\
    (forall y, y ∈ visited st -> y ∈ visited st').
Proof.
  induction fuel as [|fuel IH]; intros name st st' Hinv H; simpl in H;
    [discriminate|].
  case_bool_decide as Ht; [discriminate|].
  case_bool_decide as Hv; [by injection H as <-|].
  destruct (dict_get name graph) as [deps|] eqn:Hg; [|discriminate].
  destruct (for_each _ _ _) as [[st2|e]|] eqn:E; try discriminate.
  injection H as <-.
  destruct Hinv as (Hvo & Htopo & Htv & Hnd).
  assert (Htemp : temp_visited st2 = name :: temp_visited st).
  { eapply (for_each_keeps _ (fun s => temp_visited s = name :: temp_visited st));
      [|exact E|reflexivity].
    intros x s s' _ Hs Hx. by rewrite (visit_temp _ _ _ _ Hx). }
  eapply (for_each_visited _ _ (IH)) in E as (Hinv2 & Hdeps & Hmono).
  2:{ split; [exact Hvo|]. split; [exact Htopo|]. split; [|exact Hnd]. simpl.
      intros x [->|Hx]%elem_of_cons; auto. }
  simpl in Hmono. destruct Hinv2 as (Hvo2 & Htopo2 & Htv2 & Hnd2).
  assert (Hfresh : name ∉ order st2).
  { rewrite <- Hvo2. apply Htv2. rewrite Htemp. apply list_elem_of_here. }
  split; [|split]; simpl.
  - split; [|split; [|split]]; simpl.
    + intros x. rewrite elem_of_cons, elem_of_app, list_elem_of_singleton, Hvo2.
      tauto.
    + apply topo_snoc; [done|]. intros b (deps' & Hg' & Hb).
      apply Hvo2, Hdeps. rewrite iter_perm. congruence.
    + intros x [Hne Hx]%list_elem_of_filter [->|Hx']%elem_of_cons; [done|].
      by apply (Htv2 x).
    + apply NoDup_app. split; [done|]. split; [|apply NoDup_singleton].
      by intros x Hx ->%list_elem_of_singleton.
  - apply list_elem_of_here.
  - intros y Hy. apply list_elem_of_further. auto.
Qed.

Lemma topo_reach l :
  topo graph l ->
  forall a b, tc (edge graph) a b ->
  forall l1 l2, l = l1 ++ a :: l2 -> b ∈ l1.
Proof.
  intros Ht a b Hab. induction Hab as [a b Hab|a c b Hac Hcb IH];
    intros l1 l2 E.
  - by eapply Ht.
  - assert (Hc : c ∈ l1) by by eapply Ht.
    apply list_elem_of_split in Hc as (l1a & l1b & ->).
    apply elem_of_app. left. apply (IH l1a (l1b ++ a :: l2)).
    rewrite E. by rewrite <- app_assoc.
Qed.

(** A list that respects the edges has no name on a cycle. *)
Lemma topo_acyclic l x :
  topo graph l -> x ∈ l -> ~ tc (edge graph) x x.
Proof.
  intros Ht Hx Hc. apply list_elem_of_split in Hx as (l1 & l2 & E).
  remember (length l1) as n eqn:Hn. revert l1 l2 E Hn.
  induction n as [n IH] using lt_wf_ind. intros l1 l2 E Hn.
  pose proof (topo_reach l Ht x x Hc l1 l2 E) as Hin.
  apply list_elem_of_split in Hin as (la & lb & ->).
  apply (IH (length la)) with (l1 := la) (l2 := lb ++ x :: l2).
  - rewrite Hn, length_app. simpl. lia.
  - rewrite E. by rewrite <- app_assoc.
  - reflexivity.
Qed.

(** An exception raised by [visit] names a resource that lies on a cycle,
    provided every name on the stack reaches the visited one. *)
Lemma visit_raise fuel :
  forall name st e,
    name ∈ dict_keys graph ->
    (forall t, t ∈ temp_visited st -> tc (edge graph) t name) ->
    visit iter graph fuel name st = Some (Raise e) ->
    exists x, e = circular x /\ tc (edge graph) x x.
Proof.
  induction fuel as [|fuel IH]; intros name st e Hkey Hchain H; simpl in H;
    [discriminate|].
  case_bool_decide as Ht. { injection H as <-. eauto. }
  case_bool_decide as Hv; [discriminate|].
  destruct (dict_get name graph) as [deps|] eqn:Hg.
  2:{ apply dict_get_is_Some in Hkey as [? ?]. congruence. }
  destruct (for_each _ _ _) as [[st2|e']|] eqn:E; try discriminate.
  injection H as <-.
  assert (Hkeep : forall x s s',
             x ∈ iter deps -> temp_visited s = name :: temp_visited st ->
             visit iter graph fuel x s = Some (Ok s') ->
             temp_visited s' = name :: temp_visited st).
  { intros x s s' _ Hs Hx. by rewrite (visit_temp _ _ _ _ Hx). }
  apply (for_each_raises _ _ _ Hkeep
           (fun e => exists x, e = circular x /\ tc (edge graph) x x) _ _ E);
    [|reflexivity].
  - intros x s e0 Hx Hs Hr. rewrite iter_perm in Hx.
    assert (Hedge : edge graph name x) by (unfold edge; eauto).
    eapply IH; [|
      |exact Hr].
    + by eapply closed.
    + intros t. rewrite Hs. intros [->|Ht']%elem_of_cons.
      * by apply tc_once.
      * eapply tc_r; [by apply Hchain|done].
Qed.

(** [visit] never needs more fuel than there are names left to put on the
    stack. *)
Lemma visit_fuel fuel :
  forall name st,
    name ∈ dict_keys graph ->
    NoDup (temp_visited st) ->
    (forall t, t ∈ temp_visited st -> t ∈ dict_keys graph) ->
    length (dict_keys graph) < fuel + length (temp_visited st) ->
    is_Some (visit iter graph fuel name st).
Proof.
  induction fuel as [|fuel IH]; intros name st Hkey Hnd Hsub Hlen.
  - exfalso.
    assert (length (temp_visited st) <= length (dict_keys graph))
      by by apply submseteq_length, NoDup_submseteq.
    simpl in Hlen. lia.
  - simpl. case_bool_decide as Ht; [eauto|].
    case_bool_decide as Hv; [eauto|].
    destruct (dict_get name graph) as [deps|] eqn:Hg; [|eauto].
    assert (Hsome : is_Some
              (for_each (visit iter graph fuel) (iter deps)
                 {| visited := visited st;
                    temp_visited := name :: temp_visited st;
                    order := order st |})).
    { apply (for_each_returns _
               (fun s => temp_visited s = name :: temp_visited st));
        [| |reflexivity].
      - intros x s s' _ Hs Hx. by rewrite (visit_temp _ _ _ _ Hx).
      - intros x s Hx Hs. rewrite iter_perm in Hx. apply IH; rewrite ?Hs.
        + by eapply closed.
        + by apply NoDup_cons.
        + intros t [->|Ht']%elem_of_cons; auto.
        + simpl. lia. }
    destruct Hsome as [[st2|e] ->]; eauto.
Qed.

(** Only keys of the graph are put in [order]. *)
Lemma visit_order_keys fuel :
  forall name st st',
    name ∈ dict_keys graph ->
    (forall x, x ∈ order st -> x ∈ dict_keys graph) ->
    visit iter graph fuel name st = Some (Ok st') ->
    forall x, x ∈ order st' -> x ∈ dict_keys graph.
Proof.
  induction fuel as [|fuel IH]; intros name st st' Hkey Hord H; simpl in H;
    [discriminate|].
  case_bool_decide as Ht; [discriminate|].
  case_bool_decide as Hv; [by injection H as <-|].
  destruct (dict_get name graph) as [deps|] eqn:Hg; [|discriminate].
  destruct (for_each _ _ _) as [[st2|e]|] eqn:E; try discriminate.
  injection H as <-. simpl. intros x [Hx| ->%list_elem_of_singleton]%elem_of_app;
    [|done].
  revert x Hx.
  eapply (for_each_keeps _ (fun s => forall x, x ∈ order s -> x ∈ dict_keys graph));
    [|exact E|exact Hord].
  intros d s s' Hd Hs Hvisit. eapply IH; [|exact Hs|exact Hvisit].
  rewrite iter_perm in Hd. by eapply closed.
Qed.

End Traversal.

End DfsFacts.

(** ** The ordering of a batch *)

Module OrderingFacts.
Import Schemas Provisioner Scenarios DictFacts GraphFacts DfsFacts.

Lemma start_inv graph : dfs_inv graph dfs_start.
Proof.
  split; [done|]. split; [|split; [by intros ? ?%elem_of_nil|constructor]].
  intros l1 a l2 b E. by destruct l1.
Qed.

Section Batch.
Variable iter : list string -> list string.
Hypothesis iter_perm : forall l, iter l ≡ₚ l.
Variable batch : list OCIResource.

Lemma root_temp fuel name st st' :
  visit_root iter (dependency_graph batch) fuel name st = Some (Ok st') ->
  temp_visited st = [] -> temp_visited st' = [].
Proof.
  unfold visit_root. case_bool_decide; [by intros [= <-]|].
  intros Hv <-. by eapply visit_temp.
Qed.

Lemma visit_all_returns names :
  (forall n, n ∈ names -> n ∈ dict_keys (dependency_graph batch)) ->
  is_Some (visit_all iter (dependency_graph batch)
             (S (length (dependency_graph batch))) names dfs_start).
Proof using iter_perm.
  intros Hnames.
  apply (for_each_returns _ (fun s => temp_visited s = [])); [| |done].
  - intros x s s' _ Hs Hx. by eapply root_temp.
  - intros x s Hx Hs. unfold visit_root. case_bool_decide; [eauto|].
    apply visit_fuel; rewrite ?Hs.
    + exact iter_perm.
    + apply graph_closed.
    + by apply Hnames.
    + apply NoDup_nil_2.
    + by intros t ?%elem_of_nil.
    + unfold dict_keys. rewrite length_map. simpl. lia.
Qed.

Lemma visit_all_inv names st' :
  visit_all iter (dependency_graph batch)
    (S (length (dependency_graph batch))) names dfs_start = Some (Ok st') ->
  dfs_inv (dependency_graph batch) st' /\
  (forall n, n ∈ names -> n ∈ visited st').
Proof using iter_perm.
  intros H.
  eapply for_each_visited in H as (Hinv & Hall & _);
    [done| |apply start_inv].
  intros x st st1 Hinv. unfold visit_root. case_bool_decide as Hv.
  - by intros [= <-].
  - by apply visit_inv.
Qed.

Lemma visit_all_raise names e :
  (forall n, n ∈ names -> n ∈ dict_keys (dependency_graph batch)) ->
  visit_all iter (dependency_graph batch)
    (S (length (dependency_graph batch))) names dfs_start = Some (Raise e) ->
  exists x, e = circular x /\ tc (edge (dependency_graph batch)) x x.
Proof using iter_perm.
  intros Hnames H.
  assert (Hkeep : forall x s s',
             x ∈ names -> temp_visited s = [] ->
             visit_root iter (dependency_graph batch)
               (S (length (dependency_graph batch))) x s = Some (Ok s') ->
             temp_visited s' = []).
  { intros x s s' _ Hs Hx. by eapply root_temp. }
  apply (for_each_raises _ _ _ Hkeep
           (fun e => exists x, e = circular x /\
                               tc (edge (dependency_graph batch)) x x) _ _ H);
    [|done].
  intros x s e0 Hx Hs. unfold visit_root. case_bool_decide; [discriminate|].
  apply visit_raise.
  - exact iter_perm.
  - apply graph_closed.
  - by apply Hnames.
  - rewrite Hs. by intros t ?%elem_of_nil.
Qed.

Lemma tc_depends_edge a b :
  tc (depends_on batch) a b <-> tc (edge (dependency_graph batch)) a b.
Proof.
  split; apply (tc_congruence (fun x => x)); intros x y; apply graph_edge.
Qed.

Lemma sort_with_returns : is_Some (sort_with iter batch).
Proof using iter_perm.
  unfold sort_with.
  destruct (visit_all_returns (dict_keys (dependency_graph batch)))
    as [[st|e] ->]; eauto.
Qed.

Lemma sort_with_cyclic :
  cyclic batch ->
  exists x, sort_with iter batch = Some (Raise (circular x)) /\
            tc (depends_on batch) x x.
Proof using iter_perm.
  intros [x Hx]. unfold sort_with.
  destruct (visit_all_returns (dict_keys (dependency_graph batch)))
    as [[st|e] E]; [done|..]; rewrite E.
  - exfalso. apply visit_all_inv in E as ((Hvo & Htopo & _ & _) & Hall).
    apply (topo_acyclic (dependency_graph batch) (order st) x Htopo);
      [|by apply tc_depends_edge].
    apply Hvo, Hall, graph_keys.
    assert (Hfirst : exists y, depends_on batch x y).
    { inversion Hx; eauto. }
    destruct Hfirst as (y & r & deps & Hr & <- & _).
    apply list_elem_of_fmap. eauto.
  - apply visit_all_raise in E as (y & -> & Hy); [|done].
    exists y. split; [done|]. by apply tc_depends_edge.
Qed.

Lemma visit_all_order_keys names st' :
  (forall n, n ∈ names -> n ∈ dict_keys (dependency_graph batch)) ->
  visit_all iter (dependency_graph batch)
    (S (length (dependency_graph batch))) names dfs_start = Some (Ok st') ->
  forall x, x ∈ order st' -> x ∈ dict_keys (dependency_graph batch).
Proof using iter_perm.
  intros Hnames H.
  eapply (for_each_keeps _
            (fun s => forall x, x ∈ order s ->
                                x ∈ dict_keys (dependency_graph batch)));
    [|exact H|by intros x ?%elem_of_nil].
  intros n s s' Hn Hs. unfold visit_root. case_bool_decide; [by intros [= <-]|].
  intros Hvisit. eapply visit_order_keys; [exact iter_perm|apply graph_closed
                                          |by apply Hnames|exact Hs|exact Hvisit].
Qed.

Lemma lookup_all_returns names :
  (forall n, n ∈ names -> n ∈ map name batch) ->
  exists rs, lookup_all (resource_map batch) names = Ok rs.
Proof.
  induction names as [|k names IH]; intros Hnames; simpl; [eauto|].
  destruct (proj2 (dict_get_is_Some k (resource_map batch))) as [r ->].
  { apply rmap_keys, Hnames, list_elem_of_here. }
  destruct IH as [rs ->]; [|eauto].
  intros n Hn. by apply Hnames, list_elem_of_further.
Qed.

(** The names of the returned resources are those of [order], reversed. *)
Lemma resource_map_names k r :
  dict_get k (resource_map batch) = Some r -> name r = k.
Proof.
  unfold resource_map.
  assert (Hgen : forall rs (d : pydict OCIResource),
             (forall k r, dict_get k d = Some r -> name r = k) ->
             forall k r,
               dict_get k (fold_left (fun d r => dict_set (name r) r d) rs d)
               = Some r -> name r = k).
  { induction rs as [|r0 rs IH]; intros d Hd k0 r1; simpl; [apply Hd|].
    apply IH. intros k1 r2. rewrite dict_get_dict_set.
    case_decide; [congruence|apply Hd]. }
  apply Hgen. discriminate.
Qed.

Lemma lookup_all_names names rs :
  lookup_all (resource_map batch) names = Ok rs -> map name rs = names.
Proof.
  revert rs. induction names as [|k names IH]; intros rs; simpl.
  - by intros [= <-].
  - destruct (dict_get k (resource_map batch)) as [r|] eqn:E; [|discriminate].
    destruct (lookup_all (resource_map batch) names) as [rs'|e];
      [|discriminate].
    intros [= <-]. simpl. by rewrite (resource_map_names _ _ E), (IH rs').
Qed.

(** What the ordering does whenever it returns: a resource comes before each
    of the resources of the batch it depends on. *)
Lemma sort_with_dependents_first sorted a b :
  sort_with iter batch = Some (Ok sorted) ->
  depends_on batch a b ->
  exists l1 l2 l3, map name sorted = l1 ++ a :: l2 ++ b :: l3.
Proof using iter_perm.
  unfold sort_with. intros Hsort Hdep.
  destruct (visit_all iter (dependency_graph batch) _ _ dfs_start)
    as [[st|e]|] eqn:E; try discriminate.
  injection Hsort as Hsort. apply lookup_all_names in Hsort.
  apply visit_all_inv in E as ((Hvo & Htopo & _ & _) & Hall).
  assert (Ha : a ∈ order st).
  { apply Hvo, Hall, graph_keys. destruct Hdep as (r & deps & Hr & <- & _).
    apply list_elem_of_fmap. eauto. }
  apply list_elem_of_split in Ha as (m1 & m2 & Horder).
  assert (Hb : b ∈ m1) by (eapply Htopo; [exact Horder|by apply graph_edge]).
  apply list_elem_of_split in Hb as (n1 & n2 & ->).
  exists (rev m2), (rev n2), (rev n1).
  rewrite Hsort, Horder, rev_app_distr. simpl.
  rewrite rev_app_distr. simpl. by rewrite <- !app_assoc.
Qed.

(** A batch without dependency cycle is ordered: the call returns, and it
    returns each name of the batch once. *)
Lemma sort_with_acyclic :
  ~ cyclic batch ->
  exists sorted,
    sort_with iter batch = Some (Ok sorted) /\
    map name sorted ≡ₚ dict_keys (dependency_graph batch).
Proof using iter_perm.
  intros Hacyc. unfold sort_with.
  destruct (visit_all_returns (dict_keys (dependency_graph batch)))
    as [[st|e] E]; [done|..]; rewrite E.
  - pose proof (visit_all_order_keys _ _ (fun n Hn => Hn) E) as Hkeys.
    destruct (lookup_all_returns (rev (order st))) as [rs Hrs].
    { intros n Hn%list_elem_of_In%in_rev%list_elem_of_In.
      by apply graph_keys, Hkeys. }
    exists rs. rewrite Hrs. split; [done|].
    rewrite (lookup_all_names _ _ Hrs), <- Permutation_rev.
    apply visit_all_inv in E as ((Hvo & _ & _ & Hnd) & Hall).
    apply NoDup_Permutation; [done|apply graph_NoDup|].
    intros x. split; [apply Hkeys|]. intros Hx. by apply Hvo, Hall.
  - exfalso. apply visit_all_raise in E as (y & -> & Hy); [|done].
    apply Hacyc. exists y. by apply tc_depends_edge.
Qed.

End Batch.

Lemma for_each_ext body1 body2 xs st :
  (forall x s, body1 x s = body2 x s) ->
  for_each body1 xs st = for_each body2 xs st.
Proof.
  intros H. revert st. induction xs as [|x l IH]; intros st; simpl; [done|].
  rewrite H. destruct (body2 x st) as [[st1|e]|]; auto.
Qed.

Lemma visit_ext iter1 iter2 graph :
  (forall name deps, dict_get name graph = Some deps -> iter1 deps = iter2 deps) ->
  forall fuel name st,
    visit iter1 graph fuel name st = visit iter2 graph fuel name st.
Proof.
  intros H. induction fuel as [|fuel IH]; intros name st; simpl; [done|].
  destruct (dict_get name graph) as [deps|] eqn:Hg; [|done].
  rewrite (H _ _ Hg), (for_each_ext _ (visit iter2 graph fuel)) by apply IH.
  done.
Qed.

Lemma sort_with_ext iter1 iter2 batch :
  (forall name deps,
     dict_get name (dependency_graph batch) = Some deps ->
     iter1 deps = iter2 deps) ->
  sort_with iter1 batch = sort_with iter2 batch.
Proof.
  intros H. unfold sort_with, visit_all.
  rewrite (for_each_ext _
             (visit_root iter2 (dependency_graph batch)
                (S (length (dependency_graph batch))))); [done|].
  intros x s. unfold visit_root. by rewrite (visit_ext iter1 iter2).
Qed.

(** With dependency sets of at most one element the order in which the
    environment iterates them plays no role. *)
Lemma sort_small_sets env batch :
  small_sets batch = true ->
  _sort_resources_by_dependencies env batch = sort_with (fun l => l) batch.
Proof.
  intros Hsmall. apply sort_with_ext. intros name deps Hg.
  assert (Hlen : length deps <= 1).
  { unfold small_sets in Hsmall. rewrite forallb_forall in Hsmall.
    eapply (dict_get_Forall (fun v => length v <= 1)); [|exact Hg].
    apply List.Forall_forall. intros kv Hkv. by apply Nat.leb_le, Hsmall. }
  pose proof (set_iter_perm env deps) as Hp.
  destruct deps as [|d [|d' deps]]; simpl in Hlen; [| |lia].
  - by apply Permutation_nil_r.
  - by apply Permutation_singleton_r.
Qed.

Lemma sort_returns env batch :
  is_Some (_sort_resources_by_dependencies env batch).
Proof. apply sort_with_returns, set_iter_perm. Qed.

Lemma sort_cyclic env batch :
  cyclic batch ->
  exists x, _sort_resources_by_dependencies env batch
            = Some (Raise (circular x)) /\
            tc (depends_on batch) x x.
Proof. apply sort_with_cyclic, set_iter_perm. Qed.

(** A batch can be ordered exactly when it has no dependency cycle. *)
Lemma sort_acyclic env batch :
  ~ cyclic batch ->
  exists sorted,
    _sort_resources_by_dependencies env batch = Some (Ok sorted) /\
    (forall n, n ∈ map name sorted <-> n ∈ map name batch).
Proof.
  intros Hacyc.
  destruct (sort_with_acyclic (set_iter env) (set_iter_perm env) batch Hacyc)
    as (sorted & Hsort & Hperm).
  exists sorted. split; [exact Hsort|].
  intros n. rewrite Hperm. apply graph_keys.
Qed.

Lemma sort_Ok_acyclic env batch sorted :
  _sort_resources_by_dependencies env batch = Some (Ok sorted) ->
  ~ cyclic batch.
Proof.
  intros Hsort Hcyc. destruct (sort_cyclic env batch Hcyc) as (x & Hx & _).
  congruence.
Qed.

(** C1, on the code: for every batch without dependency cycle the ordering
    returns, and in what it returns a resource comes before each resource
    of the batch it depends on, not after it; at the batch A, B depending on
    A, C depending on B, D depending on C it returns D, C, B, A where the
    specification asks for A, B, C, D. *)
Theorem ordering_puts_dependents_first env :
  (forall batch,
     ~ cyclic batch ->
     exists sorted,
       _sort_resources_by_dependencies env batch = Some (Ok sorted) /\
       forall a b,
         depends_on batch a b ->
         exists l1 l2 l3, map name sorted = l1 ++ a :: l2 ++ b :: l3) /\
  _sort_resources_by_dependencies env chain_batch
  = Some (Ok [ resource COMPUTE "D" (Some ["C"]);
               resource COMPUTE "C" (Some ["B"]);
               resource COMPUTE "B" (Some ["A"]);
               resource COMPUTE "A" None ]).
Proof.
  split.
  - intros batch Hacyc.
    destruct (sort_acyclic env batch Hacyc) as (sorted & Hsort & _).
    exists sorted. split; [exact Hsort|]. intros a b.
    apply (sort_with_dependents_first (set_iter env) (set_iter_perm env)).
    exact Hsort.
  - rewrite sort_small_sets by reflexivity. reflexivity.
Qed.

End OrderingFacts.

(** ** Provisioning a batch *)

Module ProvisionFacts.
Import Schemas Provisioner Scenarios GraphFacts OrderingFacts.

Lemma with_outcomes_nil st : with_outcomes st [] (progress st) = st.
Proof. destruct st. unfold with_outcomes. simpl. by rewrite app_nil_r. Qed.

Lemma init_request_lookup env rid reqs tick :
  exists st0,
    (init_request env rid reqs tick).1 !! rid = Some st0 /\
    match reqs !! rid with
    | Some st => st0 = st /\ init_request env rid reqs tick = (reqs, tick)
    | None =>
        st0 = new_request env tick /\
        init_request env rid reqs tick
        = (<[rid := new_request env tick]> reqs, tick + 2)
    end.
Proof.
  unfold init_request. destruct (reqs !! rid) as [st|] eqn:E; simpl.
  - eauto.
  - exists (new_request env tick). by rewrite lookup_insert_eq.
Qed.

Lemma loop_body_insert env rid total L k r st :
  requests L !! rid = Some st ->
  loop_body env rid total L (k, r)
  = {| requests :=
         <[rid := append_outcome
                    (outcome_of (r, (_provision_resource env r (clock L)).1))
                    (set_progress (progress_percentage k total) st)]>
           (requests L);
       provisioned_resources :=
         provisioned_resources L
         ++ option_list
              (succeeded (r, (_provision_resource env r (clock L)).1));
       clock := (_provision_resource env r (clock L)).2 |}.
Proof.
  intros Hst. unfold loop_body.
  destruct (_provision_resource env r (clock L)) as [[p|e] c]; simpl;
    rewrite (alter_alt_Some _ _ _ _ Hst), alter_insert_eq.
  - done.
  - by rewrite app_nil_r.
Qed.

Lemma attempts_cons env r rs tick :
  attempts env (r :: rs) tick
  = (r, (_provision_resource env r tick).1)
    :: attempts env rs (_provision_resource env r tick).2.
Proof. simpl. by destruct (_provision_resource env r tick). Qed.

Lemma length_attempts env rs tick : length (attempts env rs tick) = length rs.
Proof.
  revert tick. induction rs as [|r rs IH]; intros tick; [done|].
  rewrite attempts_cons. simpl. by rewrite IH.
Qed.

(** The loop appends one outcome per resource, in order, and collects the
    provisioned ones. *)
Lemma loop_from env rid total rs :
  forall k L st,
    requests L !! rid = Some st ->
    exists p,
      fold_left (loop_body env rid total) (zip (seq k (length rs)) rs) L
      = {| requests :=
             <[rid := with_outcomes st
                        (map outcome_of (attempts env rs (clock L))) p]>
               (requests L);
           provisioned_resources :=
             provisioned_resources L
             ++ omap succeeded (attempts env rs (clock L));
           clock := clock_after env rs (clock L) |}.
Proof.
  induction rs as [|r rs IH]; intros k L st Hst.
  - exists (progress st). simpl.
    rewrite with_outcomes_nil, (insert_id _ _ _ Hst), app_nil_r. by destruct L.
  - cbn [length seq zip zip_with fold_left].
    rewrite (loop_body_insert _ _ _ _ _ _ _ Hst).
    match goal with
    | |- context [fold_left _ _ ?L1] =>
        destruct (IH (S k) L1 _ (lookup_insert_eq _ _ _)) as [p Hp]
    end.
    exists p. rewrite Hp. cbn [requests provisioned_resources clock].
    rewrite insert_insert_eq, attempts_cons. cbn [clock_after map omap].
    f_equal.
    + f_equal. unfold with_outcomes. simpl. by rewrite <- app_assoc.
    + rewrite <- app_assoc. f_equal.
      unfold succeeded at 2. simpl.
      by destruct (_provision_resource env r (clock L)).1.
Qed.

Lemma finish_insert rid st (reqs : gmap string RequestState) :
  finish rid (<[rid := st]> reqs)
  = <[rid := set_progress 100 (set_status "completed" st)]> reqs.
Proof. unfold finish. by rewrite !alter_insert_eq. Qed.

(** A call whose batch can be ordered: what it returns and what it leaves
    in the store. *)
Lemma provision_sorted env reqs rid batch tick sorted :
  _sort_resources_by_dependencies env batch = Some (Ok sorted) ->
  exists st0,
    (init_request env rid reqs tick).1 !! rid = Some st0 /\
    provision_resources env reqs rid batch tick
    = Some (Ok (omap succeeded
                  (attempts env sorted (init_request env rid reqs tick).2)),
            <[rid := completed st0
                       (map outcome_of
                          (attempts env sorted
                             (init_request env rid reqs tick).2))]>
              (init_request env rid reqs tick).1,
            clock_after env sorted (init_request env rid reqs tick).2).
Proof.
  intros Hsort. destruct (init_request_lookup env rid reqs tick) as (st0 & Hst0 & _).
  exists st0. split; [done|]. unfold provision_resources.
  destruct (init_request env rid reqs tick) as [reqs0 tick0]. simpl in *.
  rewrite Hsort. unfold run_loop, enumerate.
  edestruct (loop_from env rid (length sorted) sorted 0
               {| requests := reqs0; provisioned_resources := [];
                  clock := tick0 |} st0 Hst0) as [p ->].
  cbn [requests provisioned_resources clock].
  rewrite finish_insert. done.
Qed.

Lemma provision_resource_supported env r tick :
  supported r = true ->
  exists p, (_provision_resource env r tick).1 = Ok p /\
            p_name p = name r /\ p_resource_type p = resource_type r /\
            p_status p = ACTIVE.
Proof.
  unfold supported, _provision_resource.
  destruct (resource_type r) eqn:E; [..|discriminate]; intros _; simpl;
    eexists; (split; [reflexivity|]); simpl; rewrite ?E; done.
Qed.

Lemma provision_resource_unsupported env r tick :
  supported r = false ->
  (_provision_resource env r tick).1
  = Raise (ValueError ("Unsupported resource type: "
                       +:+ ResourceType_format env (resource_type r))).
Proof.
  unfold supported, _provision_resource.
  by destruct (resource_type r) eqn:E.
Qed.

Lemma attempts_records env rs :
  forall tick,
    Forall2 (records env) rs (map outcome_of (attempts env rs tick)).
Proof.
  induction rs as [|r rs IH]; intros tick; [constructor|].
  rewrite attempts_cons. cbn [map]. constructor; [|apply IH].
  unfold records, outcome_of. simpl. destruct (supported r) eqn:Hs.
  - destruct (provision_resource_supported env r tick Hs)
      as (p & -> & Hn & Ht & Hst). simpl. eauto 8.
  - rewrite (provision_resource_unsupported env r tick Hs). simpl. done.
Qed.

Lemma omap_succeeded_cons (r : OCIResource) res l :
  omap succeeded ((r, res) :: l)
  = match res with
    | Ok p => p :: omap succeeded l
    | Raise _ => omap succeeded l
    end.
Proof. by destruct res. Qed.

Lemma attempts_succeeded env rs :
  forall tick,
    map p_name (omap succeeded (attempts env rs tick))
    = map name (List.filter supported rs) /\
    Forall (fun p => p_status p = ACTIVE)
      (omap succeeded (attempts env rs tick)).
Proof.
  induction rs as [|r rs IH]; intros tick; [by split|].
  rewrite attempts_cons, omap_succeeded_cons. cbn [List.filter].
  destruct (IH (_provision_resource env r tick).2) as [IH1 IH2].
  destruct (supported r) eqn:Hs.
  - destruct (provision_resource_supported env r tick Hs)
      as (p & -> & Hn & Ht & Hst).
    simpl. split; [by rewrite Hn, IH1|by constructor].
  - by rewrite (provision_resource_unsupported env r tick Hs).
Qed.

Lemma sort_mixed_batch env :
  _sort_resources_by_dependencies env mixed_batch
  = Some (Ok [ resource STORAGE "disk" None;
               resource KUBERNETES "cluster" None;
               resource COMPUTE "web" None ]).
Proof. rewrite sort_small_sets by reflexivity. reflexivity. Qed.

Lemma sort_single_batch env :
  _sort_resources_by_dependencies env single_batch
  = Some (Ok [ resource COMPUTE "web" None ]).
Proof. rewrite sort_small_sets by reflexivity. reflexivity. Qed.

Lemma init_request_empty env rid tick :
  init_request env rid ∅ tick = (<[rid := new_request env tick]> ∅, tick + 2).
Proof. unfold init_request. by rewrite lookup_empty. Qed.

(** The outcomes a call adds come after those the entry had before. *)
Lemma provision_appends env reqs rid batch tick sorted :
  _sort_resources_by_dependencies env batch = Some (Ok sorted) ->
  exists result reqs' tick' st' recorded,
    provision_resources env reqs rid batch tick
    = Some (Ok result, reqs', tick') /\
    reqs' !! rid = Some st' /\
    status st' = "completed" /\ progress st' = 100%Q /\
    resources st'
    = match reqs !! rid with Some st => resources st | None => [] end
      ++ recorded /\
    recorded
    = map outcome_of (attempts env sorted (init_request env rid reqs tick).2) /\
    result
    = omap succeeded (attempts env sorted (init_request env rid reqs tick).2).
Proof.
  intros Hsort.
  destruct (provision_sorted env reqs rid batch tick sorted Hsort)
    as (st0 & Hst0 & ->).
  eexists _, _, _, _, _. split; [reflexivity|].
  rewrite lookup_insert_eq. split; [reflexivity|]. simpl.
  repeat split.
  destruct (init_request_lookup env rid reqs tick) as (st0' & Hst0' & Hcase).
  rewrite Hst0 in Hst0'. injection Hst0' as <-.
  destruct (reqs !! rid); destruct Hcase as [-> _]; done.
Qed.

(** C5. For every batch without dependency cycle the call processes every
    resource of the batch and stores one outcome per resource, in processing
    order: an active one for a resource that was provisioned, a failed one
    carrying the error message for a resource whose provisioning raised; the
    loop goes on after a failure, and the entry ends with status "completed"
    and progress 100. For a batch of three independent resources whose
    second one raises, a fresh entry holds three outcomes: active, failed
    with the message, active. *)
Theorem failures_are_recorded_and_batch_completes :
  (forall env reqs rid batch tick,
     ~ cyclic batch ->
     exists sorted result reqs' tick' st' recorded,
       _sort_resources_by_dependencies env batch = Some (Ok sorted) /\
       (forall n, n ∈ map name sorted <-> n ∈ map name batch) /\
       provision_resources env reqs rid batch tick
       = Some (Ok result, reqs', tick') /\
       reqs' !! rid = Some st' /\
       status st' = "completed" /\ progress st' = 100%Q /\
       resources st'
       = match reqs !! rid with Some st => resources st | None => [] end
         ++ recorded /\
       Forall2 (records env) sorted recorded) /\
  (forall env rid tick,
     exists result reqs' tick' st',
       provision_resources env ∅ rid mixed_batch tick
       = Some (Ok result, reqs', tick') /\
       reqs' !! rid = Some st' /\
       status st' = "completed" /\ progress st' = 100%Q /\
       map (fun o => (o_name o, o_status o, o_error o)) (resources st')
       = [ ("disk", ACTIVE, None);
           ("cluster", FAILED,
            Some ("Unsupported resource type: "
                  +:+ ResourceType_format env KUBERNETES));
           ("web", ACTIVE, None) ]).
Proof.
  split.
  - intros env reqs rid batch tick Hacyc.
    destruct (sort_acyclic env batch Hacyc) as (sorted & Hsort & Hnames).
    destruct (provision_appends env reqs rid batch tick sorted Hsort)
      as (result & reqs' & tick' & st' & recorded & H1 & H2 & H3 & H4 & H5
          & -> & _).
    exists sorted, result, reqs', tick', st'. eexists.
    repeat split; try done; try apply Hnames.
    apply attempts_records.
  - intros env rid tick.
    destruct (provision_appends env ∅ rid mixed_batch tick _
                (sort_mixed_batch env))
      as (result & reqs' & tick' & st' & recorded & H1 & H2 & H3 & H4 & H5
          & -> & _).
    exists result, reqs', tick', st'. repeat split; try done.
    rewrite H5, lookup_empty. reflexivity.
Qed.

(** The first part of the theorem at the batch web, cluster, disk. *)
Lemma failures_are_recorded_and_batch_completes_witness :
  exists sorted result reqs' tick' st' recorded,
    _sort_resources_by_dependencies fixed_env mixed_batch = Some (Ok sorted) /\
    (forall n, n ∈ map name sorted <-> n ∈ map name mixed_batch) /\
    provision_resources fixed_env ∅ "req-1" mixed_batch 0
    = Some (Ok result, reqs', tick') /\
    reqs' !! "req-1" = Some st' /\
    status st' = "completed" /\ progress st' = 100%Q /\
    resources st' = [] ++ recorded /\
    Forall2 (records fixed_env) sorted recorded.
Proof.
  exact (proj1 failures_are_recorded_and_batch_completes
           fixed_env ∅ "req-1" mixed_batch 0
           (sort_Ok_acyclic fixed_env mixed_batch _ eq_refl)).
Defined.

(** C10. For every batch without dependency cycle, the list returned by a
    call holds the provisioned resources of the ordered batch, in order, all
    active; a resource whose provisioning raised is left out of it and
    appears, as failed, only in the stored entry; for the batch web, cluster,
    disk the call returns two resources for three. *)
Theorem returned_list_omits_failures :
  (forall env reqs rid batch tick,
     ~ cyclic batch ->
     exists sorted result reqs' tick' st',
       _sort_resources_by_dependencies env batch = Some (Ok sorted) /\
       provision_resources env reqs rid batch tick
       = Some (Ok result, reqs', tick') /\
       map p_name result = map name (List.filter supported sorted) /\
       Forall (fun p => p_status p = ACTIVE) result /\
       reqs' !! rid = Some st' /\
       (forall r, r ∈ sorted -> supported r = false ->
                  (name r ∉ map p_name result) /\
                  exists o, o ∈ resources st' /\ o_name o = name r /\
                            o_status o = FAILED)) /\
  (forall env rid tick,
     exists result reqs' tick',
       provision_resources env ∅ rid mixed_batch tick
       = Some (Ok result, reqs', tick') /\
       map p_name result = ["disk"; "web"] /\
       length result < length mixed_batch).
Proof.
  split.
  - intros env reqs rid batch tick Hacyc.
    destruct (sort_with_acyclic (set_iter env) (set_iter_perm env) batch Hacyc)
      as (sorted & Hsort & Hperm).
    destruct (provision_appends env reqs rid batch tick sorted Hsort)
      as (result & reqs' & tick' & st' & recorded & H1 & H2 & H3 & H4 & H5
          & -> & ->).
    eexists sorted, _, reqs', tick', st'. split; [exact Hsort|].
    split; [exact H1|].
    destruct (attempts_succeeded env sorted (init_request env rid reqs tick).2)
      as [Hn Ha].
    repeat split; try done.
    + rewrite Hn. intros Hin%list_elem_of_In%in_map_iff.
      destruct Hin as (r' & Hname & [Hr' Hs']%filter_In).
      assert (Hnd : NoDup (map name sorted)).
      { rewrite Hperm. apply graph_NoDup. }
      apply list_elem_of_In in Hr'.
      apply list_elem_of_lookup in Hr' as [i Hi].
      apply list_elem_of_lookup in H as [j Hj].
      assert (i = j).
      { eapply NoDup_lookup; [exact Hnd| |].
        - rewrite list_lookup_fmap, Hi. reflexivity.
        - rewrite list_lookup_fmap, Hj. simpl. by rewrite Hname. }
      subst j. congruence.
    + pose proof (attempts_records env sorted
                    (init_request env rid reqs tick).2) as Hrec.
      apply list_elem_of_lookup in H as [i Hi].
      destruct (Forall2_lookup_l _ _ _ _ _ Hrec Hi) as (o & Ho & Hn' & _ & Hk).
      rewrite H0 in Hk. destruct Hk as (Hf & _).
      exists o. repeat split; try done.
      rewrite H5. apply elem_of_app. right. by eapply list_elem_of_lookup_2.
  - intros env rid tick.
    destruct (provision_appends env ∅ rid mixed_batch tick _
                (sort_mixed_batch env))
      as (result & reqs' & tick' & st' & recorded & H1 & _ & _ & _ & _
          & _ & ->).
    eexists _, reqs', tick'. split; [exact H1|].
    split; [reflexivity|]. simpl. lia.
Qed.

(** The first part of the theorem at the batch web, cluster, disk. *)
Lemma returned_list_omits_failures_witness :
  exists sorted result reqs' tick' st',
    _sort_resources_by_dependencies fixed_env mixed_batch = Some (Ok sorted) /\
    provision_resources fixed_env ∅ "req-1" mixed_batch 0
    = Some (Ok result, reqs', tick') /\
    map p_name result = map name (List.filter supported sorted) /\
    Forall (fun p => p_status p = ACTIVE) result /\
    reqs' !! "req-1" = Some st' /\
    (forall r, r ∈ sorted -> supported r = false ->
               (name r ∉ map p_name result) /\
               exists o, o ∈ resources st' /\ o_name o = name r /\
                         o_status o = FAILED).
Proof.
  exact (proj1 returned_list_omits_failures
           fixed_env ∅ "req-1" mixed_batch 0
           (sort_Ok_acyclic fixed_env mixed_batch _ eq_refl)).
Defined.

(** *** Progress *)

Lemma inject_nat_nonneg n : (0 <= inject_Z (Z.of_nat n))%Q.
Proof. change 0%Q with (inject_Z 0). rewrite <- Zle_Qle. lia. Qed.

Lemma progress_nonneg i n : (0 <= progress_percentage i n)%Q.
Proof.
  unfold progress_percentage, Qdiv.
  apply Qmult_le_0_compat; [|done].
  apply Qmult_le_0_compat; [apply inject_nat_nonneg|].
  apply Qinv_le_0_compat, inject_nat_nonneg.
Qed.

Lemma progress_mono i j n :
  i <= j -> (progress_percentage i n <= progress_percentage j n)%Q.
Proof.
  intros Hij. unfold progress_percentage, Qdiv.
  apply Qmult_le_compat_r; [|done].
  apply Qmult_le_compat_r; [rewrite <- Zle_Qle; lia|].
  apply Qinv_le_0_compat, inject_nat_nonneg.
Qed.

Lemma progress_le_100 i n : i < n -> (progress_percentage i n <= 100)%Q.
Proof.
  intros Hin. unfold progress_percentage.
  apply Qle_trans with (1 * 100)%Q; [|done].
  apply Qmult_le_compat_r; [|done].
  apply Qle_shift_div_r.
  - change 0%Q with (inject_Z 0). rewrite <- Zlt_Qlt. lia.
  - rewrite Qmult_1_l, <- Zle_Qle. lia.
Qed.

Lemma StronglySorted_seq k n : StronglySorted le (seq k n).
Proof.
  revert k. induction n as [|n IH]; intros k; simpl; constructor; [apply IH|].
  apply List.Forall_forall. intros x Hx%in_seq. lia.
Qed.

Lemma scan_progress env rid total rs :
  forall k L st,
    requests L !! rid = Some st ->
    omap (fun store : gmap string RequestState => progress <$> store !! rid)
      (map requests
         (scan_left (loop_body env rid total) (zip (seq k (length rs)) rs) L))
    = map (fun i => progress_percentage i total) (seq k (length rs)).
Proof.
  induction rs as [|r rs IH]; intros k L st Hst; [done|].
  cbn [length seq zip zip_with scan_left map].
  rewrite (loop_body_insert _ _ _ _ _ _ _ Hst).
  cbn [omap list_omap requests]. rewrite lookup_insert_eq. cbn [fmap option_fmap option_map].
  f_equal. eapply IH. cbn [requests]. apply lookup_insert_eq.
Qed.

(** The assignments of a call, spelled out. *)
Lemma progress_writes_sorted env reqs rid batch tick sorted :
  _sort_resources_by_dependencies env batch = Some (Ok sorted) ->
  progress_writes env reqs rid batch tick
  = match reqs !! rid with None => [0%Q] | Some _ => [] end
    ++ map (fun i => progress_percentage i (length sorted))
         (seq 0 (length sorted))
    ++ [100%Q].
Proof.
  intros Hsort. unfold progress_writes.
  destruct (init_request_lookup env rid reqs tick) as (st0 & Hst0 & Hcase).
  destruct (init_request env rid reqs tick) as [reqs0 tick0] eqn:Hinit.
  simpl in Hst0. rewrite Hsort. f_equal.
  - destruct (reqs !! rid); [done|]. destruct Hcase as [-> _].
    by rewrite Hst0.
  - rewrite omap_app. f_equal.
    + unfold enumerate. by erewrite scan_progress.
    + unfold run_loop, enumerate.
      edestruct (loop_from env rid (length sorted) sorted 0
                   {| requests := reqs0; provisioned_resources := [];
                      clock := tick0 |} st0 Hst0) as [p ->].
      cbn [requests]. rewrite finish_insert. simpl.
      by rewrite lookup_insert_eq.
Qed.

Lemma progress_writes_unsorted env reqs rid batch tick :
  (forall sorted,
     _sort_resources_by_dependencies env batch <> Some (Ok sorted)) ->
  progress_writes env reqs rid batch tick
  = match reqs !! rid with None => [0%Q] | Some _ => [] end.
Proof.
  intros Hsort. unfold progress_writes.
  destruct (init_request_lookup env rid reqs tick) as (st0 & Hst0 & Hcase).
  destruct (init_request env rid reqs tick) as [reqs0 tick0] eqn:Hinit.
  simpl in Hst0.
  assert (Hc : match reqs !! rid with
               | None => option_list (progress <$> reqs0 !! rid)
               | Some _ => []
               end
               = match reqs !! rid with None => [0%Q] | Some _ => [] end).
  { destruct (reqs !! rid); [done|]. destruct Hcase as [-> _].
    by rewrite Hst0. }
  destruct (_sort_resources_by_dependencies env batch) as [[sorted|e]|];
    [by destruct (Hsort sorted)|done..].
Qed.

(** C7. The values assigned to the progress field during a call never
    decrease: each is at most every later one; and when the call gets to its
    end, which it does for every batch without dependency cycle, whether or
    not resources failed, the last value assigned, which is the stored one,
    is exactly 100. *)
Theorem progress_never_decreases env reqs rid batch tick :
  StronglySorted Qle (progress_writes env reqs rid batch tick) /\
  (~ cyclic batch ->
     last (progress_writes env reqs rid batch tick) = Some 100%Q /\
     exists result reqs' tick' st',
       provision_resources env reqs rid batch tick
       = Some (Ok result, reqs', tick') /\
       reqs' !! rid = Some st' /\ progress st' = 100%Q).
Proof.
  split.
  - destruct (_sort_resources_by_dependencies env batch) as [[sorted|e]|] eqn:E.
    2,3: rewrite progress_writes_unsorted by (intros ?; congruence);
         destruct (reqs !! rid); repeat constructor.
    rewrite (progress_writes_sorted _ _ _ _ _ _ E).
    apply StronglySorted_app_2.
    + intros x y Hx Hy. destruct (reqs !! rid); [by apply elem_of_nil in Hx|].
      apply list_elem_of_singleton in Hx as ->.
      apply elem_of_app in Hy as [(i & -> & _)%list_elem_of_fmap
                                 | ->%list_elem_of_singleton];
        [apply progress_nonneg|done].
    + destruct (reqs !! rid); repeat constructor.
    + apply StronglySorted_app_2.
      * intros x y (i & -> & Hi)%list_elem_of_fmap ->%list_elem_of_singleton.
        apply progress_le_100. apply list_elem_of_In, in_seq in Hi. lia.
      * apply (StronglySorted_fmap _ le); [|apply StronglySorted_seq].
        intros i j. apply progress_mono.
      * repeat constructor.
  - intros Hacyc.
    destruct (sort_acyclic env batch Hacyc) as (sorted & Hsort & _). split.
    + rewrite (progress_writes_sorted _ _ _ _ _ _ Hsort).
      by rewrite !app_assoc, last_snoc.
    + destruct (provision_appends env reqs rid batch tick sorted Hsort)
        as (result & reqs' & tick' & st' & recorded & H1 & H2 & H3 & H4 & _).
      eauto 8.
Qed.

(** The theorem at the batch web, cluster, disk for a new request. *)
Lemma progress_never_decreases_witness :
  StronglySorted Qle (progress_writes fixed_env ∅ "req-1" mixed_batch 0) /\
  last (progress_writes fixed_env ∅ "req-1" mixed_batch 0) = Some 100%Q /\
  exists result reqs' tick' st',
    provision_resources fixed_env ∅ "req-1" mixed_batch 0
    = Some (Ok result, reqs', tick') /\
    reqs' !! "req-1" = Some st' /\ progress st' = 100%Q.
Proof.
  destruct (progress_never_decreases fixed_env ∅ "req-1" mixed_batch 0)
    as [Hsorted Hlast].
  split; [exact Hsorted|].
  exact (Hlast (sort_Ok_acyclic fixed_env mixed_batch _ eq_refl)).
Defined.

(** *** Repeated calls *)

(** C3 (amended). A second call for the same request_id on the same
    provisioner runs the provisioning again and appends: for batches without
    dependency cycle, the stored outcome list is the list the first call
    left followed by the outcomes of the second call, status and progress
    are written again ("completed", 100), and the timestamps of the first
    call stay. *)
Theorem second_call_appends env reqs rid batch1 batch2 tick :
  ~ cyclic batch1 -> ~ cyclic batch2 ->
  exists sorted2 r1 reqs1 tick1 st1 r2 reqs2 tick2 st2,
    _sort_resources_by_dependencies env batch2 = Some (Ok sorted2) /\
    provision_resources env reqs rid batch1 tick = Some (Ok r1, reqs1, tick1) /\
    reqs1 !! rid = Some st1 /\
    provision_resources env reqs1 rid batch2 tick1
    = Some (Ok r2, reqs2, tick2) /\
    reqs2 !! rid = Some st2 /\
    resources st2
    = resources st1 ++ map outcome_of (attempts env sorted2 tick1) /\
    length (resources st2) = length (resources st1) + length sorted2 /\
    status st2 = "completed" /\ progress st2 = 100%Q /\
    started_at st2 = started_at st1 /\
    estimated_completion st2 = estimated_completion st1.
Proof.
  intros Hacyc1 Hacyc2.
  destruct (sort_acyclic env batch1 Hacyc1) as (sorted1 & Hsort1 & _).
  destruct (sort_acyclic env batch2 Hacyc2) as (sorted2 & Hsort2 & _).
  destruct (provision_sorted env reqs rid batch1 tick sorted1 Hsort1)
    as (st0 & Hst0 & H1).
  set (tick0 := (init_request env rid reqs tick).2) in *.
  set (st1 := completed st0 (map outcome_of (attempts env sorted1 tick0))) in *.
  set (reqs1 := <[rid := st1]> (init_request env rid reqs tick).1) in *.
  set (tick1 := clock_after env sorted1 tick0) in *.
  assert (Hst1 : reqs1 !! rid = Some st1) by apply lookup_insert_eq.
  assert (Hinit : init_request env rid reqs1 tick1 = (reqs1, tick1))
    by (unfold init_request; by rewrite Hst1).
  destruct (provision_sorted env reqs1 rid batch2 tick1 sorted2 Hsort2)
    as (st1' & Hst1' & H2).
  rewrite Hinit in Hst1', H2. simpl in Hst1', H2.
  rewrite Hst1 in Hst1'. injection Hst1' as <-.
  eexists sorted2, _, reqs1, tick1, st1, _, _, _, _.
  split; [exact Hsort2|].
  split; [exact H1|]. split; [exact Hst1|]. split; [exact H2|].
  split; [apply lookup_insert_eq|]. simpl.
  repeat split. by rewrite length_app, length_map, length_attempts.
Qed.

(** Two calls for "req-1" with the batch of one compute resource. *)
Lemma second_call_appends_witness :
  exists sorted2 r1 reqs1 tick1 st1 r2 reqs2 tick2 st2,
    _sort_resources_by_dependencies fixed_env single_batch
    = Some (Ok sorted2) /\
    provision_resources fixed_env ∅ "req-1" single_batch 0
    = Some (Ok r1, reqs1, tick1) /\
    reqs1 !! "req-1" = Some st1 /\
    provision_resources fixed_env reqs1 "req-1" single_batch tick1
    = Some (Ok r2, reqs2, tick2) /\
    reqs2 !! "req-1" = Some st2 /\
    resources st2
    = resources st1 ++ map outcome_of (attempts fixed_env sorted2 tick1) /\
    length (resources st2) = length (resources st1) + length sorted2 /\
    status st2 = "completed" /\ progress st2 = 100%Q /\
    started_at st2 = started_at st1 /\
    estimated_completion st2 = estimated_completion st1.
Proof.
  exact (second_call_appends fixed_env ∅ "req-1" single_batch single_batch 0
           (sort_Ok_acyclic fixed_env single_batch _ eq_refl)
           (sort_Ok_acyclic fixed_env single_batch _ eq_refl)).
Defined.

(** C3 as stated fails: after two calls for "req-1" with one compute
    resource the entry holds two outcomes, not just the one of the second
    call. *)
Lemma second_call_does_not_overwrite :
  ~ (forall env reqs rid batch tick sorted r1 reqs1 tick1 r2 reqs2 tick2 st2,
       _sort_resources_by_dependencies env batch = Some (Ok sorted) ->
       provision_resources env reqs rid batch tick
       = Some (Ok r1, reqs1, tick1) ->
       provision_resources env reqs1 rid batch tick1
       = Some (Ok r2, reqs2, tick2) ->
       reqs2 !! rid = Some st2 ->
       resources st2 = map outcome_of (attempts env sorted tick1)).
Proof.
  intros Hclaim.
  destruct (provision_appends fixed_env ∅ "req-1" single_batch 0 _
              (sort_single_batch fixed_env))
    as (r1 & reqs1 & tick1 & st1 & rec1 & H1 & Hst1 & _ & _ & Hres1 & -> & _).
  destruct (provision_appends fixed_env reqs1 "req-1" single_batch tick1 _
              (sort_single_batch fixed_env))
    as (r2 & reqs2 & tick2 & st2 & rec2 & H2 & Hst2 & _ & _ & Hres2 & -> & _).
  pose proof (Hclaim fixed_env ∅ "req-1" single_batch 0 _ r1 reqs1 tick1
                r2 reqs2 tick2 st2 (sort_single_batch fixed_env) H1 H2 Hst2)
    as Hbad.
  rewrite Hst1 in Hres2. rewrite Hres2, Hres1 in Hbad.
  apply (f_equal length) in Hbad.
  rewrite !length_app, !length_map, !length_attempts in Hbad.
  simpl in Hbad. lia.
Qed.

(** *** Cycles *)

Lemma cycle_batch_cyclic : cyclic cycle_batch.
Proof.
  exists "X". apply tc_l with "Y"; [|apply tc_once].
  - exists (resource COMPUTE "X" (Some ["Y"])), ["Y"].
    repeat split; [apply list_elem_of_here|apply list_elem_of_here|].
    apply list_elem_of_further, list_elem_of_here.
  - exists (resource COMPUTE "Y" (Some ["X"])), ["X"].
    repeat split;
      [apply list_elem_of_further, list_elem_of_here
      |apply list_elem_of_here..].
Qed.

(** C4 (amended). A call whose batch has a dependency cycle raises the
    error "Circular dependency detected for x" for a resource x that lies on
    a cycle, before anything is provisioned: no identifier is drawn and no
    outcome is recorded. The entries of other requests are untouched; the
    entry of the request itself stays as it was if it existed, and otherwise
    is the one the call created before ordering the batch: status
    "in_progress", progress 0, no outcomes. *)
Theorem cycle_aborts_before_provisioning env reqs rid batch tick :
  cyclic batch ->
  exists x reqs' tick',
    provision_resources env reqs rid batch tick
    = Some (Raise (ValueError ("Circular dependency detected for " +:+ x)),
            reqs', tick') /\
    tc (depends_on batch) x x /\
    (forall other, other <> rid -> reqs' !! other = reqs !! other) /\
    match reqs !! rid with
    | Some st => reqs' = reqs /\ tick' = tick
    | None =>
        tick' = tick + 2 /\
        exists st', reqs' !! rid = Some st' /\
                    status st' = "in_progress" /\ progress st' = 0%Q /\
                    resources st' = []
    end.
Proof.
  intros Hcyc. destruct (sort_cyclic env batch Hcyc) as (x & Hsort & Hx).
  unfold provision_resources, init_request. rewrite Hsort.
  destruct (reqs !! rid) as [st|] eqn:E.
  - by exists x, reqs, tick.
  - exists x. eexists _, _. split; [reflexivity|]. split; [exact Hx|].
    split; [intros other Hne; by rewrite lookup_insert_ne|].
    split; [done|]. exists (new_request env tick).
    by rewrite lookup_insert_eq.
Qed.

(** The amended claim at X depending on Y and Y on X, for a new request. *)
Lemma cycle_aborts_before_provisioning_witness :
  exists x reqs' tick',
    provision_resources fixed_env ∅ "req-1" cycle_batch 0
    = Some (Raise (ValueError ("Circular dependency detected for " +:+ x)),
            reqs', tick') /\
    tc (depends_on cycle_batch) x x /\
    (forall other, other <> "req-1" ->
                   reqs' !! other = (∅ : gmap string RequestState) !! other) /\
    match (∅ : gmap string RequestState) !! "req-1" with
    | Some st => reqs' = ∅ /\ tick' = 0
    | None =>
        tick' = 0 + 2 /\
        exists st', reqs' !! "req-1" = Some st' /\
                    status st' = "in_progress" /\ progress st' = 0%Q /\
                    resources st' = []
    end.
Proof.
  exact (cycle_aborts_before_provisioning fixed_env ∅ "req-1" cycle_batch 0
           cycle_batch_cyclic).
Defined.

(** C4 as stated fails: a new request with the batch X, Y is left in the
    store with status "in_progress", neither absent as before the call nor
    marked failed. *)
Lemma cycle_leaves_request_in_progress :
  ~ (forall env reqs rid batch tick,
       cyclic batch ->
       exists e reqs' tick',
         provision_resources env reqs rid batch tick
         = Some (Raise e, reqs', tick') /\
         (reqs' !! rid = reqs !! rid \/
          exists st', reqs' !! rid = Some st' /\ status st' = "failed") /\
         (forall st', reqs' !! rid = Some st' -> status st' <> "in_progress")).
Proof.
  intros Hclaim.
  destruct (Hclaim fixed_env ∅ "req-1" cycle_batch 0 cycle_batch_cyclic)
    as (e & reqs' & tick' & Hcall & _ & Hnot).
  destruct (sort_cyclic fixed_env cycle_batch cycle_batch_cyclic)
    as (x & Hsort & _).
  unfold provision_resources in Hcall.
  rewrite init_request_empty, Hsort in Hcall. injection Hcall as _ <- _.
  apply (Hnot (new_request fixed_env 0)); [apply lookup_insert_eq|done].
Qed.

End ProvisionFacts.

(** ** The routes *)

Module RouterFacts.
Import Schemas Provisioner Scenarios OrderingFacts ProvisionFacts.

(** C2, on the code: the two routes build a provisioner each, so the store
    the provision route fills is gone when the status route looks: whatever
    was provisioned for a request_id, and whether or not that call succeeded,
    the status route answers with the not-found state. *)
Theorem status_after_provision_is_not_found env confirmation tick :
  exists response tick',
    Router.provision_resources env confirmation tick = Some (response, tick') /\
    Router.get_provisioning_status (Router.request_id confirmation)
    = Router.Respond (not_found (Router.request_id confirmation)) /\
    s_status (not_found (Router.request_id confirmation)) = "not_found" /\
    s_resources (not_found (Router.request_id confirmation)) = [].
Proof.
  unfold Router.provision_resources, Router.get_provisioning_status,
    Router.ResourceProvisioner, get_provisioning_status.
  rewrite lookup_empty.
  destruct (sort_returns env (Router.confirmed_resources confirmation))
    as [[sorted|e] Hsort].
  - destruct (provision_sorted env ∅ (Router.request_id confirmation)
                (Router.confirmed_resources confirmation) tick sorted Hsort)
      as (st0 & _ & ->).
    eexists _, _. split; [reflexivity|done].
  - unfold provision_resources. rewrite Hsort.
    destruct (init_request env (Router.request_id confirmation) ∅ tick).
    eexists _, _. split; [reflexivity|done].
Qed.

(** At the request "req-1" for one compute resource the provision route
    answers "success" and the status route "not_found". *)
Lemma status_of_provisioned_request :
  exists result tick',
    Router.provision_resources fixed_env
      {| Router.request_id := "req-1";
         Router.confirmed_resources := single_batch;
         Router.user_id := None; Router.priority := None |} 0
    = Some (Router.Respond
              {| Router.r_request_id := "req-1";
                 Router.r_status := "success";
                 Router.r_provisioned_resources := result;
                 Router.r_message := "Resources provisioned successfully" |},
            tick') /\
    map p_name result = ["web"] /\
    Router.get_provisioning_status "req-1"
    = Router.Respond (not_found "req-1").
Proof.
  eexists _, _. split; [vm_compute; reflexivity|]. split; reflexivity.
Qed.

End RouterFacts.

(** ** The matcher: letter case, captured groups, greedy repetition *)

Module MatcherFacts.
Import PyRe PyReFacts AnalyzerFacts.

(** *** Matching does not depend on the case of the text *)

Lemma ascii_lower_idemp c : ascii_lower (ascii_lower c) = ascii_lower c.
Proof.
  destruct c as [[] [] [] [] [] [] [] []]; reflexivity.
Qed.

Lemma is_space_lower c : is_space (ascii_lower c) = is_space c.
Proof. destruct c as [[] [] [] [] [] [] [] []]; reflexivity. Qed.

Lemma is_digit_lower c : is_digit (ascii_lower c) = is_digit c.
Proof. destruct c as [[] [] [] [] [] [] [] []]; reflexivity. Qed.

Lemma is_digit_fixed c : is_digit c = true -> ascii_lower c = c.
Proof.
  destruct c as [[] [] [] [] [] [] [] []]; (reflexivity || discriminate).
Qed.

Lemma is_space_not_digit c : is_space c = true -> is_digit c = false.
Proof.
  destruct c as [[] [] [] [] [] [] [] []]; (reflexivity || discriminate).
Qed.

Lemma atom_ok_lower a c : atom_ok a (ascii_lower c) = atom_ok a c.
Proof.
  destruct a; simpl.
  - by rewrite ascii_lower_idemp.
  - apply is_space_lower.
  - apply is_digit_lower.
Qed.

(** Matching the text in lower case gives the same answer, with the
    captures in lower case. *)
Lemma many_lower a s : forall cs (k k' : kont),
  (forall s cs, k' (map ascii_lower s) (lower_captures cs)
                = lower_captures <$> k s cs) ->
  many a (map ascii_lower s) (lower_captures cs) k'
  = lower_captures <$> many a s cs k.
Proof.
  induction s as [|c s IH]; intros cs k k' Hk; simpl.
  - apply (Hk []).
  - rewrite atom_ok_lower. destruct (atom_ok a c); [|apply (Hk (c :: s))].
    rewrite (IH cs k k' Hk). destruct (many a s cs k); [reflexivity|].
    apply (Hk (c :: s)).
Qed.

Lemma rmatch_lower r : forall s cs (k k' : kont),
  (forall s cs, k' (map ascii_lower s) (lower_captures cs)
                = lower_captures <$> k s cs) ->
  rmatch r (map ascii_lower s) (lower_captures cs) k'
  = lower_captures <$> rmatch r s cs k.
Proof.
  induction r as [ | a | a | a | r IH | r1 IH1 r2 IH2 | r1 IH1 r2 IH2
                 | n r IH ];
    intros s cs k k' Hk; simpl.
  - apply Hk.
  - destruct s as [|c s]; simpl; [reflexivity|].
    rewrite atom_ok_lower. destruct (atom_ok a c); [apply Hk|reflexivity].
  - by apply many_lower.
  - destruct s as [|c s]; simpl; [reflexivity|].
    rewrite atom_ok_lower. destruct (atom_ok a c); [|reflexivity].
    by apply many_lower.
  - rewrite (IH s cs k k' Hk).
    destruct (rmatch r s cs k); [reflexivity|apply Hk].
  - apply IH1. intros s' cs'. by apply IH2.
  - rewrite (IH1 s cs k k' Hk). destruct (rmatch r1 s cs k); [reflexivity|].
    by apply IH2.
  - apply IH. intros s' cs'.
    rewrite !length_map, firstn_map. apply (Hk s' ((n, _) :: cs')).
Qed.

Lemma search_chars_lower r s :
  search_chars r (map ascii_lower s) = lower_captures <$> search_chars r s.
Proof.
  assert (Hstep : forall s,
             rmatch r (map ascii_lower s) [] (fun _ cs => Some cs)
             = lower_captures <$> rmatch r s [] (fun _ cs => Some cs)).
  { intros s'. by apply (rmatch_lower r s' []). }
  induction s as [|c s IH].
  - specialize (Hstep []). simpl in *.
    destruct (rmatch r [] [] _); [exact Hstep|reflexivity].
  - specialize (Hstep (c :: s)). simpl in *. rewrite Hstep.
    destruct (rmatch r (c :: s) [] _); [reflexivity|exact IH].
Qed.

Lemma search_lower r text :
  search r (lower text) = lower_captures <$> search r text.
Proof.
  unfold search, lower. rewrite list_ascii_of_string_of_list_ascii.
  apply search_chars_lower.
Qed.

Lemma group_lower n cs : group n (lower_captures cs) = lower (group n cs).
Proof.
  induction cs as [|[i g] cs IH]; simpl; [reflexivity|].
  destruct (Nat.eqb i n); [|exact IH].
  unfold lower. by rewrite list_ascii_of_string_of_list_ascii.
Qed.

Lemma lower_idemp s : lower (lower s) = lower s.
Proof.
  unfold lower. rewrite list_ascii_of_string_of_list_ascii, map_map.
  f_equal. apply map_ext. intros c. apply ascii_lower_idemp.
Qed.

(** *** What the groups capture *)

(** A match extends the captures by texts its groups matched. *)
Lemma rmatch_captures (P : nat -> list ascii -> Prop) r :
  groups_ok P r ->
  forall s cs (k : kont) res,
    rmatch r s cs k = Some res -> captures_ok P cs ->
    exists s1 s2 cs',
      s = s1 ++ s2 /\ Matches r s1 /\ captures_ok P cs' /\
      k s2 cs' = Some res.
Proof.
  induction r as [ | a | a | a | r IH | r1 IH1 r2 IH2 | r1 IH1 r2 IH2
                 | n r IH ];
    intros Hg s cs k res H Hcs; simpl in H, Hg.
  - exists [], s, cs. repeat split; [constructor|done|done].
  - destruct s as [|c s]; [discriminate|].
    destruct (atom_ok a c) eqn:Hc; [|discriminate].
    exists [c], s, cs. repeat split; [by constructor|done|done].
  - destruct (many_sound _ _ _ _ _ H) as (s1 & s2 & -> & Hs1 & Hk). eauto 8.
  - destruct s as [|c s]; [discriminate|].
    destruct (atom_ok a c) eqn:Hc; [|discriminate].
    destruct (many_sound _ _ _ _ _ H) as (s1 & s2 & -> & Hs1 & Hk).
    exists (c :: s1), s2, cs. repeat split; [by constructor|done|done].
  - destruct (rmatch r s cs k) as [res'|] eqn:Hr.
    + destruct (IH Hg _ _ _ _ Hr Hcs)
        as (s1 & s2 & cs' & -> & Hs1 & Hcs' & Hk).
      exists s1, s2, cs'. repeat split; [by constructor|done|congruence].
    + exists [], s, cs. repeat split; [constructor|done|done].
  - destruct Hg as [Hg1 Hg2].
    destruct (IH1 Hg1 _ _ _ _ H Hcs)
      as (s1 & s2 & cs' & -> & Hs1 & Hcs' & Hk).
    destruct (IH2 Hg2 _ _ _ _ Hk Hcs')
      as (s3 & s4 & cs'' & -> & Hs3 & Hcs'' & Hk').
    exists (s1 ++ s3), s4, cs''.
    repeat split; [by rewrite app_assoc|by constructor|done|done].
  - destruct Hg as [Hg1 Hg2].
    destruct (rmatch r1 s cs k) as [res'|] eqn:Hr.
    + destruct (IH1 Hg1 _ _ _ _ Hr Hcs)
        as (s1 & s2 & cs' & -> & Hs1 & Hcs' & Hk).
      exists s1, s2, cs'. repeat split; [by apply MAltL|done|congruence].
    + destruct (IH2 Hg2 _ _ _ _ H Hcs)
        as (s1 & s2 & cs' & -> & Hs1 & Hcs' & Hk).
      exists s1, s2, cs'. repeat split; [by apply MAltR|done|done].
  - destruct Hg as [Hn Hg].
    destruct (IH Hg _ _ _ _ H Hcs) as (s1 & s2 & cs' & -> & Hs1 & Hcs' & Hk).
    exists s1, s2, ((n, s1) :: cs'). repeat split; [by constructor| |].
    + constructor; [by apply Hn|done].
    + rewrite length_app, Nat.add_sub, take_app_length in Hk. exact Hk.
Qed.

Lemma search_chars_captures (P : nat -> list ascii -> Prop) r s res :
  groups_ok P r -> search_chars r s = Some res -> captures_ok P res.
Proof.
  intros Hg. induction s as [|c s IH]; simpl.
  - destruct (rmatch r [] [] _) as [res'|] eqn:Hr; [|discriminate].
    intros [= <-].
    destruct (rmatch_captures P r Hg _ _ _ _ Hr)
      as (_ & _ & cs' & _ & _ & Hcs & E); [constructor|congruence].
  - destruct (rmatch r (c :: s) [] _) as [res'|] eqn:Hr; [|exact IH].
    intros [= <-].
    destruct (rmatch_captures P r Hg _ _ _ _ Hr)
      as (_ & _ & cs' & _ & _ & Hcs & E); [constructor|congruence].
Qed.

Lemma group_captured (P : nat -> list ascii -> Prop) n cs :
  captures_ok P cs -> P n [] ->
  exists g, group n cs = string_of_list_ascii g /\ P n g.
Proof.
  intros Hcs Hnil. induction Hcs as [|[i g] cs Hg _ IH]; simpl.
  - by exists [].
  - destruct (Nat.eqb i n) eqn:E; [|exact IH].
    apply Nat.eqb_eq in E as ->. by exists g.
Qed.

Lemma groups_ok_word (P : nat -> list ascii -> Prop) w : groups_ok P (word w).
Proof. induction w; simpl; auto. Qed.

Lemma Matches_many_atoms a m :
  Matches (Many a) m -> Forall (fun c => atom_ok a c = true) m.
Proof.
  remember (Many a) as r eqn:Er. induction 1; try discriminate.
  - constructor.
  - injection Er as ->. constructor; auto.
Qed.

Lemma Matches_many1_atoms a m :
  Matches (Many1 a) m -> Forall (fun c => atom_ok a c = true) m.
Proof.
  inversion 1; subst. constructor; [done|]. by apply Matches_many_atoms.
Qed.

(** *** Greedy repetition *)

(** A repetition first tries to take all of a run of matching characters. *)
Lemma many_greedy a xs tail cs (k : kont) res :
  Forall (fun c => atom_ok a c = true) xs ->
  many a tail cs k = Some res -> many a (xs ++ tail) cs k = Some res.
Proof.
  induction 1 as [|c xs Hc _ IH]; simpl; [done|].
  intros H. by rewrite Hc, (IH H).
Qed.

Lemma many_stop a tail cs (k : kont) :
  (forall c t, tail = c :: t -> atom_ok a c = false) ->
  many a tail cs k = k tail cs.
Proof.
  destruct tail as [|c t]; simpl; [done|]. intros H. by rewrite (H c t).
Qed.

Lemma search_chars_hit r s cs :
  rmatch r s [] (fun _ cs => Some cs) = Some cs -> search_chars r s = Some cs.
Proof. intros H. destruct s; simpl; by rewrite H. Qed.

Lemma search_chars_skip r pre rest :
  Forall (fun c => forall s, rmatch r (c :: s) [] (fun _ cs => Some cs) = None)
    pre ->
  search_chars r (pre ++ rest) = search_chars r rest.
Proof. induction 1 as [|c pre Hc _ IH]; simpl; [done|]. by rewrite Hc. Qed.

Lemma take_app_sub {A} (l1 l2 : list A) :
  take (length (l1 ++ l2) - length l2) (l1 ++ l2) = l1.
Proof. by rewrite length_app, Nat.add_sub, take_app_length. Qed.

(** *** Alternatives and literal words *)

Lemma Matches_alts r rs m :
  Matches (alts r rs) m <-> exists r', r' ∈ r :: rs /\ Matches r' m.
Proof.
  revert r. induction rs as [|r2 rs IH]; intros r; simpl.
  - split; [intros H; exists r; split; [left|done]|].
    intros (r' & Hin & H). apply list_elem_of_singleton in Hin. by subst.
  - split.
    + inversion 1; subst.
      * exists r. split; [left|done].
      * apply IH in H3 as (r' & Hin & H'). exists r'.
        split; [by right|done].
    + intros (r' & Hin & H). apply elem_of_cons in Hin as [->|Hin].
      * by apply MAltL.
      * apply MAltR, IH. eauto.
Qed.

Lemma Matches_word w : forall l, Matches (word w) l <-> spells w l.
Proof.
  split; [|apply spells_word]. revert l. unfold spells.
  induction w as [|c w IH]; intros l H; simpl in *.
  - by inversion H.
  - inversion H as [| | | | | | |r1 r2 s1 s2 H1 H2| | |]; subst.
    inversion H1 as [|a x Hx| | | | | | | | |]; subst. simpl in *.
    apply bool_decide_eq_true in Hx. rewrite Hx. f_equal. by apply IH.
Qed.

(** *** Patterns that need a letter or a digit *)

Lemma atom_alnum a x :
  atom_ok a x = true ->
  match a with
  | Chr c => is_alnum c
  | Digit => true
  | Space => false
  end = true ->
  is_alnum x = true.
Proof.
  destruct a as [c'| |]; simpl; [|discriminate|].
  - intros E%bool_decide_eq_true. unfold is_alnum. by rewrite E.
  - intros H _. revert H.
    destruct x as [[] [] [] [] [] [] [] []]; (reflexivity || discriminate).
Qed.

Lemma needs_alnum_sound r m :
  Matches r m -> needs_alnum r = true ->
  Exists (fun c => is_alnum c = true) m.
Proof.
  induction 1 as [ | a c Hc | a | a c s Hc _ _ | a c s Hc _ _ | r
                 | r s _ _ | r1 r2 s1 s2 _ IH1 _ IH2 | r1 r2 s _ IH
                 | r1 r2 s _ IH | n r s _ IH ]; simpl; try discriminate.
  - intros H. constructor. apply (atom_alnum a c Hc). by destruct a.
  - intros H. constructor. apply (atom_alnum a c Hc). by destruct a.
  - intros [H|H]%orb_true_iff; apply Exists_app; auto.
  - intros [H _]%andb_true_iff. auto.
  - intros [_ H]%andb_true_iff. auto.
  - auto.
Qed.

(** A pattern all of whose matches contain a letter or a digit does not
    occur in a text without letters and digits. *)
Lemma plain_text_search r text :
  needs_alnum r = true ->
  Forall (fun c => is_alnum c = false) (list_ascii_of_string text) ->
  search r text = None.
Proof.
  intros Hr Hplain. apply search_None. intros (pre & m & post & E & Hm).
  apply (needs_alnum_sound r m Hm) in Hr.
  rewrite E in Hplain. apply Forall_app in Hplain as [_ Hplain].
  apply Forall_app in Hplain as [Hplain _].
  apply Exists_exists in Hr as (c & Hc & Hal).
  eapply Forall_forall in Hplain; [|exact Hc]. congruence.
Qed.

End MatcherFacts.

(** ** Extraction of the signals *)

Module ExtractionFacts.
Import PyRe Schemas Analyzer Scenarios PyReFacts AnalyzerFacts MatcherFacts.

Lemma list_ascii_of_string_app s1 s2 :
  list_ascii_of_string (s1 +:+ s2)
  = list_ascii_of_string s1 ++ list_ascii_of_string s2.
Proof. induction s1 as [|c s1 IH]; simpl; [reflexivity|by rewrite IH]. Qed.

Lemma string_of_list_ascii_app l1 l2 :
  string_of_list_ascii (l1 ++ l2)
  = string_of_list_ascii l1 +:+ string_of_list_ascii l2.
Proof. induction l1 as [|c l1 IH]; simpl; [reflexivity|by rewrite IH]. Qed.

Lemma lower_app s1 s2 : lower (s1 +:+ s2) = lower s1 +:+ lower s2.
Proof.
  unfold lower.
  by rewrite list_ascii_of_string_app, map_app, string_of_list_ascii_app.
Qed.

Lemma lower_join parts :
  lower (join " " parts) = join " " (map lower parts).
Proof.
  induction parts as [|p [|q parts] IH]; [reflexivity..|].
  change (join " " (p :: q :: parts))
    with (p +:+ " " +:+ join " " (q :: parts)).
  rewrite !lower_app, IH. reflexivity.
Qed.

Lemma lower_combined_text conversation :
  lower (combined_text conversation)
  = join " " (map (fun m => lower (content m)) conversation).
Proof. unfold combined_text. by rewrite lower_join, map_map. Qed.

Lemma found_lower r text : found r (lower text) = found r text.
Proof. unfold found. rewrite search_lower. by destruct (search r text). Qed.

Lemma first_match_lower patterns text :
  first_match patterns (lower text) = first_match patterns text.
Proof.
  induction patterns as [|[r v] rest IH]; simpl; [reflexivity|].
  rewrite search_lower. destruct (search r text); [reflexivity|exact IH].
Qed.

Lemma extract_database_needs_lower text :
  extract_database_needs (lower text) = extract_database_needs text.
Proof. unfold extract_database_needs. by rewrite !found_lower. Qed.

Lemma lower_digits g :
  Forall (fun c => is_digit c = true) g -> map ascii_lower g = g.
Proof.
  induction 1 as [|c g Hc _ IH]; simpl; [reflexivity|].
  by rewrite IH, is_digit_fixed.
Qed.

Lemma group_digits r text cs :
  groups_ok digits_first r -> search r text = Some cs ->
  lower (group 1 cs) = group 1 cs.
Proof.
  intros Hg H. apply (search_chars_captures digits_first) in H; [|exact Hg].
  destruct (group_captured digits_first 1 cs H) as (g & -> & Hd);
    [intros _; constructor|].
  unfold lower. rewrite list_ascii_of_string_of_list_ascii.
  by rewrite lower_digits by by apply Hd.
Qed.

Lemma storage_groups : groups_ok digits_first storage_pattern.
Proof.
  unfold storage_pattern. cbn [seqs alts groups_ok]. split; [split; [|done]|].
  - intros m Hm _. by apply Matches_many1_atoms in Hm.
  - split; [done|]. split; [intros ? ? [=]|].
    repeat match goal with |- _ /\ _ => split end; apply groups_ok_word.
Qed.

Lemma budget_groups : groups_ok digits_first budget_pattern.
Proof.
  unfold budget_pattern. cbn [seqs alts groups_ok].
  repeat match goal with |- _ /\ _ => split end;
    try exact I; try apply groups_ok_word.
  intros m Hm _. by apply Matches_many1_atoms in Hm.
Qed.

Lemma extract_storage_requirements_lower text :
  extract_storage_requirements (lower text)
  = extract_storage_requirements text.
Proof.
  unfold extract_storage_requirements. rewrite search_lower.
  destruct (search storage_pattern text) as [cs|] eqn:E; [|reflexivity].
  simpl. rewrite !group_lower, lower_idemp.
  by rewrite (group_digits _ _ _ storage_groups E).
Qed.

Lemma extract_budget_constraints_lower text :
  extract_budget_constraints (lower text) = extract_budget_constraints text.
Proof.
  unfold extract_budget_constraints. rewrite search_lower.
  destruct (search budget_pattern text) as [cs|] eqn:E; [|reflexivity].
  simpl. rewrite group_lower.
  by rewrite (group_digits _ _ _ budget_groups E).
Qed.

(** X1. Extraction does not depend on the case of the letters: two
    conversations whose messages agree up to case give the same signals. *)
Theorem extraction_ignores_case conversation1 conversation2 :
  map (fun m => lower (content m)) conversation1
  = map (fun m => lower (content m)) conversation2 ->
  _extract_information conversation1 = _extract_information conversation2.
Proof.
  intros H.
  assert (Ht : lower (combined_text conversation1)
               = lower (combined_text conversation2))
    by (by rewrite !lower_combined_text, H).
  unfold _extract_information.
  set (t1 := combined_text conversation1) in *.
  set (t2 := combined_text conversation2) in *.
  rewrite <- (first_match_lower website_patterns t1),
    <- (first_match_lower traffic_patterns t1),
    <- (first_match_lower region_patterns t1),
    <- (extract_database_needs_lower t1),
    <- (extract_storage_requirements_lower t1),
    <- (extract_budget_constraints_lower t1),
    <- (found_lower availability_pattern t1),
    <- (found_lower scaling_pattern t1), Ht.
  by rewrite !first_match_lower, extract_database_needs_lower,
    extract_storage_requirements_lower, extract_budget_constraints_lower,
    !found_lower.
Qed.

(** "I need a STATIC Website with 2 TB ..." and the same in lower case. *)
Lemma extraction_ignores_case_witness :
  _extract_information shouted_conversation
  = _extract_information quiet_conversation /\
  storage_requirements (_extract_information shouted_conversation)
  = Some 2048%Z.
Proof.
  split; [|vm_compute; reflexivity].
  apply (extraction_ignores_case shouted_conversation quiet_conversation).
  reflexivity.
Defined.

(** *** Keywords *)

Lemma mentions_occurs w text : mentions w text <-> Occurs (word w) text.
Proof.
  unfold mentions, Occurs.
  split; intros (pre & m & post & E & H); exists pre, m, post;
    (split; [exact E|by apply Matches_word]).
Qed.

(** A pattern that is one group of alternative words occurs exactly in the
    texts that mention one of the words. *)
Lemma occurs_keywords n w ws text :
  Occurs (Group n (alts (word w) (map word ws))) text
  <-> exists w', w' ∈ w :: ws /\ mentions w' text.
Proof.
  split.
  - intros (pre & m & post & E & H). inversion H; subst.
    apply Matches_alts in H3 as (r' & Hin & Hm).
    change (word w :: map word ws) with (map word (w :: ws)) in Hin.
    apply list_elem_of_fmap in Hin as (w' & -> & Hin).
    exists w'. split; [done|]. exists pre, m, post. split; [done|].
    by apply Matches_word.
  - intros (w' & Hin & pre & m & post & E & H). exists pre, m, post.
    split; [done|]. constructor. apply Matches_alts. exists (word w').
    split; [|by apply Matches_word].
    change (word w :: map word ws) with (map word (w :: ws)).
    apply list_elem_of_fmap. eauto.
Qed.

Lemma occurs_alternative n r rs r' text :
  r' ∈ r :: rs -> Occurs r' text -> Occurs (Group n (alts r rs)) text.
Proof.
  intros Hin (pre & m & post & E & H). exists pre, m, post. split; [done|].
  constructor. apply Matches_alts. eauto.
Qed.

Lemma found_true r text : found r text = true <-> Occurs r text.
Proof.
  rewrite <- search_iff. unfold found. destruct (search r text).
  - split; eauto.
  - split; [discriminate|intros [? ?]; discriminate].
Qed.

Lemma spells_app w1 w2 m :
  spells (w1 +:+ w2) m ->
  exists m1 m2, m = m1 ++ m2 /\ spells w1 m1 /\ spells w2 m2.
Proof.
  unfold spells. rewrite list_ascii_of_string_app, map_app.
  intros H. apply map_eq_app in H as (m1 & m2 & -> & H1 & H2). eauto.
Qed.

(** A text that mentions a word mentions every word that ends it. *)
Lemma mentions_suffix w1 w2 text :
  mentions (w1 +:+ w2) text -> mentions w2 text.
Proof.
  intros (pre & m & post & E & H).
  apply spells_app in H as (m1 & m2 & -> & H1 & H2).
  exists (pre ++ m1), m2, post. split; [|done]. by rewrite E, <- !app_assoc.
Qed.

(** X2. "nosql" contains "sql", which the relational pattern looks for
    first: a conversation that mentions "nosql" is never classified as
    [nosql], and is classified [relational] as soon as it mentions a
    database; the classification [nosql] is reached only through "mongodb",
    "document" or "key-value", in a text without "sql". *)
Theorem nosql_mention_is_relational conversation :
  let text := combined_text conversation in
  let needs := database_needs (_extract_information conversation) in
  String.length text <= int_max_str_digits ->
  (mentions "nosql" text -> needs <> Some "nosql") /\
  (mentions "nosql" text -> mentions "database" text \/ mentions "db" text ->
   needs = Some "relational") /\
  (needs = Some "nosql" ->
   ~ mentions "sql" text /\
   (mentions "mongodb" text \/ mentions "document" text \/
    mentions "key-value" text)).
Proof.
  intros text needs _. subst needs. unfold _extract_information.
  cbn [database_needs]. fold text. unfold extract_database_needs.
  assert (Hsql : mentions "sql" text -> found relational_pattern text = true).
  { intros H. apply found_true.
    apply (occurs_keywords 1 "sql" ["relational"; "mysql"; "postgresql"]).
    exists "sql". split; [left|done]. }
  assert (Hno : mentions "nosql" text -> mentions "sql" text)
    by apply (mentions_suffix "no" "sql").
  split; [|split].
  - intros H. rewrite (Hsql (Hno H)).
    by destruct (found database_pattern text).
  - intros H Hdb. rewrite (Hsql (Hno H)).
    assert (Hfound : found database_pattern text = true).
    { apply found_true. unfold database_pattern.
      destruct Hdb as [Hdb|Hdb].
      - eapply (occurs_alternative 1 _ _ (word "database")); [left|].
        by apply mentions_occurs.
      - eapply (occurs_alternative 1 _ _ (word "db")); [right; left|].
        by apply mentions_occurs. }
    by rewrite Hfound.
  - destruct (found database_pattern text); [|done].
    destruct (found relational_pattern text) eqn:Hrel; [done|].
    destruct (found nosql_pattern text) eqn:Hnosql; [|done].
    intros _. split.
    + intros H. specialize (Hsql H). congruence.
    + apply found_true in Hnosql.
      apply (occurs_keywords 1 "nosql" ["mongodb"; "document"; "key-value"])
        in Hnosql as (w & Hin & Hw).
      assert (Hnot : ~ mentions "nosql" text).
      { intros H. specialize (Hsql (Hno H)). congruence. }
      apply elem_of_cons in Hin as [->|Hin]; [done|].
      apply elem_of_cons in Hin as [->|Hin]; [by left|].
      apply elem_of_cons in Hin as [->|Hin]; [by right; left|].
      apply list_elem_of_singleton in Hin as ->. by right; right.
Qed.

(** "We want a NoSQL database for the catalogue" asks for a relational
    database. *)
Lemma nosql_mention_is_relational_witness :
  database_needs (_extract_information nosql_conversation) = Some "relational".
Proof.
  destruct (nosql_mention_is_relational nosql_conversation) as (_ & H & _).
  { apply Nat.leb_le. reflexivity. }
  apply H.
  - exists (list_ascii_of_string "We want a "), (list_ascii_of_string "NoSQL"),
      (list_ascii_of_string " database for the catalogue").
    split; reflexivity.
  - left.
    exists (list_ascii_of_string "We want a NoSQL "),
      (list_ascii_of_string "database"),
      (list_ascii_of_string " for the catalogue").
    split; reflexivity.
Defined.

(** X3. The region and availability keywords are looked for anywhere in the
    text, inside words too: a conversation in which the letters "us" occur
    (as in "users" or "business") gets the region "us", whatever other region
    it names, and one in which "ha" occurs (as in "that" or "have") gets high
    availability. *)
Theorem short_keywords_match_inside_words conversation :
  let text := combined_text conversation in
  let info := _extract_information conversation in
  String.length text <= int_max_str_digits ->
  (mentions "us" text -> region_preferences info = Some "us") /\
  (mentions "ha" text -> availability_requirements info = Some "high").
Proof.
  intros text info _. subst info. unfold _extract_information.
  cbn [region_preferences availability_requirements]. fold text. split.
  - intros H. unfold region_patterns. apply first_match_hit.
    eapply (occurs_alternative 1 _ _ (word "us")); [left|].
    by apply mentions_occurs.
  - intros H.
    assert (Hfound : found availability_pattern text = true).
    { apply found_true. unfold availability_pattern.
      eapply (occurs_alternative 1 _ _ (word "ha")); [right; left|].
      by apply mentions_occurs. }
    by rewrite Hfound.
Qed.

(** "Most of our users are in Europe and that is where it should run". *)
Lemma short_keywords_match_inside_words_witness :
  region_preferences (_extract_information europe_conversation) = Some "us" /\
  availability_requirements (_extract_information europe_conversation)
  = Some "high".
Proof.
  destruct (short_keywords_match_inside_words europe_conversation)
    as [Hus Hha].
  { apply Nat.leb_le. reflexivity. }
  split.
  - apply Hus.
    exists (list_ascii_of_string "Most of our "), (list_ascii_of_string "us"),
      (list_ascii_of_string
         "ers are in Europe and that is where it should run").
    split; reflexivity.
  - apply Hha.
    exists (list_ascii_of_string "Most of our users are in Europe and t"),
      (list_ascii_of_string "ha"),
      (list_ascii_of_string "t is where it should run").
    split; reflexivity.
Defined.

(** *** The storage requirement *)

(** The alternative of the unit group that matches a unit in lower case. *)
Lemma rmatch_units u post cs (k : kont) res :
  u ∈ ["gb"; "tb"; "gigabytes"; "terabytes"] ->
  k post cs = Some res ->
  rmatch storage_units (list_ascii_of_string u ++ post) cs k = Some res.
Proof.
  intros Hu Hk.
  repeat (apply elem_of_cons in Hu as [->|Hu]);
    [..|by apply elem_of_nil in Hu]; vm_compute; by rewrite Hk.
Qed.

(** The match of the storage pattern at a number that is followed by
    whitespace and a unit in lower case. *)
Lemma storage_match_at ds sp u post :
  ds <> [] -> Forall (fun c => is_digit c = true) ds ->
  Forall (fun c => is_space c = true) sp ->
  u ∈ ["gb"; "tb"; "gigabytes"; "terabytes"] ->
  rmatch storage_pattern (ds ++ sp ++ list_ascii_of_string u ++ post) []
    (fun _ cs => Some cs)
  = Some [(2, list_ascii_of_string u); (1, ds)].
Proof.
  intros Hne Hds Hsp Hu.
  assert (Hletter : forall c t,
             list_ascii_of_string u ++ post = c :: t ->
             is_digit c = false /\ is_space c = false).
  { intros c t E. repeat (apply elem_of_cons in Hu as [->|Hu]);
      [..|by apply elem_of_nil in Hu]; injection E as <- _; done. }
  destruct ds as [|d ds]; [done|]. inversion Hds as [|? ? Hd Hds']; subst.
  unfold storage_pattern. cbn [seqs]. fold storage_units.
  cbn [rmatch app atom_ok]. rewrite Hd.
  apply many_greedy; [done|]. rewrite many_stop; cycle 1.
  { intros c t E. destruct sp as [|x sp]; simpl in E.
    - by apply Hletter in E as [? _].
    - injection E as <- _. inversion Hsp; subst. by apply is_space_not_digit. }
  apply many_greedy; [done|]. rewrite many_stop; cycle 1.
  { intros c t E. by apply Hletter in E as [_ ?]. }
  apply rmatch_units; [done|].
  change (d :: ds ++ sp ++ list_ascii_of_string u ++ post)
    with ((d :: ds) ++ sp ++ list_ascii_of_string u ++ post).
  by rewrite !take_app_sub.
Qed.

Lemma storage_no_match c s (k : kont) :
  is_digit c = false -> rmatch storage_pattern (c :: s) [] k = None.
Proof.
  intros H. unfold storage_pattern. cbn [seqs rmatch atom_ok]. by rewrite H.
Qed.

Lemma spells_lower w m :
  spells w m -> lower w = w -> map ascii_lower m = list_ascii_of_string w.
Proof.
  unfold spells, lower. intros -> E.
  by rewrite <- E at 2; rewrite list_ascii_of_string_of_list_ascii.
Qed.

(** X4. When the first number of the conversation is followed, after any
    amount of whitespace, by "gb", "tb", "gigabytes" or "terabytes" in any
    case, the storage requirement is that number, as gigabytes: times 1024
    when the unit is "tb" or "terabytes". *)
Theorem storage_amount_and_unit conversation pre ds sp unit post :
  list_ascii_of_string (combined_text conversation)
  = pre ++ ds ++ sp ++ unit ++ post ->
  Forall (fun c => is_digit c = false) pre ->
  ds <> [] -> Forall (fun c => is_digit c = true) ds ->
  length ds <= int_max_str_digits ->
  Forall (fun c => is_space c = true) sp ->
  let amount := int_of_digits (string_of_list_ascii ds) in
  let extracted := storage_requirements (_extract_information conversation) in
  (spells "gb" unit \/ spells "gigabytes" unit -> extracted = Some amount) /\
  (spells "tb" unit \/ spells "terabytes" unit ->
   extracted = Some (amount * 1024)%Z).
Proof.
  intros E Hpre Hne Hds _ Hsp amount extracted. subst extracted.
  unfold _extract_information. cbn [storage_requirements].
  rewrite <- extract_storage_requirements_lower.
  assert (Hsearch : forall u,
             u ∈ ["gb"; "tb"; "gigabytes"; "terabytes"] -> spells u unit ->
             search storage_pattern (lower (combined_text conversation))
             = Some [(2, list_ascii_of_string u); (1, ds)]).
  { intros u Hu Hunit. unfold search, lower.
    rewrite list_ascii_of_string_of_list_ascii, E, !map_app.
    rewrite search_chars_skip; cycle 1.
    { apply Forall_fmap. eapply Forall_impl; [exact Hpre|].
      intros c Hc s. apply storage_no_match. by rewrite is_digit_lower. }
    rewrite (lower_digits ds Hds).
    rewrite (spells_lower u unit Hunit); cycle 1.
    { repeat (apply elem_of_cons in Hu as [->|Hu]);
        [..|by apply elem_of_nil in Hu]; reflexivity. }
    apply search_chars_hit, storage_match_at; try done.
    apply Forall_fmap. eapply Forall_impl; [exact Hsp|].
    intros c Hc. simpl. by rewrite is_space_lower. }
  unfold extract_storage_requirements.
  split; intros [H|H].
  - rewrite (Hsearch "gb") by (done || set_solver). reflexivity.
  - rewrite (Hsearch "gigabytes") by (done || set_solver). reflexivity.
  - rewrite (Hsearch "tb") by (done || set_solver). reflexivity.
  - rewrite (Hsearch "terabytes") by (done || set_solver). reflexivity.
Qed.

(** "12  TB" after a text without digits is 12288 GB. *)
Lemma storage_amount_and_unit_witness :
  storage_requirements (_extract_information terabyte_conversation)
  = Some 12288%Z.
Proof.
  destruct (storage_amount_and_unit terabyte_conversation
              (list_ascii_of_string "The archive holds about  ")
              (list_ascii_of_string "12") (list_ascii_of_string "  ")
              (list_ascii_of_string "TB") (list_ascii_of_string " of scans"))
    as [_ H].
  - reflexivity.
  - repeat constructor.
  - discriminate.
  - repeat constructor.
  - apply Nat.leb_le. reflexivity.
  - repeat constructor.
  - apply H. left. reflexivity.
Defined.

(** *** Conversations without letters and digits *)

Lemma plain_text_first_match patterns text :
  forallb (fun p => needs_alnum (fst p)) patterns = true ->
  Forall (fun c => is_alnum c = false) (list_ascii_of_string text) ->
  first_match patterns text = None.
Proof.
  intros Hps Hplain. induction patterns as [|[r v] rest IH]; [done|].
  simpl in Hps. apply andb_true_iff in Hps as [Hr Hrest]. simpl.
  rewrite plain_text_search by done. by apply IH.
Qed.

Local Open Scope Z_scope.

(** X5. A conversation without any letter or digit (the empty conversation,
    empty messages, punctuation) yields no signal at all, and the analysis
    answers with the four baseline recommendations: one VM.Standard.E4.Flex
    instance with 1 OCPU and 8 GB, the network, a block volume of 50 GB and
    the bucket. *)
Theorem plain_conversation_gets_the_baseline conversation :
  Forall (fun c => is_alnum c = false)
    (list_ascii_of_string (combined_text conversation)) ->
  _extract_information conversation = no_signals /\
  exists web vcn vol,
    analyze_requirements conversation = Ok [web; vcn; vol; bucket_resource] /\
    name web = "WebServer" /\
    specifications web
    = [("shape", PStr "VM.Standard.E4.Flex"); ("ocpus", PInt 1);
       ("memory_in_gbs", PInt 8); ("instance_count", PInt 1);
       ("image_id", PStr "Oracle-Linux-8.6-2022.05.31-0")] /\
    name vcn = "WebsiteVCN" /\
    name vol = "WebsiteStorage" /\
    dict_get "size_in_gbs" (specifications vol) = Some (PInt 50).
Proof.
  intros Hplain.
  assert (Hinfo : _extract_information conversation = no_signals).
  { unfold _extract_information, extract_database_needs,
      extract_storage_requirements, extract_budget_constraints, found.
    rewrite !plain_text_first_match by done.
    by rewrite !plain_text_search by done. }
  split; [exact Hinfo|].
  unfold analyze_requirements. rewrite Hinfo.
  eexists _, _, _. split; [reflexivity|]. repeat split.
Qed.

(** Three messages of punctuation. *)
Lemma plain_conversation_gets_the_baseline_witness :
  exists recs,
    analyze_requirements silent_conversation = Ok recs /\
    map name recs
    = ["WebServer"; "WebsiteVCN"; "WebsiteStorage"; "WebsiteBucket"].
Proof.
  destruct (plain_conversation_gets_the_baseline silent_conversation)
    as (_ & web & vcn & vol & H & Hweb & _ & Hvcn & Hvol & _).
  - repeat constructor.
  - eexists. split; [exact H|]. simpl. by rewrite Hweb, Hvcn, Hvol.
Defined.

Local Close Scope Z_scope.

End ExtractionFacts.

(** ** From the signals to the recommendations *)

Module RecommendationFacts.
Import PyRe Schemas Analyzer Scenarios PyReFacts AnalyzerFacts.

Lemma instance_count_high info :
  instance_count (_determine_compute_requirements info)
  = if is_value (expected_traffic info) "high" then 2%Z else 1%Z.
Proof.
  unfold _determine_compute_requirements.
  destruct (is_value (website_type info) "static");
    [|destruct (is_value (website_type info) "ecommerce")];
    destruct (is_value (expected_traffic info) "high");
    destruct (is_value (scaling_needs info) "required"); reflexivity.
Qed.





(** X7. Of the ten extracted signals only four reach the recommendations:
    the budget, the availability and scaling needs and the region (and the
    two fields extraction never fills) change nothing. *)
Theorem recommendations_depend_on_four_signals info1 info2 :
  website_type info1 = website_type info2 ->
  expected_traffic info1 = expected_traffic info2 ->
  database_needs info1 = database_needs info2 ->
  storage_requirements info1 = storage_requirements info2 ->
  _generate_recommendations (_determine_requirements info1)
  = _generate_recommendations (_determine_requirements info2).
Proof.
  intros Hw Ht Hd Hs.
  unfold _generate_recommendations, _determine_requirements.
  cbn [compute network database storage].
  unfold _determine_network_requirements, _determine_database_requirements,
    _determine_storage_requirements, _determine_compute_requirements.
  rewrite Hw, Ht, Hd, Hs.
  destruct (is_value (website_type info2) "static");
    [|destruct (is_value (website_type info2) "ecommerce")];
    destruct (is_value (expected_traffic info2) "high");
    destruct (is_value (scaling_needs info1) "required");
    destruct (is_value (scaling_needs info2) "required"); reflexivity.
Qed.

(** A static site under high traffic, with and without a budget, high
    availability, scaling and a region. *)
Lemma recommendations_depend_on_four_signals_witness :
  _generate_recommendations (_determine_requirements static_high_traffic)
  = _generate_recommendations
      (_determine_requirements static_high_traffic_on_budget).
Proof.
  apply (recommendations_depend_on_four_signals static_high_traffic
           static_high_traffic_on_budget); reflexivity.
Defined.

Local Open Scope Z_scope.

(** X8. The block volume is never smaller than 50 GB; a static site gets
    exactly 50 GB whatever amount the conversation asked for; an e-commerce
    or dynamic site gets the larger of 100 GB and the amount asked for, any
    other site the larger of 50 GB and the amount asked for; and object
    storage is always requested. *)
Theorem block_volume_size info :
  let asked := default 0 (storage_requirements info) in
  let size := block_volume_size_in_gbs (_determine_storage_requirements info) in
  50 <= size /\
  object_storage (_determine_storage_requirements info) = true /\
  (website_type info = Some "static" -> size = 50) /\
  (website_type info = Some "ecommerce" \/ website_type info = Some "dynamic" ->
   size = Z.max 100 asked) /\
  (website_type info <> Some "static" ->
   website_type info <> Some "ecommerce" ->
   website_type info <> Some "dynamic" -> size = Z.max 50 asked).
Proof.
  intros asked size. subst asked size. unfold _determine_storage_requirements.
  cbn [block_volume_size_in_gbs object_storage].
  assert (Hasked : match truthy_int (storage_requirements info) with
                   | Some amount => Z.max 50 amount
                   | None => 50
                   end = Z.max 50 (default 0 (storage_requirements info))).
  { destruct (storage_requirements info) as [z|]; simpl; [|done].
    destruct (Z.eqb_spec z 0); [by subst|done]. }
  rewrite Hasked.
  repeat split.
  - destruct (is_value (website_type info) "static"); [done|].
    destruct (_ || _); lia.
  - intros ->. reflexivity.
  - intros [H|H]; rewrite H; cbn; lia.
  - intros N1 N2 N3. by rewrite !is_value_false.
Qed.

(** A static site that asked for 500 GB gets 50 GB; an e-commerce site that
    asked for nothing gets 100 GB. *)
Lemma block_volume_size_witness :
  block_volume_size_in_gbs (_determine_storage_requirements static_high_traffic)
  = 50 /\
  block_volume_size_in_gbs
    (_determine_storage_requirements ecommerce_high_traffic) = 100.
Proof.
  split.
  - destruct (block_volume_size static_high_traffic) as (_ & _ & H & _).
    by apply H.
  - destruct (block_volume_size ecommerce_high_traffic) as (_ & _ & _ & H & _).
    apply H. by left.
Defined.

(** X9. Under high traffic the compute requirement is two instances of 4
    OCPUs and 32 GB for every website type, and a load balancer is asked
    for; the shape follows the website type alone, so a static site keeps
    the Micro shape; without high traffic there is one instance and no load
    balancer. *)
Theorem high_traffic_sizing info :
  let c := _determine_compute_requirements info in
  let n := _determine_network_requirements info in
  (expected_traffic info = Some "high" ->
   instance_count c = 2 /\ ocpus c = 4 /\ memory_in_gbs c = 32 /\
   load_balancer n = true) /\
  (expected_traffic info <> Some "high" ->
   instance_count c = 1 /\ ocpus c <= 2 /\ memory_in_gbs c <= 16 /\
   load_balancer n = false) /\
  (website_type info = Some "static" -> shape c = "VM.Standard.E2.1.Micro") /\
  (website_type info <> Some "static" -> shape c = "VM.Standard.E4.Flex") /\
  (scaling_needs info = Some "required" ->
   min_instances c = Some (instance_count c) /\
   max_instances c = Some (3 * instance_count c)).
Proof.
  intros c n. subst c n.
  unfold _determine_network_requirements. rewrite instance_count_high.
  unfold _determine_compute_requirements.
  split; [|split; [|split; [|split]]].
  - intros ->. rewrite is_value_Some.
    destruct (is_value (website_type info) "static");
      [|destruct (is_value (website_type info) "ecommerce")];
      destruct (is_value (scaling_needs info) "required"); cbn; done.
  - intros H. rewrite (is_value_false _ _ H).
    destruct (is_value (website_type info) "static");
      [|destruct (is_value (website_type info) "ecommerce")];
      destruct (is_value (scaling_needs info) "required"); cbn;
      repeat split; lia.
  - intros ->. rewrite is_value_Some.
    destruct (is_value (expected_traffic info) "high");
      destruct (is_value (scaling_needs info) "required"); reflexivity.
  - intros H. rewrite (is_value_false _ _ H).
    destruct (is_value (website_type info) "ecommerce");
      destruct (is_value (expected_traffic info) "high");
      destruct (is_value (scaling_needs info) "required"); reflexivity.
  - intros ->. rewrite is_value_Some.
    destruct (is_value (website_type info) "static");
      [|destruct (is_value (website_type info) "ecommerce")];
      destruct (is_value (expected_traffic info) "high"); cbn; done.
Qed.

(** A static site under high traffic: two Micro instances of 4 OCPUs and
    32 GB. *)
Lemma high_traffic_sizing_witness :
  let c := _determine_compute_requirements static_high_traffic in
  instance_count c = 2 /\ ocpus c = 4 /\ memory_in_gbs c = 32 /\
  shape c = "VM.Standard.E2.1.Micro".
Proof.
  destruct (high_traffic_sizing static_high_traffic)
    as (Hhigh & _ & Hstatic & _).
  destruct (Hhigh eq_refl) as (H1 & H2 & H3 & _).
  cbv zeta. split; [exact H1|]. split; [exact H2|]. split; [exact H3|].
  by apply Hstatic.
Defined.

Local Close Scope Z_scope.

End RecommendationFacts.

(** ** What the ordering keeps of a batch *)

Module BatchFacts.
Import Schemas Provisioner Scenarios DictFacts GraphFacts DfsFacts.
Import OrderingFacts.

Lemma resource_map_snoc batch r :
  resource_map (batch ++ [r]) = dict_set (name r) r (resource_map batch).
Proof. unfold resource_map. by rewrite fold_left_app. Qed.

(** The map keeps, for every name, the last resource of the batch with that
    name. *)
Lemma resource_map_last batch k r :
  dict_get k (resource_map batch) = Some r
  <-> exists l1 l2, batch = l1 ++ r :: l2 /\ name r = k /\ k ∉ map name l2.
Proof.
  revert k r. induction batch as [|x batch IH] using rev_ind; intros k r.
  - split; [discriminate|]. intros (l1 & l2 & E & _). by destruct l1.
  - rewrite resource_map_snoc, dict_get_dict_set.
    destruct (decide (k = name x)) as [->|Hk].
    + split.
      * intros [= ->]. exists batch, []. split; [done|]. split; [done|].
        apply not_elem_of_nil.
      * intros (l1 & l2 & E & Hn & Hnot).
        destruct l2 as [|y l2 _] using rev_ind.
        -- apply app_inj_tail in E as [_ ->]. done.
        -- rewrite app_comm_cons, app_assoc in E.
           apply app_inj_tail in E as [_ ->].
           exfalso. apply Hnot. rewrite map_app. apply elem_of_app.
           right. simpl. left.
    + rewrite IH. split.
      * intros (l1 & l2 & -> & Hn & Hnot). exists l1, (l2 ++ [x]).
        split; [by rewrite <- app_assoc|]. split; [done|].
        rewrite map_app.
        intros [?|Hx%list_elem_of_singleton]%elem_of_app; [done|].
        simpl in Hx. done.
      * intros (l1 & l2 & E & Hn & Hnot).
        destruct l2 as [|y l2 _] using rev_ind.
        -- apply app_inj_tail in E as [_ ->]. done.
        -- rewrite app_comm_cons, app_assoc in E.
           apply app_inj_tail in E as [-> ->].
           exists l1, l2. split; [done|]. split; [done|].
           intros H. apply Hnot. rewrite map_app. apply elem_of_app. by left.
Qed.

Lemma lookup_all_Forall2 rmap names rs :
  lookup_all rmap names = Ok rs ->
  Forall2 (fun n r => dict_get n rmap = Some r) names rs.
Proof.
  revert rs. induction names as [|n names IH]; intros rs; simpl.
  - intros [= <-]. constructor.
  - destruct (dict_get n rmap) as [r|] eqn:E; [|discriminate].
    destruct (lookup_all rmap names) as [rs'|]; [|discriminate].
    intros [= <-]. constructor; [done|by apply IH].
Qed.

Lemma lookup_all_map rmap l :
  Forall (fun r => dict_get (name r) rmap = Some r) l ->
  lookup_all rmap (map name l) = Ok l.
Proof.
  induction 1 as [|r l Hr _ IH]; simpl; [done|]. by rewrite Hr, IH.
Qed.

(** What a successful sort returns: the resources the map holds for the
    names of the graph, each name once. *)
Lemma sorted_from_map iter batch sorted :
  (forall l, iter l ≡ₚ l) ->
  sort_with iter batch = Some (Ok sorted) ->
  map name sorted ≡ₚ dict_keys (dependency_graph batch) /\
  Forall (fun r => dict_get (name r) (resource_map batch) = Some r) sorted.
Proof.
  intros Hiter Hsort.
  assert (Hacyclic : ~ cyclic batch).
  { intros Hc. destruct (sort_with_cyclic iter Hiter batch Hc) as (x & E & _).
    congruence. }
  destruct (sort_with_acyclic iter Hiter batch Hacyclic)
    as (sorted' & E & Hperm).
  assert (sorted' = sorted) as -> by congruence. split; [done|].
  unfold sort_with in Hsort.
  destruct (visit_all _ _ _ _ _) as [[st|e]|]; [|done..].
  injection Hsort as Hsort. pose proof (lookup_all_names batch _ _ Hsort) as Hn.
  apply lookup_all_Forall2 in Hsort. rewrite <- Hn in Hsort.
  clear -Hsort. induction sorted as [|r sorted IH]; [constructor|].
  inversion Hsort; subst. constructor; [done|by apply IH].
Qed.

Lemma graph_keys_Permutation batch :
  NoDup (map name batch) ->
  dict_keys (dependency_graph batch) ≡ₚ map name batch.
Proof.
  intros Hnd.
  apply NoDup_Permutation; [apply graph_NoDup|done|apply graph_keys].
Qed.

(** X10. Ordering a batch without dependency cycle and with distinct names
    only rearranges it: the ordered list is a permutation of the batch. *)
Theorem sort_is_permutation env batch :
  ~ cyclic batch -> NoDup (map name batch) ->
  exists sorted,
    _sort_resources_by_dependencies env batch = Some (Ok sorted) /\
    sorted ≡ₚ batch.
Proof.
  intros Hacyclic Hnd.
  destruct (sort_acyclic env batch Hacyclic) as (sorted & Hsort & _).
  exists sorted. split; [exact Hsort|].
  destruct (sorted_from_map (set_iter env) batch sorted (set_iter_perm env)
              Hsort) as [Hperm Hmap].
  rewrite graph_keys_Permutation in Hperm by done.
  assert (Hin : forall r, r ∈ sorted -> r ∈ batch).
  { intros r Hr. eapply Forall_forall in Hmap; [|exact Hr].
    apply resource_map_last in Hmap as (l1 & l2 & -> & _). set_solver. }
  apply NoDup_Permutation.
  - apply (NoDup_fmap_1 name). by rewrite Hperm.
  - by apply (NoDup_fmap_1 name).
  - intros r. split; [apply Hin|]. intros Hr.
    assert (Hname : name r ∈ map name sorted).
    { rewrite Hperm. by apply list_elem_of_fmap_2. }
    apply list_elem_of_fmap in Hname as (r' & Hnames & Hr').
    assert (r = r') as ->; [|done].
    apply Hin in Hr'. clear -Hnd Hr Hr' Hnames.
    induction batch as [|x batch IH]; [by apply elem_of_nil in Hr|].
    simpl in Hnd. apply NoDup_cons in Hnd as [Hx Hnd].
    apply elem_of_cons in Hr as [->|Hr]; apply elem_of_cons in Hr' as [->|Hr'].
    + done.
    + exfalso. apply Hx. rewrite Hnames. by apply list_elem_of_fmap_2.
    + exfalso. apply Hx. rewrite <- Hnames. by apply list_elem_of_fmap_2.
    + by apply IH.
Qed.

Lemma mixed_batch_acyclic : ~ cyclic mixed_batch.
Proof. by eapply (sort_Ok_acyclic fixed_env). Qed.

(** The batch web, cluster, disk. *)
Lemma sort_is_permutation_witness :
  exists sorted,
    _sort_resources_by_dependencies fixed_env mixed_batch = Some (Ok sorted) /\
    sorted ≡ₚ mixed_batch.
Proof.
  apply (sort_is_permutation fixed_env mixed_batch).
  - apply mixed_batch_acyclic.
  - apply (bool_decide_unpack _). reflexivity.
Defined.

(** X11. Resources are told apart by name: of the resources of a batch that
    share a name only the last is ordered (and so provisioned), once; the
    ordered list has every name of the batch exactly once. *)
Theorem sort_keeps_last_of_each_name env batch :
  ~ cyclic batch ->
  exists sorted,
    _sort_resources_by_dependencies env batch = Some (Ok sorted) /\
    NoDup (map name sorted) /\
    (forall n, n ∈ map name sorted <-> n ∈ map name batch) /\
    (forall r, r ∈ sorted ->
       exists before after,
         batch = before ++ r :: after /\ name r ∉ map name after) /\
    length sorted <= length batch.
Proof.
  intros Hacyclic.
  destruct (sort_acyclic env batch Hacyclic) as (sorted & Hsort & Hnames).
  exists sorted. split; [exact Hsort|].
  destruct (sorted_from_map (set_iter env) batch sorted (set_iter_perm env)
              Hsort) as [Hperm Hmap].
  assert (Hnd : NoDup (map name sorted)).
  { rewrite Hperm. apply graph_NoDup. }
  split; [exact Hnd|]. split; [exact Hnames|]. split.
  - intros r Hr. eapply Forall_forall in Hmap; [|exact Hr].
    apply resource_map_last in Hmap as (l1 & l2 & E & _ & Hnot). eauto.
  - rewrite <- (length_map name sorted), <- (length_map name batch).
    apply submseteq_length, NoDup_submseteq; [exact Hnd|].
    intros n. apply Hnames.
Qed.

Lemma twin_batch_acyclic : ~ cyclic twin_batch.
Proof. by eapply (sort_Ok_acyclic fixed_env). Qed.

(** Of the two resources named "web" the storage one, which comes last, is
    kept. *)
Lemma sort_keeps_last_of_each_name_witness :
  exists sorted,
    _sort_resources_by_dependencies fixed_env twin_batch = Some (Ok sorted) /\
    NoDup (map name sorted) /\
    (forall n, n ∈ map name sorted <-> n ∈ map name twin_batch) /\
    (forall r, r ∈ sorted ->
       exists before after,
         twin_batch = before ++ r :: after /\ name r ∉ map name after) /\
    length sorted <= length twin_batch.
Proof.
  apply (sort_keeps_last_of_each_name fixed_env twin_batch).
  apply twin_batch_acyclic.
Defined.

(** *** Batches without dependencies inside the batch *)

Lemma keys_fold_NoDup {V} (f : OCIResource -> V) rs :
  forall d,
    NoDup (dict_keys d ++ map name rs) ->
    dict_keys (fold_left (fun d r => dict_set (name r) (f r) d) rs d)
    = dict_keys d ++ map name rs.
Proof.
  induction rs as [|r rs IH]; intros d Hnd; simpl.
  - by rewrite app_nil_r.
  - simpl in Hnd. apply NoDup_app in Hnd as (Hd & Hdisj & Hrs).
    apply NoDup_cons in Hrs as [Hr Hrs].
    assert (Hmem : dict_mem (name r) d = false).
    { destruct (dict_mem (name r) d) eqn:E; [|done].
      apply dict_mem_true in E. destruct (Hdisj _ E). left. }
    rewrite IH; rewrite dict_keys_dict_set, Hmem.
    + by rewrite <- app_assoc.
    + rewrite <- app_assoc. simpl. apply NoDup_app. split; [done|].
      split; [|by apply NoDup_cons].
      intros x Hx. by apply Hdisj.
Qed.

Lemma graph_keys_names batch :
  NoDup (map name batch) -> dict_keys (dependency_graph batch) = map name batch.
Proof.
  intros Hnd. unfold dependency_graph.
  rewrite keys_fold_add_dependencies. by rewrite keys_fold_NoDup.
Qed.

Lemma visit_leaf iter graph fuel n st :
  iter [] = [] -> dict_get n graph = Some [] ->
  n ∉ visited st -> temp_visited st = [] ->
  visit iter graph (S fuel) n st
  = Some (Ok {| visited := n :: visited st; temp_visited := [];
                order := order st ++ [n] |}).
Proof.
  intros Hiter Hget Hv Ht. simpl. rewrite Ht.
  rewrite bool_decide_false by apply not_elem_of_nil.
  rewrite bool_decide_false by done.
  rewrite Hget, Hiter. simpl.
  by rewrite filter_cons_False by (by intros H; apply H).
Qed.

Lemma visit_all_leaves iter graph fuel names :
  iter [] = [] ->
  (forall n, n ∈ names -> dict_get n graph = Some []) ->
  NoDup names ->
  forall st,
    temp_visited st = [] ->
    (forall n, n ∈ names -> n ∉ visited st) ->
    visit_all iter graph (S fuel) names st
    = Some (Ok {| visited := rev names ++ visited st; temp_visited := [];
                  order := order st ++ names |}).
Proof.
  intros Hiter. unfold visit_all.
  induction names as [|n names IH]; intros Hget Hnd st Ht Hv.
  - simpl. rewrite app_nil_r. destruct st; simpl in *. by subst.
  - apply NoDup_cons in Hnd as [Hn Hnd]. cbn [for_each]. unfold visit_root at 1.
    rewrite bool_decide_false by (apply Hv; left).
    rewrite visit_leaf; [|done|apply Hget; left|apply Hv; left|done].
    rewrite IH; [|intros; apply Hget; by right|done|done|].
    + simpl. by rewrite <- !app_assoc.
    + simpl. intros n' Hn' [->|H]%elem_of_cons; [done|].
      apply (Hv n'); [by right|done].
Qed.

(** X12. When no dependency of a resource names a resource of the batch
    (there are none, or they all point outside the batch, which the code
    skips without an error) and the names are distinct, ordering reverses
    the batch, in every environment. *)
Theorem independent_batch_is_reversed env batch :
  NoDup (map name batch) ->
  (forall r deps d,
     r ∈ batch -> dependencies r = Some deps -> d ∈ deps ->
     d ∉ map name batch) ->
  _sort_resources_by_dependencies env batch = Some (Ok (rev batch)).
Proof.
  intros Hnd Hout.
  assert (Hno : forall a b, ~ depends_on batch a b).
  { intros a b (r & deps & Hr & _ & Hd & Hb & Hin). by apply (Hout r deps b). }
  assert (Hempty : forall n,
             n ∈ dict_keys (dependency_graph batch) ->
             dict_get n (dependency_graph batch) = Some []).
  { intros n Hn. apply dict_get_is_Some in Hn as [deps Hget]. rewrite Hget.
    destruct deps as [|b deps]; [done|].
    destruct (Hno n b). apply graph_edge. exists (b :: deps).
    split; [done|left]. }
  assert (Hiter : set_iter env [] = []).
  { apply Permutation_nil_r, set_iter_perm. }
  unfold _sort_resources_by_dependencies, sort_with.
  rewrite (visit_all_leaves _ _ _ _ Hiter Hempty (graph_NoDup batch));
    [|done|intros n _; apply not_elem_of_nil].
  cbn [order dfs_start app]. rewrite graph_keys_names by done.
  rewrite <- map_rev. apply f_equal, lookup_all_map.
  apply Forall_forall. intros r Hr.
  apply list_elem_of_In in Hr. apply in_rev, list_elem_of_In in Hr.
  apply resource_map_last.
  apply list_elem_of_split in Hr as (l1 & l2 & ->).
  exists l1, l2. split; [done|]. split; [done|].
  rewrite map_app in Hnd. apply NoDup_app in Hnd as (_ & _ & Hnd).
  simpl in Hnd. by apply NoDup_cons in Hnd as [? _].
Qed.

(** "web" names a dependency "vcn" that is not in the batch. *)
Lemma independent_batch_is_reversed_witness :
  _sort_resources_by_dependencies reversing_env dangling_batch
  = Some (Ok [ resource STORAGE "disk" None;
               resource COMPUTE "web" (Some ["vcn"]) ]).
Proof.
  apply (independent_batch_is_reversed reversing_env dangling_batch).
  - apply (bool_decide_unpack _). reflexivity.
  - intros r deps d Hr Hdeps Hd.
    apply elem_of_cons in Hr as [->|Hr].
    + injection Hdeps as <-. apply list_elem_of_singleton in Hd as ->.
      apply (bool_decide_unpack _). reflexivity.
    + apply list_elem_of_singleton in Hr as ->. discriminate.
Defined.



End BatchFacts.

(** ** The request store *)

Module StoreFacts.
Import Schemas Provisioner Scenarios GraphFacts OrderingFacts ProvisionFacts.
Import BatchFacts.

Lemma init_request_other env rid reqs tick other :
  other <> rid -> (init_request env rid reqs tick).1 !! other = reqs !! other.
Proof.
  intros Hne. unfold init_request. destruct (reqs !! rid); simpl; [done|].
  by rewrite lookup_insert_ne.
Qed.

(** X14. A call of [provision_resources] always comes back, with a list or
    with the error of the ordering; it leaves the entries of all other
    requests as they were, leaves an entry for its own request, and never
    drops an outcome recorded earlier for it: the outcomes of an entry only
    grow, and its start time stays. *)
Theorem provisioning_touches_one_entry env reqs rid batch tick :
  exists outcome reqs' tick' st',
    provision_resources env reqs rid batch tick
    = Some (outcome, reqs', tick') /\
    (forall other, other <> rid -> reqs' !! other = reqs !! other) /\
    reqs' !! rid = Some st' /\
    (forall st, reqs !! rid = Some st ->
       started_at st' = started_at st /\
       estimated_completion st' = estimated_completion st /\
       resources st `prefix_of` resources st').
Proof.
  destruct (init_request_lookup env rid reqs tick) as (st0 & Hst0 & Hinit).
  destruct (sort_returns env batch) as [[sorted|e] Hsort].
  - destruct (provision_sorted env reqs rid batch tick sorted Hsort)
      as (st0' & Hst0' & ->).
    assert (st0' = st0) as -> by congruence.
    eexists _, _, _, _. split; [reflexivity|]. split; [|split].
    + intros other Hne. rewrite lookup_insert_ne by done.
      by apply init_request_other.
    + apply lookup_insert_eq.
    + intros st Hst. rewrite Hst in Hinit. destruct Hinit as [-> _].
      cbn. repeat split. by eexists.
  - unfold provision_resources. rewrite Hsort.
    destruct (init_request env rid reqs tick) as [reqs0 tick0] eqn:E.
    simpl in Hst0. eexists _, _, _, _. split; [reflexivity|]. split; [|split].
    + intros other Hne.
      pose proof (init_request_other env rid reqs tick other Hne) as H.
      by rewrite E in H.
    + exact Hst0.
    + intros st Hst. rewrite Hst in Hinit. by destruct Hinit as [-> _].
Qed.

(** A call for "req-1", which was started before and has the outcome of
    "vcn". *)
Lemma provisioning_touches_one_entry_witness :
  exists outcome reqs' tick' st',
    provision_resources fixed_env started_store "req-1" mixed_batch 5
    = Some (outcome, reqs', tick') /\
    reqs' !! "req-1" = Some st' /\
    started_at st' = "2023-10-25T12:34:56" /\
    ["vcn"] `prefix_of` map o_name (resources st').
Proof.
  destruct (provisioning_touches_one_entry fixed_env started_store "req-1"
              mixed_batch 5)
    as (outcome & reqs' & tick' & st' & Hrun & _ & Hst' & Hkeep).
  destruct (Hkeep _ (lookup_insert_eq _ _ _)) as (Hstart & _ & [rest Hpre]).
  exists outcome, reqs', tick', st'.
  split; [exact Hrun|]. split; [exact Hst'|]. split; [exact Hstart|].
  rewrite Hpre. by eexists.
Defined.

Lemma outcome_names env rs tick :
  map o_name (map outcome_of (attempts env rs tick)) = map name rs.
Proof.
  pose proof (attempts_records env rs tick) as H.
  induction H as [|r o rs os (Hn & _) _ IH]; simpl; [done|]. by rewrite Hn, IH.
Qed.

(** X15. On one provisioner, the status of a request after a call that
    ordered its batch reads back what the call stored: status "completed",
    progress 100, no message, and the outcomes known before followed by one
    outcome per ordered resource, by name; the status of every other
    request is what it was. *)
Theorem status_reads_back env reqs rid batch tick :
  ~ cyclic batch ->
  exists sorted result reqs' tick',
    _sort_resources_by_dependencies env batch = Some (Ok sorted) /\
    provision_resources env reqs rid batch tick
    = Some (Ok result, reqs', tick') /\
    let before := get_provisioning_status reqs rid in
    let after := get_provisioning_status reqs' rid in
    s_request_id after = rid /\ s_status after = "completed" /\
    s_progress after = 100%Q /\ s_message after = None /\
    (exists recorded,
       s_resources after = s_resources before ++ recorded /\
       map o_name recorded = map name sorted) /\
    (forall other,
       other <> rid ->
       get_provisioning_status reqs' other
       = get_provisioning_status reqs other).
Proof.
  intros Hacyclic.
  destruct (sort_acyclic env batch Hacyclic) as (sorted & Hsort & _).
  destruct (init_request_lookup env rid reqs tick) as (st0 & Hst0 & Hinit).
  destruct (provision_sorted env reqs rid batch tick sorted Hsort)
    as (st0' & Hst0' & Hrun).
  assert (st0' = st0) as -> by congruence.
  eexists sorted, _, _, _. split; [exact Hsort|]. split; [exact Hrun|].
  unfold get_provisioning_status. rewrite lookup_insert_eq. cbn.
  repeat split.
  - eexists. split; [|apply outcome_names]. f_equal.
    destruct (reqs !! rid); by destruct Hinit as [-> _].
  - intros other Hne. rewrite lookup_insert_ne by done.
    by rewrite init_request_other.
Qed.

(** The status of "req-1" after the batch web, cluster, disk. *)
Lemma status_reads_back_witness :
  exists sorted result reqs' tick',
    _sort_resources_by_dependencies fixed_env mixed_batch = Some (Ok sorted) /\
    provision_resources fixed_env ∅ "req-1" mixed_batch 0
    = Some (Ok result, reqs', tick') /\
    let before := get_provisioning_status ∅ "req-1" in
    let after := get_provisioning_status reqs' "req-1" in
    s_request_id after = "req-1" /\ s_status after = "completed" /\
    s_progress after = 100%Q /\ s_message after = None /\
    (exists recorded,
       s_resources after = s_resources before ++ recorded /\
       map o_name recorded = map name sorted) /\
    (forall other,
       other <> "req-1" ->
       get_provisioning_status reqs' other = get_provisioning_status ∅ other).
Proof.
  apply (status_reads_back fixed_env ∅ "req-1" mixed_batch 0).
  apply mixed_batch_acyclic.
Defined.

(** X16. An empty batch is complete at once: the call returns the empty
    list, consumes no identifier, and leaves the request "completed" at
    progress 100 with the outcomes it had; the loop that divides by the
    number of resources does not run. *)
Theorem empty_batch_completes env reqs rid tick :
  exists reqs' st',
    provision_resources env reqs rid [] tick
    = Some (Ok [], reqs', (init_request env rid reqs tick).2) /\
    reqs' !! rid = Some st' /\
    status st' = "completed" /\ progress st' = 100%Q /\
    resources st'
    = match reqs !! rid with Some st => resources st | None => [] end /\
    progress_writes env reqs rid [] tick
    = match reqs !! rid with None => [0%Q; 100%Q] | Some _ => [100%Q] end.
Proof.
  assert (Hsort : _sort_resources_by_dependencies env [] = Some (Ok []))
    by reflexivity.
  destruct (init_request_lookup env rid reqs tick) as (st0 & Hst0 & Hinit).
  destruct (provision_sorted env reqs rid [] tick [] Hsort)
    as (st0' & Hst0' & Hrun).
  assert (st0' = st0) as -> by congruence.
  eexists _, _. split; [exact Hrun|]. split; [apply lookup_insert_eq|].
  cbn. rewrite app_nil_r. repeat split.
  - destruct (reqs !! rid); by destruct Hinit as [-> _].
  - rewrite (progress_writes_sorted env reqs rid [] tick [] Hsort).
    by destruct (reqs !! rid).
Qed.

(** X17. Every value written to the progress field of a request lies between
    0 and 100. *)
Theorem progress_within_bounds env reqs rid batch tick :
  Forall (fun p => (0 <= p /\ p <= 100)%Q)
    (progress_writes env reqs rid batch tick).
Proof.
  assert (Hcreated :
            Forall (fun p => (0 <= p /\ p <= 100)%Q)
              (match reqs !! rid with None => [0%Q] | Some _ => [] end)).
  { destruct (reqs !! rid); repeat constructor; done. }
  destruct (sort_returns env batch) as [[sorted|e] Hsort].
  - rewrite (progress_writes_sorted env reqs rid batch tick sorted Hsort).
    apply Forall_app. split; [exact Hcreated|]. apply Forall_app. split.
    + apply Forall_forall. intros p Hp.
      apply list_elem_of_fmap in Hp as (i & -> & Hi).
      apply list_elem_of_In, in_seq in Hi. split.
      * apply progress_nonneg.
      * apply progress_le_100. lia.
    + repeat constructor; done.
  - rewrite progress_writes_unsorted; [exact Hcreated|].
    intros sorted. rewrite Hsort. discriminate.
Qed.

Lemma attempts_outcomes (l : list (OCIResource * result ProvisionedResource)) :
  map success_outcome (omap succeeded l)
  = List.filter has_ocid (map outcome_of l).
Proof.
  induction l as [|[r [p|e]] l IH]; [done|..].
  - rewrite omap_succeeded_cons. cbn. by rewrite IH.
  - rewrite omap_succeeded_cons. cbn. exact IH.
Qed.

Lemma records_ocid env rs os :
  Forall2 (records env) rs os ->
  Forall (fun o => has_ocid o = false <-> o_status o = FAILED) os.
Proof.
  induction 1 as [|r o rs os (_ & _ & Ho) _ IH]; constructor; [|exact IH].
  unfold has_ocid. destruct (supported r).
  - destruct Ho as (-> & [ocid ->] & _). split; discriminate.
  - by destruct Ho as (-> & -> & _).
Qed.

(** X18. What a call returns and what it stores agree: the outcomes with an
    identifier that the call appended to the entry of the request are, in
    order, the returned resources with their name, kind, status and
    identifier; the other outcomes it appended are the failures. *)
Theorem returned_resources_match_outcomes env reqs rid batch tick :
  ~ cyclic batch ->
  exists result reqs' tick' st' recorded,
    provision_resources env reqs rid batch tick
    = Some (Ok result, reqs', tick') /\
    reqs' !! rid = Some st' /\
    resources st'
    = match reqs !! rid with Some st => resources st | None => [] end
      ++ recorded /\
    map success_outcome result = List.filter has_ocid recorded /\
    Forall (fun o => has_ocid o = false <-> o_status o = FAILED) recorded /\
    length result <= length recorded.
Proof.
  intros Hacyclic.
  destruct (sort_acyclic env batch Hacyclic) as (sorted & Hsort & _).
  destruct (provision_appends env reqs rid batch tick sorted Hsort)
    as (result & reqs' & tick' & st' & recorded & Hrun & Hst' & _ & _ & Hres
        & -> & ->).
  eexists _, reqs', tick', st', _.
  split; [exact Hrun|]. split; [exact Hst'|]. split; [exact Hres|].
  split; [apply attempts_outcomes|]. split.
  - eapply records_ocid, attempts_records.
  - rewrite <- (length_map success_outcome), attempts_outcomes.
    apply List.filter_length_le.
Qed.

(** The batch web, cluster, disk on a new request. *)
Lemma returned_resources_match_outcomes_witness :
  exists result reqs' tick' st' recorded,
    provision_resources fixed_env ∅ "req-1" mixed_batch 0
    = Some (Ok result, reqs', tick') /\
    reqs' !! "req-1" = Some st' /\
    resources st' = [] ++ recorded /\
    map success_outcome result = List.filter has_ocid recorded /\
    Forall (fun o => has_ocid o = false <-> o_status o = FAILED) recorded /\
    length result <= length recorded.
Proof.
  destruct (returned_resources_match_outcomes fixed_env ∅ "req-1"
              mixed_batch 0 mixed_batch_acyclic)
    as (result & reqs' & tick' & st' & recorded & H1 & H2 & H3 & H4 & H5 & H6).
  rewrite lookup_empty in H3.
  exists result, reqs', tick', st', recorded. repeat split; assumption.
Defined.

End StoreFacts.

(** ** The handlers of the resource kinds *)

Module HandlerFacts.
Import PyRe Schemas Provisioner Scenarios MatcherFacts ExtractionFacts.





Lemma dict_get_default_absent {V} k (v : V) d :
  k ∉ dict_keys d -> dict_get_default k v d = v.
Proof.
  intros H. unfold dict_get_default.
  destruct (dict_get k d) eqn:E; [|done].
  destruct H. apply DictFacts.dict_get_is_Some. eauto.
Qed.

(** X20. A storage resource whose specification gives neither a size nor a
    performance level is provisioned as a block volume of 50 GB with 10
    VPUs per GB, attached paravirtualized, whatever else the specification
    says; this is what happens to the object storage bucket the analyzer
    recommends. *)
Theorem unsized_storage_is_a_block_volume env resource tick :
  resource_type resource = STORAGE ->
  "size_in_gbs" ∉ dict_keys (specifications resource) ->
  "vpus_per_gb" ∉ dict_keys (specifications resource) ->
  exists provisioned,
    (_provision_resource env resource tick).1 = Ok provisioned /\
    p_name provisioned = name resource /\
    dict_get "size_in_gbs" (details provisioned) = Some (PInt 50) /\
    dict_get "vpus_per_gb" (details provisioned) = Some (PInt 10) /\
    (exists access,
       access_info provisioned = Some access /\
       dict_get "attachment_type" access = Some (PStr "paravirtualized")) /\
    dict_keys (details provisioned)
    = ["size_in_gbs"; "vpus_per_gb"; "time_created"].
Proof.
  intros Hty Hsize Hvpus. unfold _provision_resource. rewrite Hty. cbn.
  rewrite !dict_get_default_absent by done.
  eexists. split; [reflexivity|]. cbn. repeat split. eauto.
Qed.

(** The bucket of the analyzer. *)
Lemma unsized_storage_is_a_block_volume_witness :
  exists provisioned,
    (_provision_resource fixed_env Analyzer.bucket_resource 0).1
    = Ok provisioned /\
    p_name provisioned = "WebsiteBucket" /\
    dict_get "size_in_gbs" (details provisioned) = Some (PInt 50) /\
    dict_get "vpus_per_gb" (details provisioned) = Some (PInt 10) /\
    (exists access,
       access_info provisioned = Some access /\
       dict_get "attachment_type" access = Some (PStr "paravirtualized")) /\
    dict_keys (details provisioned)
    = ["size_in_gbs"; "vpus_per_gb"; "time_created"].
Proof.
  apply (unsized_storage_is_a_block_volume fixed_env
           Analyzer.bucket_resource 0).
  - reflexivity.
  - apply (bool_decide_unpack _). reflexivity.
  - apply (bool_decide_unpack _). reflexivity.
Defined.

End HandlerFacts.

(** ** From the analysis to the provisioning *)

Module PipelineFacts.
Import PyRe Schemas Analyzer Provisioner Scenarios.
Import GraphFacts OrderingFacts ProvisionFacts RecommendationFacts.
Import BatchFacts StoreFacts.






End PipelineFacts.

(** ** The analysis and provisioning routes *)

Module RouteFacts.
Import PyRe Schemas Analyzer Provisioner Scenarios.
Import GraphFacts OrderingFacts ProvisionFacts RecommendationFacts.
Import BatchFacts StoreFacts.



Lemma sorted_in_batch env batch sorted r :
  _sort_resources_by_dependencies env batch = Some (Ok sorted) ->
  r ∈ sorted -> r ∈ batch.
Proof.
  intros Hsort Hr.
  destruct (sorted_from_map (set_iter env) batch sorted (set_iter_perm env)
              Hsort) as [_ Hmap].
  eapply Forall_forall in Hmap; [|exact Hr].
  apply resource_map_last in Hmap as (l1 & l2 & -> & _). set_solver.
Qed.

(** X24. The provision route answers 500 exactly for a batch with a
    dependency cycle, naming a resource on a cycle; every other batch gets
    the response "success", with the resources that were provisioned, even
    when some or all of them failed: a batch of kinds without handler is
    answered "success" with an empty list. *)
Theorem provision_route_outcomes env confirmation tick :
  let batch := Router.confirmed_resources confirmation in
  (cyclic batch ->
   exists x tick',
     Router.provision_resources env confirmation tick
     = Some (Router.HTTPException 500
               ("Error provisioning resources: "
                +:+ "Circular dependency detected for " +:+ x), tick') /\
     tc (depends_on batch) x x) /\
  (~ cyclic batch ->
   exists sorted result tick',
     _sort_resources_by_dependencies env batch = Some (Ok sorted) /\
     Router.provision_resources env confirmation tick
     = Some (Router.Respond
               {| Router.r_request_id := Router.request_id confirmation;
                  Router.r_status := "success";
                  Router.r_provisioned_resources := result;
                  Router.r_message := "Resources provisioned successfully" |},
             tick') /\
     map p_name result = map name (List.filter supported sorted) /\
     (Forall (fun r => supported r = false) batch -> result = [])).
Proof.
  intros batch. subst batch. unfold Router.provision_resources,
    Router.ResourceProvisioner. split.
  - intros Hcyclic.
    destruct (sort_cyclic env _ Hcyclic) as (x & Hsort & Hx).
    unfold provision_resources. rewrite Hsort, init_request_empty.
    exists x, (tick + 2). split; [reflexivity|exact Hx].
  - intros Hacyclic.
    destruct (sort_acyclic env _ Hacyclic) as (sorted & Hsort & _).
    destruct (provision_sorted env ∅ (Router.request_id confirmation) _ tick
                sorted Hsort) as (st0 & _ & ->).
    eexists sorted, _, _. split; [exact Hsort|]. split; [reflexivity|].
    destruct (attempts_succeeded env sorted
                (init_request env (Router.request_id confirmation) ∅ tick).2)
      as [Hnames _].
    split; [exact Hnames|].
    intros Hnone. apply (f_equal (@length _)) in Hnames.
    rewrite !length_map in Hnames.
    assert (Hfilter : List.filter supported sorted = []).
    { assert (Hs : Forall (fun r => supported r = false) sorted).
      { apply Forall_forall. intros r Hr.
        eapply Forall_forall in Hnone; [exact Hnone|].
        by eapply sorted_in_batch. }
      clear -Hs. induction Hs as [|r l Hr _ IH]; simpl; [done|].
      by rewrite Hr. }
    rewrite Hfilter in Hnames. by apply nil_length_inv.
Qed.

Lemma cluster_batch_acyclic : ~ cyclic cluster_batch.
Proof. by eapply (sort_Ok_acyclic fixed_env). Qed.

(** Two clusters: "success" with nothing provisioned. *)
Lemma provision_route_outcomes_witness :
  exists tick',
    Router.provision_resources fixed_env cluster_confirmation 0
    = Some (Router.Respond
              {| Router.r_request_id := "req-8";
                 Router.r_status := "success";
                 Router.r_provisioned_resources := [];
                 Router.r_message := "Resources provisioned successfully" |},
            tick').
Proof.
  destruct (provision_route_outcomes fixed_env cluster_confirmation 0)
    as [_ H].
  destruct (H cluster_batch_acyclic)
    as (sorted & result & tick' & _ & Hrun & _ & Hnone).
  rewrite Hnone in Hrun; [by exists tick'|].
  repeat constructor.
Defined.

End RouteFacts.
